(** * The streaming agentic loop of jarvis-ai

    A shallow embedding of [src/core/AIGateway.js] (the model gateway),
    [src/core/PluginManager.js] (the capability registry) and of the task
    planner (the orchestrator), with the properties of their specification,
    and of what surrounds them: the registry's tables and built-in tools,
    and the assistant of [src/core/Jarvis.js], which builds the context of a
    request and runs the planner or the gateway on it.

    JavaScript async generators are modelled by a small monad [Gen]: a
    computation reads and writes a [State], yields [StreamChunk]s in order and
    either returns a value or throws an [Exn]. *)

From Equations Require Import Equations.
From Stdlib Require Import DecimalString.
From stdpp Require Import gmap strings list fin_maps.


(** ** JavaScript values *)

(** A JavaScript string, one [ascii] per code unit: [String.length] is
    [.length] and [substring] is [.substring]. *)
Definition nl : string := String (Ascii.ascii_of_nat 10) EmptyString.

(** Truthiness of a string: only the empty string is falsy. *)
Definition truthy (s : string) : bool := negb (String.eqb s "").

(** [a || b] on strings. *)
Definition or_else (a b : string) : string := if truthy a then a else b.

(** [a || b] where [a] may be [undefined]. *)
Definition opt_or_else (a : option string) (b : string) : string :=
  match a with
  | Some s => or_else s b
  | None => b
  end.

(** The values [JSON.parse] produces.  Numbers are kept as integers; nothing
    below inspects them, and their text is the host's. *)
#[local] Unset Elimination Schemes.
Inductive Json :=
| JNull
| JBool (b : bool)
| JNumber (n : Z)
| JString (s : string)
| JArray (items : list Json)
| JObject (fields : list (string * Json)).
#[local] Set Elimination Schemes.

(** What [throw] carries: the error objects the three components meet, by
    their origin.  The handlers below only ever read [message]. *)
Inductive Exn :=
| APIError (msg : string)      (* raised by the model client *)
| SyntaxError (msg : string)   (* raised by JSON.parse *)
| TypeError (msg : string)     (* raised by the runtime, e.g. reading a property of undefined *)
| Error (msg : string).        (* new Error(...) *)

Definition message (e : Exn) : string :=
  match e with
  | APIError m | SyntaxError m | TypeError m | Error m => m
  end.

(** ** Data model *)

Record Attachment := {
  att_url : option string;
  att_type : string;
  att_data : string
}.

Record FunctionCall := {
  fc_name : string;
  fc_arguments : string
}.

(** One entry of an assistant message's [tool_calls]. *)
Record ToolCallRef := {
  ref_id : option string;
  ref_type : string;
  ref_function : FunctionCall
}.

Record Message := {
  role : string;
  content : string;
  tool_calls : option (list ToolCallRef);
  tool_call_id : option string;
  attachments : option (list Attachment)
}.

Record ToolDefinition := {
  name : string;
  description : string;
  parameters : Json
}.

(** The fields of a [tool_call] chunk. *)
Record ToolCallRequest := {
  tc_tool : string;
  tc_arguments : Json;
  tc_id : option string;
  tc_model : string
}.

(** The tagged chunks of the streaming protocol.  [model] is the field the
    gateway adds to its own chunks; the planner's [done] chunk has none. *)
Inductive StreamChunk :=
| Content (content : string) (model : string)
| ToolCall (tc : ToolCallRequest)
| Done (model : option string)
| Status (content : string)
| ToolStart (tool : string) (content : string)
| ToolResult (tool : string) (content : string)
| ToolErrorChunk (tool : string) (content : string)
| Warning (content : string).

Definition is_content (c : StreamChunk) : bool :=
  match c with Content _ _ => true | _ => false end.
Definition is_tool_call (c : StreamChunk) : bool :=
  match c with ToolCall _ => true | _ => false end.
Definition is_done (c : StreamChunk) : bool :=
  match c with Done _ => true | _ => false end.
Definition is_warning (c : StreamChunk) : bool :=
  match c with Warning _ => true | _ => false end.
Definition is_tool_error (c : StreamChunk) : bool :=
  match c with ToolErrorChunk _ _ => true | _ => false end.

(** *** The wire format of the model endpoint *)

Inductive FormattedPart :=
| TextPart (text : string)
| ImageUrlPart (url : string).

Inductive FormattedContent :=
| Plain (text : string)
| Parts (parts : list FormattedPart).

Record FormattedMessage := {
  fm_role : string;
  fm_content : FormattedContent
}.

(** The parameters of [client.chat.completions.create].  The fields
    [stream: true], [max_tokens: 4096] and [temperature: 0.7] are the same in
    every call and are left out; each entry of [p_tools] stands for
    [{type: 'function', function: {name, description, parameters}}]. *)
Record Params := {
  p_model : string;
  p_messages : list FormattedMessage;
  p_tools : option (list ToolDefinition);
  p_tool_choice : option string
}.

Record FunctionDelta := {
  fd_name : option string;
  fd_arguments : option string
}.

(** One entry of [delta.tool_calls]. *)
Record ToolCallDelta := {
  tcd_index : option nat;
  tcd_id : option string;
  tcd_function : option FunctionDelta
}.

Record Delta := {
  d_content : option string;
  d_tool_calls : option (list ToolCallDelta)
}.

Record Choice := {
  ch_delta : option Delta;
  ch_finish_reason : option string
}.

(** A chunk of the wire stream; [wc_choice] is [chunk.choices[0]]. *)
Record WireChunk := {
  wc_choice : option Choice
}.

(** What one call of the client delivers: the chunks of the wire stream and,
    when the call fails, the message of the error raised after them (a call
    that fails at once delivers no chunk). *)
Record Response := {
  rs_chunks : list WireChunk;
  rs_failure : option string
}.

(** ** Configuration ([src/jarvis.config.js]) *)

Module config.
Definition fastModel : string := "llama-3.1-8b-instant".

(** [process.env.DEFAULT_MODEL || 'llama-3.3-70b-versatile'] *)
Definition defaultModel (env_DEFAULT_MODEL : option string) : string :=
  opt_or_else env_DEFAULT_MODEL "llama-3.3-70b-versatile".

Definition routing : gmap string string :=
  list_to_map [
    ("general", "llama-3.3-70b-versatile");
    ("reasoning", "deepseek-r1-distill-llama-70b");
    ("coding", "llama-3.3-70b-versatile");
    ("vision", "llama-3.2-90b-vision-preview");
    ("fast", "llama-3.1-8b-instant")
  ].

(** The names that a lookup in the table, a plain object, finds although
    they are no keys of its own: the properties of [Object.prototype]. *)
Definition inherited : list string :=
  [ "constructor"; "__defineGetter__"; "__defineSetter__"; "hasOwnProperty";
    "__lookupGetter__"; "__lookupSetter__"; "isPrototypeOf";
    "propertyIsEnumerable"; "toString"; "valueOf"; "__proto__";
    "toLocaleString" ].
End config.

(** ** The environment *)

(** What the program takes from outside: the JSON built-ins of the JavaScript
    runtime, the model client held by the gateway, and the process
    environment.  [World] is the state of everything the client and the tools
    touch; [JSON_parse] answers [inr msg] where [JSON.parse] throws a
    [SyntaxError]; [JSON_stringify_indent v] is [JSON.stringify(v, null, 2)]. *)
Class Runtime := {
  World : Type;
  JSON_parse : string -> Json + string;
  JSON_stringify : Json -> string;
  JSON_stringify_indent : Json -> string;
  client_create : Params -> World -> Response * World;
  env_DEFAULT_MODEL : option string
}.

(** Arrays of messages live in a heap, so that two names of one array see
    each other's [push]. *)
Definition loc := positive.

(** The calls that leave a component, in the order they are made. *)
Inductive Event :=
| ClientCall (params : Params)
| GatewayCall (messages : list Message)
| ToolInvocation (tool : string) (args : Json).

Definition is_ClientCall (ev : Event) : bool :=
  match ev with ClientCall _ => true | _ => false end.

Record State `{Runtime} := {
  world : World;
  heap : gmap loc (list Message)
}.

(** ** Generators *)

Inductive Completion (A : Type) :=
| Return (a : A)
| Throw (e : Exn).
Arguments Return {A} a.
Arguments Throw {A} e.

(** The outcome of running a generator to its end: the chunks it yielded,
    the calls it made, the state it left, and how it ended. *)
Record Out `{Runtime} (A : Type) := {
  yielded : list StreamChunk;
  events : list Event;
  final : State;
  completion : Completion A
}.
Arguments yielded {_ A} o.
Arguments events {_ A} o.
Arguments final {_ A} o.
Arguments completion {_ A} o.
Arguments Build_Out {_ A} yielded events final completion.

Definition Gen `{Runtime} (A : Type) : Type := State -> Out A.

Section Generators.
Context `{Runtime}.

Definition ret {A} (a : A) : Gen A :=
  fun s => Build_Out [] [] s (Return a).

(** [o] followed by [o']. *)
Definition and_then {A B} (o : Out A) (o' : Out B) : Out B :=
  Build_Out (yielded o ++ yielded o') (events o ++ events o') (final o') (completion o').

Definition bind {A B} (m : Gen A) (k : A -> Gen B) : Gen B :=
  fun s =>
    let o := m s in
    match completion o with
    | Return a => and_then o (k a (final o))
    | Throw e => Build_Out (yielded o) (events o) (final o) (Throw e)
    end.

(** [yield c] *)
Definition yield (c : StreamChunk) : Gen unit :=
  fun s => Build_Out [c] [] s (Return tt).

(** [throw e] *)
Definition throw {A} (e : Exn) : Gen A :=
  fun s => Build_Out [] [] s (Throw e).

(** [try { m } catch (error) { handler error }]: what [m] yielded before it
    threw stays yielded. *)
Definition try_catch {A} (m : Gen A) (handler : Exn -> Gen A) : Gen A :=
  fun s =>
    let o := m s in
    match completion o with
    | Return a => o
    | Throw e => and_then o (handler e (final o))
    end.

Definition record (ev : Event) : Gen unit :=
  fun s => Build_Out [] [ev] s (Return tt).

(** A call into the outside world. *)
Definition external {A} (f : World -> A * World) : Gen A :=
  fun s =>
    let '(a, w) := f (world s) in
    Build_Out [] [] {| world := w; heap := heap s |} (Return a).

(** Reading an array through a reference, to call its [map]; a reference
    to nothing is [undefined], which has no properties. *)
Definition array_read (l : loc) : Gen (list Message) :=
  fun s =>
    match heap s !! l with
    | Some ms => Build_Out [] [] s (Return ms)
    | None =>
        Build_Out [] [] s
          (Throw (TypeError "Cannot read properties of undefined (reading 'map')"))
    end.

(** [[...a]]: a new array with the elements of [a]. *)
Definition array_spread (l : loc) : Gen loc :=
  fun s =>
    match heap s !! l with
    | Some ms =>
        let l' := fresh (dom (heap s)) in
        Build_Out [] [] {| world := world s; heap := <[l' := ms]> (heap s) |} (Return l')
    | None => Build_Out [] [] s (Throw (TypeError "undefined is not iterable"))
    end.

(** [a.push(m)] *)
Definition array_push (l : loc) (m : Message) : Gen unit :=
  fun s =>
    match heap s !! l with
    | Some ms =>
        Build_Out [] [] {| world := world s; heap := <[l := ms ++ [m]]> (heap s) |} (Return tt)
    | None =>
        Build_Out [] [] s (Throw (TypeError "Cannot read properties of undefined (reading 'push')"))
    end.

(** [for (const x of l) { body x }] *)
Fixpoint for_of {A} (l : list A) (body : A -> Gen unit) : Gen unit :=
  match l with
  | [] => ret tt
  | x :: rest => bind (body x) (fun _ => for_of rest body)
  end.

(** A loop over [l] that carries the variables it assigns in [acc]. *)
Fixpoint for_of_acc {A S} (l : list A) (acc : S) (body : S -> A -> Gen S) : Gen S :=
  match l with
  | [] => ret acc
  | x :: rest => bind (body acc x) (fun acc' => for_of_acc rest acc' body)
  end.

(** [for await (const chunk of gen) { body chunk }]: the chunks [gen] yields
    go to [body], not to the consumer of the loop; what [body] yields does.
    The bodies below assign local variables only (carried in [acc]) and do
    not throw, so running them after [gen] instead of in between changes
    nothing; when [gen] throws, the loop throws after the body has seen
    every chunk yielded before. *)
Definition for_await {S} (gen : Gen unit) (acc : S) (body : S -> StreamChunk -> Gen S)
    : Gen S :=
  fun s =>
    let o := gen s in
    let o' := for_of_acc (yielded o) acc body (final o) in
    Build_Out (yielded o') (events o ++ events o') (final o')
      match completion o', completion o with
      | Return acc', Return _ => Return acc'
      | Return _, Throw e => Throw e
      | Throw e, _ => Throw e
      end.
End Generators.

Declare Scope gen_scope.
Delimit Scope gen_scope with gen.
Notation "x <- m ;; k" := (bind m (fun x => k))
  (at level 100, m at next level, right associativity) : gen_scope.
Notation "m ;; k" := (bind m (fun _ => k))
  (at level 100, right associativity) : gen_scope.
Local Open Scope gen_scope.

(** ** The model gateway ([src/core/AIGateway.js]) *)

Record Request := {
  rq_messages : loc;
  rq_tools : option (list ToolDefinition);
  rq_taskType : option string
}.

(** An entry of the gateway's [toolCalls] array. *)
Record Accumulator := {
  acc_id : option string;
  acc_name : string;
  acc_arguments : string
}.

(** [a[i]], [undefined] at a hole and past the end. *)
Definition array_get {A} (a : list (option A)) (i : nat) : option A :=
  mjoin (a !! i).

(** [a[i] = v]: an assignment past the end grows the array and leaves holes
    below [i]. *)
Definition array_set {A} (i : nat) (v : A) (a : list (option A)) : list (option A) :=
  if decide (i < length a) then <[i := Some v]> a
  else a ++ replicate (i - length a) None ++ [Some v].

(** An assignment to a field of the object [a[i]]. *)
Definition array_modify {A} (f : A -> A) (i : nat) (a : list (option A)) : list (option A) :=
  alter (fmap f) i a.

Module AIGateway.
Section AIGateway.
Context `{Runtime}.

(** [selectModel(taskType = 'general')]. The table is a plain object, and
    [config.routing[taskType]] also finds what the table inherits from
    [Object.prototype] ([config.routing['constructor']] is a function, not
    the name of a model): the lookup below is that of the table's own keys,
    which is the code's for every task type outside [config.inherited]. *)
Definition selectModel (taskType : option string) : string :=
  let taskType := default "general" taskType in
  opt_or_else (config.routing !! taskType) (config.defaultModel env_DEFAULT_MODEL).

Definition formatAttachment (a : Attachment) : FormattedPart :=
  ImageUrlPart
    (opt_or_else (att_url a) ("data:" +:+ att_type a +:+ ";base64," +:+ att_data a)).

Definition formatMessage (m : Message) : FormattedMessage :=
  match attachments m with
  | Some (a :: rest) =>
      {| fm_role := role m;
         fm_content := Parts (TextPart (content m) :: map formatAttachment (a :: rest)) |}
  | _ => {| fm_role := role m; fm_content := Plain (content m) |}
  end.

Definition formatMessages (messages : list Message) : list FormattedMessage :=
  map formatMessage messages.

Definition build_params (model : string) (messages : list FormattedMessage)
    (tools : option (list ToolDefinition)) : Params :=
  match tools with
  | Some (t :: rest) =>
      {| p_model := model; p_messages := messages;
         p_tools := Some (t :: rest); p_tool_choice := Some "auto" |}
  | _ =>
      {| p_model := model; p_messages := messages;
         p_tools := None; p_tool_choice := None |}
  end.

(** [tc.name = n] and [tc.arguments += fragment] on an accumulator. *)
Definition set_name (n : string) (a : Accumulator) : Accumulator :=
  {| acc_id := acc_id a; acc_name := n; acc_arguments := acc_arguments a |}.
Definition add_arguments (fragment : string) (a : Accumulator) : Accumulator :=
  {| acc_id := acc_id a; acc_name := acc_name a;
     acc_arguments := acc_arguments a +:+ fragment |}.

(** The body of [for (const tc of delta.tool_calls)]: one fragment of a
    tool call, filed under its index. *)
Definition accumulate (toolCalls : list (option Accumulator)) (tc : ToolCallDelta)
    : list (option Accumulator) :=
  match tcd_index tc with
  | None => toolCalls
  | Some index =>
      let toolCalls :=
        match array_get toolCalls index with
        | Some _ => toolCalls
        | None =>
            array_set index {| acc_id := tcd_id tc; acc_name := ""; acc_arguments := "" |}
              toolCalls
        end in
      let toolCalls :=
        match tcd_function tc ≫= fd_name with
        | Some n => if truthy n then array_modify (set_name n) index toolCalls else toolCalls
        | None => toolCalls
        end in
      match tcd_function tc ≫= fd_arguments with
      | Some fragment =>
          if truthy fragment
          then array_modify (add_arguments fragment) index toolCalls
          else toolCalls
      | None => toolCalls
      end
  end.

(** [JSON.parse(text)] *)
Definition parse (text : string) : Gen Json :=
  match JSON_parse text with
  | inl v => ret v
  | inr msg => throw (SyntaxError msg)
  end.

(** The body of [for (const tc of toolCalls)] on a tool-call turn; a hole
    of the array is [undefined], whose [name] cannot be read. *)
Definition emit_tool_call (model : string) (tc : option Accumulator) : Gen unit :=
  match tc with
  | None => throw (TypeError "Cannot read properties of undefined (reading 'name')")
  | Some tc =>
      if truthy (acc_name tc) then
        args <- parse (or_else (acc_arguments tc) "{}") ;;
        yield (ToolCall {| tc_tool := acc_name tc; tc_arguments := args;
                           tc_id := acc_id tc; tc_model := model |})
      else ret tt
  end.

(** The body of [for await (const chunk of stream)]. *)
Definition on_chunk (model : string) (toolCalls : list (option Accumulator))
    (chunk : WireChunk) : Gen (list (option Accumulator)) :=
  let delta := wc_choice chunk ≫= ch_delta in
  match delta ≫= d_content with
  | Some c => if truthy c then yield (Content c model) else ret tt
  | None => ret tt
  end ;;
  let toolCalls :=
    match delta ≫= d_tool_calls with
    | Some tcs => foldl accumulate toolCalls tcs
    | None => toolCalls
    end in
  (if decide (wc_choice chunk ≫= ch_finish_reason = Some "tool_calls")
   then for_of toolCalls (emit_tool_call model)
   else ret tt) ;;
  ret toolCalls.

(** The [try] block of [stream]: the call of the client, the loop over the
    wire stream, which ends by the error of a failed call, and the [done]
    chunk. *)
Definition attempt (model : string) (params : Params) : Gen unit :=
  record (ClientCall params) ;;
  response <- external (client_create params) ;;
  for_of_acc (rs_chunks response) [] (on_chunk model) ;;
  match rs_failure response with
  | Some msg => throw (APIError msg)
  | None => ret tt
  end ;;
  yield (Done (Some model)).

(** [modelName || this.selectModel(request.taskType)] *)
Definition model_in_use (request : Request) (modelName : option string) : string :=
  opt_or_else modelName (selectModel (rq_taskType request)).

(** The number of fallbacks still open: the measure by which [stream]
    terminates. *)
Definition fallbacks_left (request : Request) (modelName : option string) : nat :=
  if decide (model_in_use request modelName = config.fastModel) then 0 else 1.

(** [async *stream(request, modelName = null)].  The messages to the
    console are left out. *)
Equations? stream (request : Request) (modelName : option string) : Gen unit
    by wf (fallbacks_left request modelName) lt :=
  stream request modelName :=
    let model := model_in_use request modelName in
    msgs <- array_read (rq_messages request) ;;
    let params := build_params model (formatMessages msgs) (rq_tools request) in
    try_catch (attempt model params)
      (fun error =>
         match decide (model ≠ config.fastModel) with
         | left _ => stream request (Some config.fastModel)
         | right _ => throw error
         end).
Proof.
  unfold fallbacks_left. rewrite decide_True by reflexivity.
  rewrite decide_False by assumption. lia.
Qed.

(** What [complete] returns. *)
Record Completed := {
  cp_content : string;
  cp_toolCalls : list StreamChunk
}.

(** [async complete(request, modelName = null)] *)
Definition complete (request : Request) (modelName : option string) : Gen Completed :=
  collected <-
    for_await (stream request modelName) ("", [])
      (fun '(result, toolCalls) chunk =>
         let result :=
           match chunk with
           | Content c _ => result +:+ c
           | _ => result
           end in
         let toolCalls :=
           if is_tool_call chunk then toolCalls ++ [chunk] else toolCalls in
         ret (result, toolCalls)) ;;
  let '(result, toolCalls) := collected in
  ret {| cp_content := result; cp_toolCalls := toolCalls |}.

(** The [content] field of a content chunk. *)
Definition content_of (chunk : StreamChunk) : string :=
  match chunk with
  | Content text _ => text
  | _ => ""
  end.

(** [complete] as its specification words it: the content of the content
    chunks, concatenated in the order they were yielded, and the tool-call
    chunks, in the order they were yielded. *)
Definition complete_spec (chunks : list StreamChunk) : Completed :=
  {| cp_content := foldr String.append "" (map content_of (List.filter is_content chunks));
     cp_toolCalls := List.filter is_tool_call chunks |}.
End AIGateway.
End AIGateway.

(** ** The capability registry ([src/core/PluginManager.js]) *)

Module PluginManager.
Section PluginManager.
Context `{Runtime}.

(** A value of [this.tools].  [tool_execute] is the tool's own function: it
    acts on the world and returns a value ([None] for [undefined]) or
    throws. *)
Record Tool := {
  definition : ToolDefinition;
  tool_execute : Json -> World -> (Exn + option Json) * World;
  plugin : option string
}.

(** [await tool.execute(args)] *)
Definition call_tool (tool : Tool) (args : Json) : Gen (option Json) :=
  outcome <- external (tool_execute tool args) ;;
  match outcome with
  | inl e => throw e
  | inr result => ret result
  end.

(** [async execute(toolName, args)] *)
Definition execute (tools : gmap string Tool) (toolName : string) (args : Json)
    : Gen (option Json) :=
  record (ToolInvocation toolName args) ;;
  match tools !! toolName with
  | None => throw (Error ("Unknown tool: " +:+ toolName))
  | Some tool =>
      try_catch (call_tool tool args) (fun error => throw error)
  end.
End PluginManager.
End PluginManager.

(** ** The task planner *)

Module TaskPlanner.
Section TaskPlanner.
Context `{Runtime}.

(** [this.maxIterations = 10] *)
Definition maxIterations : nat := 10.

(** The argument of [execute]; [cx_taskType] is [context.context?.taskType]. *)
Record Context := {
  cx_messages : loc;
  cx_tools : option (list ToolDefinition);
  cx_taskType : option string
}.

(** [s.length > 200 ? s.substring(0, 200) + '...' : s] *)
Definition truncate (s : string) : string :=
  if decide (200 < String.length s) then String.substring 0 200 s +:+ "..." else s.

(** [formatResult(result)]: [JSON.stringify(undefined, null, 2)] is
    [undefined], whose [length] cannot be read. *)
Definition formatResult (result : option Json) : Gen string :=
  match result with
  | Some (JString s) => ret (truncate s)
  | Some v => ret (truncate (JSON_stringify_indent v))
  | None => throw (TypeError "Cannot read properties of undefined (reading 'length')")
  end.

(** [typeof result === 'string' ? result : JSON.stringify(result)]; it is
    evaluated only after [formatResult] has returned, so never at
    [undefined]. *)
Definition serialize (result : option Json) : string :=
  match result with
  | Some (JString s) => s
  | Some v => JSON_stringify v
  | None => ""
  end.

Definition assistant_message (responseText : string) (toolCalls : list ToolCallRequest)
    : Message :=
  {| role := "assistant";
     content := responseText;
     tool_calls :=
       Some (map (fun tc =>
                    {| ref_id := tc_id tc;
                       ref_type := "function";
                       ref_function :=
                         {| fc_name := tc_tool tc;
                            fc_arguments := JSON_stringify (tc_arguments tc) |} |})
                 toolCalls);
     tool_call_id := None;
     attachments := None |}.

Definition tool_message (tc : ToolCallRequest) (text : string) : Message :=
  {| role := "tool"; content := text; tool_calls := None;
     tool_call_id := tc_id tc; attachments := None |}.

(** The body of [for (const tc of toolCalls)]. *)
Definition run_tool (plugins : gmap string PluginManager.Tool) (messages : loc)
    (tc : ToolCallRequest) : Gen unit :=
  try_catch
    (yield (ToolStart (tc_tool tc) (nl +:+ "> Running `" +:+ tc_tool tc +:+ "`..." +:+ nl)) ;;
     result <- PluginManager.execute plugins (tc_tool tc) (tc_arguments tc) ;;
     shown <- formatResult result ;;
     yield (ToolResult (tc_tool tc) ("> Result: " +:+ shown +:+ nl)) ;;
     array_push messages (tool_message tc (serialize result)))
    (fun error =>
       yield (ToolErrorChunk (tc_tool tc) ("> Error: " +:+ message error +:+ nl)) ;;
       array_push messages (tool_message tc ("Error: " +:+ message error))).

(** The body of [for await (const chunk of this.gateway.stream(...))]. *)
Definition collect (acc : string * list ToolCallRequest) (chunk : StreamChunk)
    : Gen (string * list ToolCallRequest) :=
  let '(responseText, toolCalls) := acc in
  match chunk with
  | Content c _ => yield chunk ;; ret (responseText +:+ c, toolCalls)
  | ToolCall tc => ret (responseText, toolCalls ++ [tc])
  | _ => ret (responseText, toolCalls)
  end.

(** Notes, among the events, the messages a call of the gateway is given. *)
Definition record_gateway_call (messages : loc) : Gen unit :=
  fun s => record (GatewayCall (default [] (heap s !! messages))) s.

(** One turn of the model: the call of the gateway and the loop over its
    chunks. *)
Definition model_turn (context : Context) (messages : loc)
    : Gen (string * list ToolCallRequest) :=
  record_gateway_call messages ;;
  for_await
    (AIGateway.stream
       {| rq_messages := messages;
          rq_tools := cx_tools context;
          rq_taskType := cx_taskType context |} None)
    ("", []) collect.

Definition status_executing : string :=
  nl +:+ nl +:+ "🔧 *Executing tools...*" +:+ nl.
Definition warning_max_iterations : string :=
  nl +:+ "⚠️ *Task reached maximum iterations. Please refine your request.*" +:+ nl.

(** What an iteration does once the turn has requested tools. *)
Definition run_tools (plugins : gmap string PluginManager.Tool) (messages : loc)
    (responseText : string) (toolCalls : list ToolCallRequest) : Gen unit :=
  yield (Status status_executing) ;;
  array_push messages (assistant_message responseText toolCalls) ;;
  for_of toolCalls (run_tool plugins messages) ;;
  yield (Status nl).

(** [while (iterations < this.maxIterations) { ... }] and the warning
    after it. *)
Equations? loop (plugins : gmap string PluginManager.Tool) (context : Context)
    (messages : loc) (iterations : nat) : Gen unit
    by wf (maxIterations - iterations) lt :=
  loop plugins context messages iterations :=
    match decide (iterations < maxIterations) with
    | left _ =>
        let iterations := S iterations in
        turn <- model_turn context messages ;;
        let '(responseText, toolCalls) := turn in
        match toolCalls with
        | [] => yield (Done None)
        | _ :: _ =>
            run_tools plugins messages responseText toolCalls ;;
            loop plugins context messages iterations
        end
    | right _ => yield (Warning warning_max_iterations)
    end.
Proof. lia. Qed.

(** [async *execute(context)] *)
Definition execute (plugins : gmap string PluginManager.Tool) (context : Context)
    : Gen unit :=
  messages <- array_spread (cx_messages context) ;;
  loop plugins context messages 0.
End TaskPlanner.
End TaskPlanner.

(** ** The registry's tables ([src/core/PluginManager.js]) *)

(** A JavaScript [Map] with string keys: its entries in the order in which
    their keys were first set; setting a key that is there replaces the
    value and keeps the place. *)
Module JsMap.
Fixpoint set_entry {V} (key : string) (v : V) (m : list (string * V)) : list (string * V) :=
  match m with
  | [] => [(key, v)]
  | (k, old) :: rest =>
      if decide (k = key) then (key, v) :: rest else (k, old) :: set_entry key v rest
  end.

Fixpoint get {V} (key : string) (m : list (string * V)) : option V :=
  match m with
  | [] => None
  | (k, v) :: rest => if decide (k = key) then Some v else get key rest
  end.

(** The table after the entries are set, one after the other. *)
Definition set_entries {V} (m : list (string * V)) (entries : list (string * V))
    : list (string * V) :=
  foldl (fun m entry => set_entry entry.1 entry.2 m) m entries.

Definition keys {V} (m : list (string * V)) : list string := map fst m.
Definition values {V} (m : list (string * V)) : list V := map snd m.
End JsMap.

(** The quotation mark. *)
Definition quote : string := String (Ascii.ascii_of_nat 34) EmptyString.

(** [parts.join(separator)] *)
Fixpoint join (separator : string) (parts : list string) : string :=
  match parts with
  | [] => ""
  | [part] => part
  | part :: rest => part +:+ separator +:+ join separator rest
  end.

(** [`${v}`] on a value of [JSON.parse]: the text of a primitive; of an
    array its elements' texts, [null] counting as the empty text, joined by
    commas; of an object [[object Object]], unless it has a property
    [toString] of its own, which is no function and hides the inherited
    one, so that the conversion throws. *)
Fixpoint to_text (number_text : Z -> string) (v : Json) {struct v} : Exn + string :=
  match v with
  | JNull => inr "null"
  | JBool b => inr (if b then "true" else "false")
  | JNumber n => inr (number_text n)
  | JString s => inr s
  | JArray items =>
      let fix texts (items : list Json) : Exn + list string :=
        match items with
        | [] => inr []
        | item :: rest =>
            match match item with
                  | JNull => inr ""
                  | _ => to_text number_text item
                  end with
            | inl e => inl e
            | inr text =>
                match texts rest with
                | inl e => inl e
                | inr more => inr (text :: more)
                end
            end
        end in
      match texts items with
      | inl e => inl e
      | inr parts => inr (join "," parts)
      end
  | JObject fields =>
      match JsMap.get "toString" fields with
      | Some _ => inl (TypeError "Cannot convert object to primitive value")
      | None => inr "[object Object]"
      end
  end.

(** [`${v}`] where [v] may be [undefined]. *)
Definition template (number_text : Z -> string) (v : option Json) : Exn + string :=
  match v with
  | None => inr "undefined"
  | Some v => to_text number_text v
  end.

(** The characters of a string. *)
Fixpoint characters (text : string) : list Ascii.ascii :=
  match text with
  | EmptyString => []
  | String c rest => c :: characters rest
  end.

Module Calculator.
(** The characters the pattern [[^0-9+\-*/().%\s]] leaves: the digits, the
    eight signs, and white space, which among the code units below 256 is
    the units 9 to 13, 32 and 160. *)
Definition kept (c : Ascii.ascii) : bool :=
  let n := Ascii.nat_of_ascii c in
  ((48 <=? n) && (n <=? 57))
  || bool_decide (n ∈ [43; 45; 42; 47; 40; 41; 46; 37])
  || ((9 <=? n) && (n <=? 13)) || (n =? 32) || (n =? 160).

(** [expression.replace(/[^0-9+\-*/().%\s]/g, '')] *)
Fixpoint sanitize (expression : string) : string :=
  match expression with
  | EmptyString => EmptyString
  | String c rest => if kept c then String c (sanitize rest) else sanitize rest
  end.

(** The body of the tool [calculate] on an expression that is a string.
    [evaluate text] is the text of the value of
    [Function(`"use strict"; return (${text})`)()], or the error it throws. *)
Definition calculate (evaluate : string -> Exn + string) (expression : string) : string :=
  match evaluate (sanitize expression) with
  | inr result => expression +:+ " = " +:+ result
  | inl _ => "Error: Could not evaluate " +:+ quote +:+ expression +:+ quote
  end.
End Calculator.

Module Registry.
Section Registry.
Context `{Runtime}.

(** What the built-in tools take from the host: the functions of the tools
    that read the clock or start a process, the evaluation of an arithmetic
    text by [Function], and the text [`${n}`] of a number. *)
Record Host := {
  get_current_time : Json -> World -> (Exn + option Json) * World;
  open_app : Json -> World -> (Exn + option Json) * World;
  run_command : Json -> World -> (Exn + option Json) * World;
  web_search : Json -> World -> (Exn + option Json) * World;
  evaluate : string -> Exn + string;
  number_text : Z -> string
}.

(** A tool object of a plugin: the definition and the function. *)
Record ToolObject := {
  to_definition : ToolDefinition;
  to_execute : Json -> World -> (Exn + option Json) * World
}.

(** An entry of a plugin's [tools]: a tool object, or [null] or
    [undefined], which have no [name] to read. *)
Inductive Entry :=
| Null
| Undefined
| Tool (tool : ToolObject).

(** The field [tools] of a plugin: missing or falsy, an array, or a value
    that is truthy and cannot be iterated, a number or a plain object. *)
Inductive Listing :=
| NoTools
| NotIterable
| Listed (entries : list Entry).

Record Plugin := {
  pl_tools : Listing
}.

(** The fields of the plugin manager. *)
Record Registry := {
  plugins : list (string * Plugin);
  tools : list (string * PluginManager.Tool);
  count : nat
}.

(** [constructor()] *)
Definition created : Registry :=
  {| plugins := []; tools := []; count := 0 |}.

Definition registered (pluginName : string) (tool : ToolObject) : PluginManager.Tool :=
  {| PluginManager.definition := to_definition tool;
     PluginManager.tool_execute := to_execute tool;
     PluginManager.plugin := Some pluginName |}.

(** [for (const tool of plugin.tools) { this.tools.set(tool.name, ...) }]:
    the table of tools when the loop ends, and what it throws. *)
Fixpoint set_tools (pluginName : string) (entries : list Entry)
    (tools : list (string * PluginManager.Tool))
    : option Exn * list (string * PluginManager.Tool) :=
  match entries with
  | [] => (None, tools)
  | Tool tool :: rest =>
      set_tools pluginName rest
        (JsMap.set_entry (name (to_definition tool)) (registered pluginName tool) tools)
  | Null :: _ =>
      (Some (TypeError "Cannot read properties of null (reading 'name')"), tools)
  | Undefined :: _ =>
      (Some (TypeError "Cannot read properties of undefined (reading 'name')"), tools)
  end.

(** [async register(name, plugin)]: the manager after the call, and what
    the call throws.  The plugin is set before its tools are read, and
    [count] is raised after the loop, so a call that throws leaves the
    plugin and the tools set so far, and [count] as it was. *)
Definition register (pluginName : string) (plugin : Plugin) (r : Registry)
    : option Exn * Registry :=
  let '(thrown, tools) :=
    match pl_tools plugin with
    | NoTools => (None, tools r)
    | NotIterable => (Some (TypeError "plugin.tools is not iterable"), tools r)
    | Listed entries => set_tools pluginName entries (tools r)
    end in
  (thrown,
   {| plugins := JsMap.set_entry pluginName plugin (plugins r);
      tools := tools;
      count := match thrown with
               | None => S (count r)
               | Some _ => count r
               end |}).

(** [{ name }] on the arguments of a tool: [null] has no properties, and a
    value that is not an object has none of this name. *)
Definition property (key : string) (args : Json) : Exn + option Json :=
  match args with
  | JNull => inl (TypeError ("Cannot destructure property '" +:+ key +:+ "' of 'object null' as it is null."))
  | JObject fields => inr (JsMap.get key fields)
  | _ => inr None
  end.

(** The function of the tool [calculate]: what is not a string has no
    function [replace], and the [catch] block answers the [TypeError] with
    the error text; the template of that text is outside any [try], and
    what the conversion of the expression to text throws there is thrown. *)
Definition calculate_execute (host : Host) (args : Json) (w : World)
    : (Exn + option Json) * World :=
  match property "expression" args with
  | inl e => (inl e, w)
  | inr (Some (JString expression)) =>
      (inr (Some (JString (Calculator.calculate (evaluate host) expression))), w)
  | inr other =>
      match template (number_text host) other with
      | inr text =>
          (inr (Some (JString ("Error: Could not evaluate " +:+ quote
                                 +:+ text +:+ quote))), w)
      | inl e => (inl e, w)
      end
  end.

Definition object_schema (properties : list (string * Json)) (required : list string) : Json :=
  JObject [("type", JString "object"); ("properties", JObject properties);
           ("required", JArray (map JString required))].

Definition string_property (description : string) : Json :=
  JObject [("type", JString "string"); ("description", JString description)].

Definition builtin (definition : ToolDefinition)
    (execute : Json -> World -> (Exn + option Json) * World) : string * PluginManager.Tool :=
  (name definition,
   {| PluginManager.definition := definition;
      PluginManager.tool_execute := execute;
      PluginManager.plugin := None |}).

(** The five tools [registerBuiltInTools] sets, in its order. *)
Definition builtin_tools (host : Host) : list (string * PluginManager.Tool) :=
  [ builtin
      {| name := "get_current_time";
         description := "Get the current date and time";
         parameters := JObject [("type", JString "object"); ("properties", JObject [])] |}
      (get_current_time host);
    builtin
      {| name := "calculate";
         description := "Perform a mathematical calculation";
         parameters :=
           object_schema
             [("expression",
               string_property
                 ("The math expression to evaluate (e.g., " +:+ quote +:+ "2 + 2 * 3"
                    +:+ quote +:+ ")"))]
             ["expression"] |}
      (calculate_execute host);
    builtin
      {| name := "open_app";
         description := "Open an application on the user's Mac";
         parameters :=
           object_schema
             [("app_name",
               string_property
                 ("Name of the app to open (e.g., " +:+ quote +:+ "Safari" +:+ quote +:+ ", "
                    +:+ quote +:+ "Notes" +:+ quote +:+ ", " +:+ quote +:+ "Calendar"
                    +:+ quote +:+ ")"))]
             ["app_name"] |}
      (open_app host);
    builtin
      {| name := "run_command";
         description := "Run a shell command and return the output. Use for system tasks.";
         parameters :=
           object_schema [("command", string_property "The shell command to run")]
             ["command"] |}
      (run_command host);
    builtin
      {| name := "web_search";
         description := "Search the web for information";
         parameters := object_schema [("query", string_property "Search query")] ["query"] |}
      (web_search host) ].

(** [registerBuiltInTools()] *)
Definition registerBuiltInTools (host : Host) (r : Registry) : Registry :=
  {| plugins := plugins r;
     tools := JsMap.set_entries (tools r) (builtin_tools host);
     count := count r |}.

(** [config.plugins.enabled] *)
Definition enabled : list string := ["system"; "web"; "files"; "vision"; "code"].

(** [async initialize()].  [directory] tells whether the plugins directory
    exists, and [imported name] is the plugin that the file of [name] gives,
    if the file exists and its import succeeds.  What [register] throws is
    caught and logged: the manager goes on as the call left it. *)
Definition initialize (host : Host) (directory : bool) (imported : string -> option Plugin)
    (r : Registry) : Registry :=
  if directory then
    registerBuiltInTools host
      (foldl (fun r pluginName =>
                match imported pluginName with
                | Some plugin => (register pluginName plugin r).2
                | None => r
                end)
             r enabled)
  else registerBuiltInTools host r.

(** [getToolDefinitions()] *)
Definition getToolDefinitions (r : Registry) : list ToolDefinition :=
  map PluginManager.definition (JsMap.values (tools r)).

(** [getCapabilitySummary()] *)
Definition getCapabilitySummary (r : Registry) : string :=
  join nl
    (map (fun entry =>
            "- " +:+ entry.1 +:+ ": " +:+ description (PluginManager.definition entry.2))
         (tools r)).

(** [async unloadAll()] *)
Definition unloadAll (r : Registry) : Registry :=
  {| plugins := []; tools := []; count := 0 |}.

(** [async execute(toolName, args)] on the tools of the registry. *)
Definition execute (r : Registry) (toolName : string) (args : Json) : Gen (option Json) :=
  PluginManager.execute (list_to_map (tools r)) toolName args.
End Registry.
End Registry.

(** ** The assistant ([src/core/Jarvis.js]) *)

Module Jarvis.
Section Jarvis.
Context `{Runtime}.

(** *** Which inputs go to the planner *)

(** How a pattern with the flag [i] reads a code unit: the letters [a] to
    [z] as their capitals.  The patterns below are made of such letters,
    spaces and an apostrophe, which no other code unit is read as. *)
Definition canonical (c : Ascii.ascii) : Ascii.ascii :=
  let n := Ascii.nat_of_ascii c in
  if (97 <=? n) && (n <=? 122) then Ascii.ascii_of_nat (n - 32) else c.

(** The text of an alternative matches at the start of [input]. *)
Fixpoint matches_here (alternative input : string) : bool :=
  match alternative, input with
  | EmptyString, _ => true
  | String a rest, String c more =>
      Ascii.eqb (canonical a) (canonical c) && matches_here rest more
  | String _ _, EmptyString => false
  end.

(** It matches somewhere in [input]. *)
Fixpoint matches (alternative input : string) : bool :=
  matches_here alternative input
  || match input with
     | EmptyString => false
     | String _ more => matches alternative more
     end.

(** [pattern.test(input)] for a pattern that is a choice of texts. *)
Definition test (pattern : list string) (input : string) : bool :=
  existsb (fun alternative => matches alternative input) pattern.

Definition toolTriggers : list (list string) :=
  [ ["open"; "launch"; "start"; "run"; "execute"];
    ["search"; "find"; "look up"; "google"];
    ["read"; "write"; "create"; "delete"; "move"; "copy"];
    ["turn on"; "turn off"; "set"; "adjust"; "control"];
    ["play"; "pause"; "stop"; "next"; "previous"];
    ["send"; "email"; "message"; "call"];
    ["schedule"; "remind"; "calendar"; "event"];
    ["screenshot"; "capture"; "screen"];
    ["generate"; "create image"; "draw"];
    ["what's on my screen"; "what do you see"];
    ["install"; "download"; "update"];
    ["calculate"; "math"; "compute"];
    ["what time"; "current time"; "date today"] ].

(** [shouldUseTools(input)] *)
Definition shouldUseTools (input : string) : bool :=
  existsb (fun pattern => test pattern input) toolTriggers.

(** *** The assistant's state and surroundings *)

(** The second argument of [process]; [taskType] is what the planner reads
    as [context.context?.taskType]. *)
Record Input := {
  source : option string;
  given_attachments : option (list Attachment);
  taskType : option string
}.

(** An entry of what [memory.recall] returns. *)
Record Memo := {
  memo_content : string;
  memo_timestamp : string
}.

(** What is emitted to the listeners.  The duration of a run, part of
    [complete], is left out. *)
Inductive Emitted :=
| Thinking (input : string)
| Executing
| Speaking (text : string)
| Complete (response : string)
| Failed (error : Exn).

(** The fields of the assistant that [process] reads and writes.  The
    messages of the conversation are objects: [objects] holds them, and
    [currentContext] and the arrays built from it hold references, so that
    a write to a message is seen through every array that holds it.  The
    field [timestamp] of a message, which nothing reads, is left out. *)
Record Self := {
  objects : gmap loc Message;
  currentContext : list loc;
  status : string;
  messageCount : nat;
  sessionId : string
}.

(** The components and the host: the registry once initialised, the
    memory, [emit] of the event emitter that the assistant is, the clock as
    [toLocaleString] shows it, and whether there is a voice engine.  A call
    of [emit] runs the listeners of the event and throws what one of them
    throws; for the event ['error'] it throws also when no listener is
    registered. *)
Record Surroundings := {
  plugins : Registry.Registry;
  recall : string -> World -> (Exn + list Memo) * World;
  store : string -> string -> Input -> string -> World -> option Exn * World;
  emit : Emitted -> World -> option Exn * World;
  clock : World -> string;
  voice : bool
}.

(** *** The generator of [process] *)

(** Its chunks: those of the planner or the gateway, passed on, and the
    chunk [{type: 'error', content}] of its own. *)
Inductive Chunk :=
| Forwarded (chunk : StreamChunk)
| ErrorChunk (content : string).

Record Ran (A : Type) := {
  passed : list Chunk;
  made : list Event;
  self : Self;
  left : State;
  ended : Completion A
}.
Arguments passed {A} r.
Arguments made {A} r.
Arguments self {A} r.
Arguments left {A} r.
Arguments ended {A} r.
Arguments Build_Ran {A} passed made self left ended.

Definition Act (A : Type) : Type := Self -> State -> Ran A.

Definition pure {A} (a : A) : Act A :=
  fun j s => Build_Ran [] [] j s (Return a).

Definition next {A B} (m : Act A) (k : A -> Act B) : Act B :=
  fun j s =>
    let r := m j s in
    match ended r with
    | Return a =>
        let r' := k a (self r) (left r) in
        Build_Ran (passed r ++ passed r') (made r ++ made r') (self r') (left r') (ended r')
    | Throw e => Build_Ran (passed r) (made r) (self r) (left r) (Throw e)
    end.

Definition raise {A} (e : Exn) : Act A :=
  fun j s => Build_Ran [] [] j s (Throw e).

(** [try { m } catch (error) { handler error }] *)
Definition catch {A} (m : Act A) (handler : Exn -> Act A) : Act A :=
  fun j s =>
    let r := m j s in
    match ended r with
    | Return a => r
    | Throw e =>
        let r' := handler e (self r) (left r) in
        Build_Ran (passed r ++ passed r') (made r ++ made r') (self r') (left r') (ended r')
    end.

Definition pass (c : Chunk) : Act unit :=
  fun j s => Build_Ran [c] [] j s (Return tt).

(** An assignment to fields of [this]. *)
Definition update (f : Self -> Self) : Act unit :=
  fun j s => Build_Ran [] [] (f j) s (Return tt).

Definition this : Act Self :=
  fun j s => Build_Ran [] [] j s (Return j).

Definition reading {A} (f : World -> A) : Act A :=
  fun j s => Build_Ran [] [] j s (Return (f (world s))).

(** A call of a component that returns or throws. *)
Definition calling {A} (f : World -> (Exn + A) * World) : Act A :=
  fun j s =>
    let '(outcome, w) := f (world s) in
    Build_Ran [] [] j {| world := w; heap := heap s |}
      match outcome with
      | inl e => Throw e
      | inr a => Return a
      end.

(** [this.emit(...)]: what [emit] throws is thrown. *)
Definition emitting (c : Surroundings) (what : Emitted) : Act unit :=
  calling (fun w =>
             let '(thrown, w') := emit c what w in
             (match thrown with Some e => inl e | None => inr tt end, w')).

(** [chunk.content || ''] *)
Definition chunk_content (chunk : StreamChunk) : string :=
  match chunk with
  | Content text _ => text
  | Status text | Warning text => text
  | ToolStart _ text | ToolResult _ text | ToolErrorChunk _ text => text
  | ToolCall _ | Done _ => ""
  end.

(** [for await (const chunk of gen) { response += chunk.content || '';
    yield chunk; }]: every chunk is passed on, and the loop ends as [gen]
    ends.  It gives the [response] it has put together. *)
Definition forward (gen : Gen unit) : Act string :=
  fun j s =>
    let o := gen s in
    Build_Ran (map Forwarded (yielded o)) (events o) j (final o)
      match completion o with
      | Return _ => Return (foldr String.append "" (map chunk_content (yielded o)))
      | Throw e => Throw e
      end.

Definition set_status (text : string) (j : Self) : Self :=
  {| objects := objects j; currentContext := currentContext j; status := text;
     messageCount := messageCount j; sessionId := sessionId j |}.

Definition count_message (j : Self) : Self :=
  {| objects := objects j; currentContext := currentContext j; status := status j;
     messageCount := S (messageCount j); sessionId := sessionId j |}.

(** A new message object: its reference, and the assistant with it. *)
Definition new_ref (j : Self) : loc := fresh (dom (objects j)).

Definition add_object (m : Message) (j : Self) : Self :=
  {| objects := <[new_ref j := m]> (objects j); currentContext := currentContext j;
     status := status j; messageCount := messageCount j; sessionId := sessionId j |}.

Definition new_message (m : Message) : Act loc :=
  fun j s => Build_Ran [] [] (add_object m j) s (Return (new_ref j)).

(** [this.currentContext.push(...)] *)
Definition push_context (l : loc) (j : Self) : Self :=
  {| objects := objects j; currentContext := currentContext j ++ [l];
     status := status j; messageCount := messageCount j; sessionId := sessionId j |}.

(** [this.currentContext.push({role, content, timestamp})] *)
Definition remember (role content : string) : Act unit :=
  next (new_message {| role := role; content := content; tool_calls := None;
                       tool_call_id := None; attachments := None |})
    (fun l => update (push_context l)).

(** [message.attachments = given] on the object at [l]. *)
Definition attach (given : list Attachment) (m : Message) : Message :=
  {| role := role m; content := content m; tool_calls := tool_calls m;
     tool_call_id := tool_call_id m; attachments := Some given |}.

Definition write_attachments (l : loc) (given : list Attachment) (j : Self) : Self :=
  {| objects := alter (attach given) l (objects j);
     currentContext := currentContext j; status := status j;
     messageCount := messageCount j; sessionId := sessionId j |}.

Definition prompt_head : string :=
  join nl
    [ "You are J.A.R.V.I.S. (Just A Rather Very Intelligent System), an advanced AI assistant.";
      "";
      "PERSONALITY:";
      "- Professional yet personable, with subtle wit";
      "- Proactive - anticipate needs and offer solutions";
      "- Precise and efficient in responses";
      "- Loyal and focused on the user's best interests";
      "- Speak naturally, not robotically";
      "";
      "CAPABILITIES:";
      "" ].

Definition prompt_body : string :=
  join nl
    [ "";
      "";
      "GUIDELINES:";
      "1. For simple questions, respond directly and concisely";
      "2. For tasks requiring action, use the available tools";
      "3. Always explain what you're doing when executing tasks";
      "4. If unsure, ask for clarification";
      "5. Prioritize user safety and data security";
      "6. When multiple steps are needed, execute them in sequence";
      "7. Report results clearly and summarize actions taken";
      "";
      "RESPONSE STYLE:";
      "- Use natural conversational language";
      "- Be concise but complete";
      "- Format code with proper syntax highlighting";
      "- Use bullet points for lists";
      "- Acknowledge the user's intent before acting";
      "";
      "Current date and time: " ].

Definition prompt_tail : string :=
  join nl
    [ "";
      "User's system: macOS" ].

(** [getSystemPrompt()], at the time [now]. *)
Definition getSystemPrompt (c : Surroundings) (now : string) : string :=
  prompt_head +:+ Registry.getCapabilitySummary (plugins c) +:+ prompt_body
    +:+ now +:+ prompt_tail.

(** [config.memory.maxContextMessages] *)
Definition maxContextMessages : nat := 20.

(** [a.slice(-n)] *)
Definition slice_last {A} (n : nat) (a : list A) : list A :=
  drop (length a - n) a.

(** What [buildContext] returns: the array of messages, the definitions of
    the tools, and the input's context. *)
Record FullContext := {
  fc_messages : list loc;
  fc_tools : list ToolDefinition;
  fc_context : Input
}.

Definition memory_message (memories : list Memo) : string :=
  "Relevant context from previous interactions:" +:+ nl
    +:+ join nl (map (fun m => "[Memory] " +:+ memo_content m) memories).

(** The message of the memories, when there are any. *)
Definition recalled_message (memories : list Memo) : Act (list loc) :=
  match memories with
  | [] => pure []
  | _ :: _ =>
      next (new_message {| role := "system"; content := memory_message memories;
                           tool_calls := None; tool_call_id := None;
                           attachments := None |})
        (fun l => pure [l])
  end.

(** [messages[messages.length - 1]?.content] *)
Definition last_content (j : Self) (messages : list loc) : option string :=
  (last messages ≫= fun l => objects j !! l) ≫= fun m => Some (content m).

(** The input is added unless the last message has its content. *)
Definition with_input (input : string) (messages : list loc) : Act (list loc) :=
  next this (fun j =>
  if decide (last_content j messages = Some input) then pure messages
  else next (new_message {| role := "user"; content := input; tool_calls := None;
                            tool_call_id := None; attachments := None |})
         (fun l => pure (messages ++ [l]))).

(** The attachments of the context are written to the last message. *)
Definition with_attachments (context : Input) (messages : list loc) : Act unit :=
  match given_attachments context, last messages with
  | Some given, Some l => update (write_attachments l given)
  | _, _ => pure tt
  end.

(** [buildContext(input, memories, context)] *)
Definition buildContext (c : Surroundings) (input : string) (memories : list Memo)
    (context : Input) : Act FullContext :=
  next (reading (clock c)) (fun now =>
  next (new_message {| role := "system"; content := getSystemPrompt c now;
                       tool_calls := None; tool_call_id := None; attachments := None |})
    (fun system =>
  next (recalled_message memories) (fun recalled =>
  next this (fun j =>
  next (with_input input
          (system :: recalled ++ slice_last maxContextMessages (currentContext j)))
    (fun messages =>
  next (with_attachments context messages) (fun _ =>
  pure {| fc_messages := messages;
          fc_tools := Registry.getToolDefinitions (plugins c);
          fc_context := context |})))))).

(** The array of messages as the planner and the gateway get it.  They
    read the messages and write to none, so they are given the values, in
    a new array of the heap. *)
Definition hand_over (messages : list loc) : Act loc :=
  fun j s =>
    let l := fresh (dom (heap s)) in
    Build_Ran [] [] j
      {| world := world s;
         heap := <[l := omap (fun m => objects j !! m) messages]> (heap s) |}
      (Return l).

(** The response is generated: by the planner when the input has a
    trigger, by the gateway, which is given no task type, when it has
    none. *)
Definition generate (c : Surroundings) (input : string) (fullContext : FullContext)
    (messages : loc) : Act string :=
  let needsTools := shouldUseTools input in
  if needsTools then
    next (update (set_status "executing")) (fun _ =>
    next (emitting c Executing) (fun _ =>
    forward
      (TaskPlanner.execute (list_to_map (Registry.tools (plugins c)))
         {| TaskPlanner.cx_messages := messages;
            TaskPlanner.cx_tools := Some (fc_tools fullContext);
            TaskPlanner.cx_taskType := taskType (fc_context fullContext) |})))
  else
    forward
      (AIGateway.stream
         {| rq_messages := messages;
            rq_tools := Some (fc_tools fullContext);
            rq_taskType := None |} None).

(** [await this.memory.store({input, response, context, sessionId})] *)
Definition storing (c : Surroundings) (input response : string) (context : Input)
    : Act unit :=
  next this (fun j =>
  calling (fun w =>
             let '(thrown, w') := store c input response context (sessionId j) w in
             (match thrown with Some e => inl e | None => inr tt end, w'))).

(** [if (context.source === 'voice' && this.voice) { ... }] *)
Definition speaking (c : Surroundings) (context : Input) (response : string) : Act unit :=
  if bool_decide (source context = Some "voice") && voice c then
    next (update (set_status "speaking")) (fun _ => emitting c (Speaking response))
  else pure tt.

(** What follows the response: the history, the memory, the listeners. *)
Definition conclude (c : Surroundings) (input : string) (context : Input)
    (response : string) : Act unit :=
  next (remember "assistant" response) (fun _ =>
  next (storing c input response context) (fun _ =>
  next (speaking c context response) (fun _ =>
  next (update (set_status "ready")) (fun _ =>
  emitting c (Complete response))))).

(** The [try] block of [process]. *)
Definition answer (c : Surroundings) (input : string) (context : Input) : Act unit :=
  next (remember "user" input) (fun _ =>
  next (calling (recall c input)) (fun memories =>
  next (buildContext c input memories context) (fun fullContext =>
  next (hand_over (fc_messages fullContext)) (fun messages =>
  next (generate c input fullContext messages) (fun response =>
  conclude c input context response))))).

(** [async *process(input, context = {})] *)
Definition process (c : Surroundings) (input : string) (context : Input) : Act unit :=
  next (update count_message) (fun _ =>
  next (update (set_status "thinking")) (fun _ =>
  next (emitting c (Thinking input)) (fun _ =>
  catch (answer c input context)
    (fun error =>
       next (update (set_status "error")) (fun _ =>
       next (emitting c (Failed error)) (fun _ =>
       pass (ErrorChunk ("I encountered an error: " +:+ message error)))))))).

End Jarvis.

Arguments passed {_ A} r.
Arguments made {_ A} r.
Arguments self {_ A} r.
Arguments left {_ A} r.
Arguments ended {_ A} r.
Arguments Build_Ran {_ A} passed made self left ended.
End Jarvis.

(** ** Wire chunks of the usual shapes *)

Module Wire.
(** A wire chunk with a piece of text. *)
Definition text_chunk (text : string) : WireChunk :=
  {| wc_choice := Some {|
       ch_delta := Some {| d_content := Some text; d_tool_calls := None |};
       ch_finish_reason := None |} |}.

(** A wire chunk with one fragment of a tool call. *)
Definition fragment_chunk (d : ToolCallDelta) : WireChunk :=
  {| wc_choice := Some {|
       ch_delta := Some {| d_content := None; d_tool_calls := Some [d] |};
       ch_finish_reason := None |} |}.

(** The wire chunk that ends a turn. *)
Definition finish_chunk (reason : string) : WireChunk :=
  {| wc_choice := Some {|
       ch_delta := Some {| d_content := None; d_tool_calls := None |};
       ch_finish_reason := Some reason |} |}.

(** A fragment of the tool call at [index]. *)
Definition fragment (index : nat) (id name : option string) (text : string)
    : ToolCallDelta :=
  {| tcd_index := Some index; tcd_id := id;
     tcd_function := Some {| fd_name := name; fd_arguments := Some text |} |}.
End Wire.

(** ** A concrete environment

    An environment to run the definitions in: the client plays a script, one
    response per call, and the JSON built-ins are given on the texts and
    values the scenarios below use, where they agree with the built-ins of
    JavaScript. *)

Module Scenario.
Import Wire.

Definition dq : string := String (Ascii.ascii_of_nat 34) EmptyString.

(** The text [{"a":1}]. *)
Definition a_is_1 : string := "{" +:+ dq +:+ "a" +:+ dq +:+ ":1}".

Definition parse_known (text : string) : Json + string :=
  if decide (text = "{}") then inl (JObject [])
  else if decide (text = a_is_1) then inl (JObject [("a", JNumber 1)])
  else inr "Unexpected end of JSON input".

Definition stringify_known (v : Json) : string :=
  match v with
  | JNull => "null"
  | JBool true => "true"
  | JBool false => "false"
  | JArray [] => "[]"
  | _ => "{}"
  end.

Definition scripted_client (params : Params) (script : list Response)
    : Response * list Response :=
  match script with
  | response :: rest => (response, rest)
  | [] => ({| rs_chunks := []; rs_failure := Some "Connection error." |}, [])
  end.

#[export] Instance runtime : Runtime := {|
  World := list Response;
  JSON_parse := parse_known;
  JSON_stringify := stringify_known;
  JSON_stringify_indent := stringify_known;
  client_create := scripted_client;
  env_DEFAULT_MODEL := None
|}.

(** A turn that requests the tool [name] with the argument text [text]. *)
Definition tool_turn (id name text : string) : Response :=
  {| rs_chunks := [fragment_chunk (fragment 0 (Some id) (Some name) text);
                   finish_chunk "tool_calls"];
     rs_failure := None |}.

(** A turn that answers [text]. *)
Definition text_turn (text : string) : Response :=
  {| rs_chunks := [text_chunk text; finish_chunk "stop"]; rs_failure := None |}.

(** A call that fails at once. *)
Definition failed_turn : Response :=
  {| rs_chunks := []; rs_failure := Some "Connection error." |}.

(** The caller's array of messages, at location 1. *)
Definition user_message : Message :=
  {| role := "user"; content := "What time is it?"; tool_calls := None;
     tool_call_id := None; attachments := None |}.

Definition start (script : list Response) : State :=
  {| world := script; heap := {[ 1%positive := [user_message] ]} |}.

Definition context : TaskPlanner.Context :=
  {| TaskPlanner.cx_messages := 1%positive;
     TaskPlanner.cx_tools := None;
     TaskPlanner.cx_taskType := None |}.

Definition request : Request :=
  {| rq_messages := 1%positive; rq_tools := None; rq_taskType := None |}.

Definition no_parameters : Json :=
  JObject [("type", JString "object"); ("properties", JObject [])].

(** A tool that always fails. *)
Definition X : PluginManager.Tool :=
  {| PluginManager.definition :=
       {| name := "X"; description := "Always fails"; parameters := no_parameters |};
     PluginManager.tool_execute := fun _ w => (inl (Error "X is out of order"), w);
     PluginManager.plugin := None |}.

(** A tool that returns a string of 500 characters. *)
Definition long_text : string :=
  Eval vm_compute in String.concat "" (replicate 500 "a").

Definition verbose : PluginManager.Tool :=
  {| PluginManager.definition :=
       {| name := "verbose"; description := "Says a lot"; parameters := no_parameters |};
     PluginManager.tool_execute := fun _ w => (inr (Some (JString long_text)), w);
     PluginManager.plugin := None |}.

Definition tools : gmap string PluginManager.Tool :=
  {[ "X" := X; "verbose" := verbose ]}.
End Scenario.

(** ** A host and a plugin for the registry *)

Module Setting.
Import Registry.
#[local] Existing Instance Scenario.runtime.

Definition answering (text : string) (args : Json) (w : World)
    : (Exn + option Json) * World :=
  (inr (Some (JString text)), w).

(** A host that evaluates [2 + 2] and nothing else. *)
Definition host : Host :=
  {| get_current_time := answering "Sunday, November 1, 2026 at 09:00:00 AM UTC";
     open_app := answering "Opened Notes";
     run_command := answering "Command completed";
     web_search := answering "Searching for: rocq";
     evaluate := fun text =>
       if decide (text = "2 + 2") then inr "4"
       else inl (SyntaxError "Unexpected end of input");
     number_text := fun n => NilZero.string_of_int (Z.to_int n) |}.

(** A plugin with the names of two tools of the web plugin. *)
Definition web_search_tool : ToolObject :=
  {| to_definition :=
       {| name := "web_search";
          description := "Search the web and return summarized results. Use this to find current information.";
          parameters := Scenario.no_parameters |};
     to_execute := answering "1. Rocq" |}.

Definition browse_webpage_tool : ToolObject :=
  {| to_definition :=
       {| name := "browse_webpage";
          description := "Visit a webpage and extract its content";
          parameters := Scenario.no_parameters |};
     to_execute := answering "<html>" |}.

Definition web : Plugin :=
  {| pl_tools := Listed [Tool web_search_tool; Tool browse_webpage_tool] |}.

Definition imported (pluginName : string) : option Plugin :=
  if decide (pluginName = "web") then Some web else None.

(** The manager after [initialize], the web plugin loaded. *)
Definition registry : Registry := initialize host true imported created.

(** A tool that returns nothing. *)
Definition silent : PluginManager.Tool :=
  {| PluginManager.definition :=
       {| name := "silent"; description := "Says nothing";
          parameters := Scenario.no_parameters |};
     PluginManager.tool_execute := fun _ w => (inr None, w);
     PluginManager.plugin := None |}.

Definition lazy_tools : gmap string PluginManager.Tool :=
  {[ "silent" := silent ]}.

(** An evaluator that answers [?] to what is not arithmetic. *)
Definition wary (text : string) : Exn + string :=
  if forallb Calculator.kept (characters text) then evaluate host text
  else inr "?".

(** The scenarios' runtime with a model named in the environment. *)
Definition preferring (model : string) : Runtime :=
  {| World := list Response;
     JSON_parse := Scenario.parse_known;
     JSON_stringify := Scenario.stringify_known;
     JSON_stringify_indent := Scenario.stringify_known;
     client_create := Scenario.scripted_client;
     env_DEFAULT_MODEL := Some model |}.

(** An assistant with an empty memory and an emitter whose [emit] returns. *)
Definition surroundings : Jarvis.Surroundings :=
  {| Jarvis.plugins := registry;
     Jarvis.recall := fun _ w => (inr [], w);
     Jarvis.store := fun _ _ _ _ w => (None, w);
     Jarvis.emit := fun _ w => (None, w);
     Jarvis.clock := fun _ => "11/1/2026, 9:00:00 AM";
     Jarvis.voice := false |}.



Definition assistant : Jarvis.Self :=
  {| Jarvis.objects := ∅;
     Jarvis.currentContext := [];
     Jarvis.status := "ready";
     Jarvis.messageCount := 0;
     Jarvis.sessionId := "session_1" |}.

Definition typed : Jarvis.Input :=
  {| Jarvis.source := Some "text"; Jarvis.given_attachments := None;
     Jarvis.taskType := Some "coding" |}.

Definition picture : Attachment :=
  {| att_url := None; att_type := "image/png"; att_data := "iVBORw0KGgo=" |}.

Definition with_picture : Jarvis.Input :=
  {| Jarvis.source := Some "text"; Jarvis.given_attachments := Some [picture];
     Jarvis.taskType := None |}.

(** A tool message, tied to its call. *)
Definition tool_answer : Message :=
  {| role := "tool"; content := "12:00"; tool_calls := None;
     tool_call_id := Some "call_1"; attachments := None |}.
End Setting.

(** * The vocabulary of the properties *)

Section Vocabulary.
Context `{Runtime}.
Import AIGateway TaskPlanner.

(** ** Two-state properties of runs *)

(** A relation between the state before a run, the calls made and the state
    after. *)
Definition Step : Type := State -> list Event -> State -> Prop.

(** Such a relation is sequential when it holds of doing nothing and of
    doing one thing after another. *)
Class Sequential (R : Step) : Prop := {
  step_refl : forall s, R s [] s;
  step_trans : forall s1 e1 s2 e2 s3, R s1 e1 s2 -> R s2 e2 s3 -> R s1 (e1 ++ e2) s3
}.

Definition respects {A} (R : Step) (m : Gen A) : Prop :=
  forall s, R s (events (m s)) (final (m s)).

(** The arrays are left as they are. *)
Definition heap_kept : Step :=
  fun s _ s' => heap s' = heap s.

(** No array but [l] is written, no array is dropped, and [l], once there,
    stays. *)
Definition writes_only (l : loc) : Step :=
  fun s _ s' =>
    (forall l', l' <> l -> heap s' !! l' = heap s !! l') /\
    (is_Some (heap s !! l) -> is_Some (heap s' !! l)).

(** Neither the state nor the outside is touched. *)
Definition inert : Step :=
  fun s evs s' => s' = s /\ evs = [].

(** ** What a generator yields and throws *)

(** Every chunk a generator yields satisfies [Y] and every error it throws
    satisfies [E]. *)
Definition produces {A} (Y : StreamChunk -> Prop) (E : Exn -> Prop) (m : Gen A) : Prop :=
  forall s, Forall Y (yielded (m s)) /\ forall e, completion (m s) = Throw e -> E e.

(** The chunks of the gateway. *)
Definition gateway_chunk (c : StreamChunk) : Prop :=
  is_content c || is_tool_call c || is_done c = true.

(** A [SyntaxError] is the error of parsing the argument text of a named
    accumulator. *)
Definition of_malformed_arguments (e : Exn) : Prop :=
  match e with
  | SyntaxError msg =>
      exists a, truthy (acc_name a) = true /\
                JSON_parse (or_else (acc_arguments a) "{}") = inr msg
  | _ => True
  end.

(** ** The gateway *)

(** The parameters [stream] hands to the client for [model]. *)
Definition params_for (request : Request) (msgs : list Message) (model : string) : Params :=
  build_params model (formatMessages msgs) (rq_tools request).

(** The array once the entry of a fragment's index is there and named. *)
Definition filed (toolCalls : list (option Accumulator)) (index : nat)
    (id name : option string) : list (option Accumulator) :=
  let toolCalls :=
    match array_get toolCalls index with
    | Some _ => toolCalls
    | None =>
        array_set index {| acc_id := id; acc_name := ""; acc_arguments := "" |} toolCalls
    end in
  match name with
  | Some n => if truthy n then array_modify (set_name n) index toolCalls else toolCalls
  | None => toolCalls
  end.

(** The argument text the deltas bring for the tool call at [index], in
    their order, whatever they bring for other indices in between. *)
Definition arguments_for (index : nat) (deltas : list ToolCallDelta) : string :=
  foldr String.append ""
    (map (fun d => default "" (tcd_function d ≫= fd_arguments))
       (List.filter (fun d => bool_decide (tcd_index d = Some index)) deltas)).

(** The argument text accumulated at [index], nothing where no entry is. *)
Definition arguments_at (toolCalls : list (option Accumulator)) (index : nat) : string :=
  from_option acc_arguments "" (array_get toolCalls index).

(** ** The registry and the planner *)

(** What [PluginManager.execute] comes to in a world: what it returns or
    throws, and the world it leaves. *)
Definition invoke (plugins : gmap string PluginManager.Tool) (toolName : string)
    (args : Json) (w : World) : (Exn + option Json) * World :=
  match plugins !! toolName with
  | None => (inl (Error ("Unknown tool: " +:+ toolName)), w)
  | Some tool => PluginManager.tool_execute tool args w
  end.

Definition completion_of {A} (outcome : Exn + A) : Completion A :=
  match outcome with
  | inl e => Throw e
  | inr a => Return a
  end.

(** A requested call as the planner takes it: failed, by the error the
    registry throws or by the error of rendering a result that is
    [undefined], or done, with its result. *)
Definition taken (outcome : Exn + option Json) : Exn + Json :=
  match outcome with
  | inl e => inl e
  | inr None => inl (TypeError "Cannot read properties of undefined (reading 'length')")
  | inr (Some result) => inr result
  end.

(** The rendering [formatResult] returns for a result that is there. *)
Definition shown (result : Json) : string :=
  match result with
  | JString text => truncate text
  | v => truncate (JSON_stringify_indent v)
  end.

(** The chunk that reports the outcome of a call, and the text of its
    tool message. *)
Definition report_chunk (tc : ToolCallRequest) (outcome : Exn + option Json) : StreamChunk :=
  match taken outcome with
  | inl e => ToolErrorChunk (tc_tool tc) ("> Error: " +:+ message e +:+ nl)
  | inr result => ToolResult (tc_tool tc) ("> Result: " +:+ shown result +:+ nl)
  end.

Definition report_text (outcome : Exn + option Json) : string :=
  match taken outcome with
  | inl e => "Error: " +:+ message e
  | inr result => serialize (Some result)
  end.

Definition tool_start (tc : ToolCallRequest) : StreamChunk :=
  ToolStart (tc_tool tc) (nl +:+ "> Running `" +:+ tc_tool tc +:+ "`..." +:+ nl).

(** The reports of the requested calls, made one after the other: the
    chunks, the tool messages, and the world left. *)
Fixpoint tool_reports (plugins : gmap string PluginManager.Tool)
    (toolCalls : list ToolCallRequest) (w : World)
    : list StreamChunk * list Message * World :=
  match toolCalls with
  | [] => ([], [], w)
  | tc :: rest =>
      let called := invoke plugins (tc_tool tc) (tc_arguments tc) w in
      let '(chunks, msgs, w') := tool_reports plugins rest called.2 in
      (tool_start tc :: report_chunk tc called.1 :: chunks,
       tool_message tc (report_text called.1) :: msgs,
       w')
  end.

Definition invocation (tc : ToolCallRequest) : Event :=
  ToolInvocation (tc_tool tc) (tc_arguments tc).

(** The tool calls among the chunks of a stream. *)
Definition requests_of (chunks : list StreamChunk) : list ToolCallRequest :=
  omap (fun chunk => match chunk with ToolCall tc => Some tc | _ => None end) chunks.

Definition text_of (chunks : list StreamChunk) : string :=
  foldr String.append "" (map AIGateway.content_of (List.filter is_content chunks)).

Definition request_of (context : Context) (messages : loc) : Request :=
  {| rq_messages := messages;
     rq_tools := cx_tools context;
     rq_taskType := cx_taskType context |}.

(** The messages given to the gateway, call by call. *)
Definition gateway_inputs (evs : list Event) : list (list Message) :=
  omap (fun ev => match ev with GatewayCall ms => Some ms | _ => None end) evs.

(** The tools invoked, call by call. *)
Definition tools_invoked (evs : list Event) : list string :=
  omap (fun ev => match ev with ToolInvocation tool _ => Some tool | _ => None end) evs.

(** An assistant message that carries tool calls, and one tool message for
    each of these calls, in their order and under their ids. *)
Definition paired (assistant : Message) (tool_messages : list Message) : Prop :=
  role assistant = "assistant" /\
  exists refs,
    tool_calls assistant = Some refs /\ refs <> [] /\
    map tool_call_id tool_messages = map ref_id refs /\
    Forall (fun m => role m = "tool") tool_messages.

(** The role sequencing of the specification, on two consecutive inputs of
    the gateway: the later one is the earlier one, then an assistant message
    with its tool messages, and nothing else. *)
Definition tool_round (earlier later : list Message) : Prop :=
  exists assistant tool_messages,
    later = earlier ++ assistant :: tool_messages /\ paired assistant tool_messages.

(** [R] holds of every two neighbours of [l]. *)
Fixpoint chained {A} (R : A -> A -> Prop) (l : list A) : Prop :=
  match l with
  | a :: (b :: _) as rest => R a b /\ chained R rest
  | _ => True
  end.

(** The array [execute] works on, and the state in which its loop starts. *)
Definition private_copy (s : State) : loc := fresh (dom (heap s)).

Definition entered (s : State) (ms : list Message) : State :=
  {| world := world s; heap := <[private_copy s := ms]> (heap s) |}.
End Vocabulary.

(** ** The registry's tables *)

Section RegistryVocabulary.
Context `{Runtime}.
Import Registry.

(** What can be done to a plugin manager; after a call of [register] that
    throws, the manager is as the call left it. *)
Inductive Operation :=
| Register (pluginName : string) (plugin : Plugin)
| RegisterBuiltInTools
| Initialize (directory : bool) (imported : string -> option Plugin)
| UnloadAll.

Definition perform (host : Host) (r : Registry) (op : Operation) : Registry :=
  match op with
  | Register pluginName plugin => (register pluginName plugin r).2
  | RegisterBuiltInTools => registerBuiltInTools host r
  | Initialize directory imported => initialize host directory imported r
  | UnloadAll => unloadAll r
  end.

(** The manager after a history of operations on a new one. *)
Definition after (host : Host) (ops : list Operation) : Registry :=
  foldl (perform host) created ops.

(** The names the registry announces to the model. *)
Definition announced (r : Registry) : list string :=
  map name (getToolDefinitions r).

(** The line of a tool in the capability summary. *)
Definition capability (d : ToolDefinition) : string :=
  "- " +:+ name d +:+ ": " +:+ description d.

(** The entries of a table have different keys, and each tool is filed
    under the name of its definition. *)
Definition filed_by_name (tools : list (string * PluginManager.Tool)) : Prop :=
  NoDup (JsMap.keys tools) /\
  Forall (fun entry => name (PluginManager.definition entry.2) = entry.1) tools.

(** The letters of the Latin alphabet, the underscore, the dollar sign:
    what an identifier can start with; and the quotation marks and the
    backslash. *)
Definition names_something (c : Ascii.ascii) : bool :=
  let n := Ascii.nat_of_ascii c in
  ((65 <=? n) && (n <=? 90)) || ((97 <=? n) && (n <=? 122))
  || bool_decide (n ∈ [95; 36; 34; 39; 96; 92]).

(** The tools a loop over the entries sets: those before the first entry
    that is no tool object. *)
Fixpoint leading (entries : list Entry) : list ToolObject :=
  match entries with
  | Tool tool :: rest => tool :: leading rest
  | _ => []
  end.

(** Whether [register] returns on a plugin: its [tools] is missing or
    falsy, or an array of tool objects. *)
Definition well_listed (plugin : Plugin) : bool :=
  match pl_tools plugin with
  | NoTools => true
  | NotIterable => false
  | Listed entries =>
      forallb (fun entry => match entry with Tool _ => true | _ => false end) entries
  end.

(** The calls of [register] that returned since the manager was made or
    last unloaded, those made by [initialize] among them. *)
Definition registrations (ops : list Operation) : nat :=
  foldl (fun n op =>
           match op with
           | Register _ plugin => if well_listed plugin then S n else n
           | RegisterBuiltInTools => n
           | Initialize directory imported =>
               if directory
               then n + length (List.filter well_listed (omap imported enabled))
               else n
           | UnloadAll => 0
           end) 0 ops.

(** The values whose conversion to text returns: no object with a property
    [toString] of its own, neither the value nor, through arrays, an
    element of it; [undefined] is one of them. *)
Fixpoint convertible (v : Json) : bool :=
  match v with
  | JArray items => forallb convertible items
  | JObject fields => negb (bool_decide (is_Some (JsMap.get "toString" fields)))
  | _ => true
  end.

(** [expression] after [{ expression }] on arguments that are not [null]. *)
Definition expression_of (args : Json) : option Json :=
  match args with
  | JObject fields => JsMap.get "expression" fields
  | _ => None
  end.
End RegistryVocabulary.

(** ** The gateway's turns *)

Section GatewayVocabulary.
Context `{Runtime}.
Import AIGateway.

(** The texts of the wire chunks that carry one, in their order. *)
Definition texts (chunks : list WireChunk) : list string :=
  List.filter truthy (omap (fun chunk => (wc_choice chunk ≫= ch_delta) ≫= d_content) chunks).

(** The wire chunk ends a turn of tool calls. *)
Definition ends_tool_calls (chunk : WireChunk) : Prop :=
  wc_choice chunk ≫= ch_finish_reason = Some "tool_calls".

(** The deltas that are for the tool call at [index]. *)
Definition addressed (index : nat) (deltas : list ToolCallDelta) : list ToolCallDelta :=
  List.filter (fun d => bool_decide (tcd_index d = Some index)) deltas.

(** The names the deltas bring, the empty ones left out. *)
Definition names_of (deltas : list ToolCallDelta) : list string :=
  List.filter truthy (omap (fun d => tcd_function d ≫= fd_name) deltas).

(** A message without the fields that tie tool results to tool calls. *)
Definition bare (m : Message) : Message :=
  {| role := role m; content := content m; tool_calls := None;
     tool_call_id := None; attachments := attachments m |}.

(** What a run shows to its caller and to the outside. *)
Definition observed {A} (o : Out A)
    : list StreamChunk * list Event * Completion A * World :=
  (yielded o, events o, completion o, world (final o)).
End GatewayVocabulary.

(** ** The planner's chunks and calls *)

Section PlannerVocabulary.
Context `{Runtime}.
Import AIGateway TaskPlanner.

(** The chunks of the planner: the content chunks it forwards, its own
    [done] chunk, which names no model, and its reports. *)
Definition planner_chunk (c : StreamChunk) : Prop :=
  match c with
  | ToolCall _ | Done (Some _) => False
  | _ => True
  end.

Definition any_error (e : Exn) : Prop := True.

(** The tools of a request as [stream] sends them: none for an empty
    list. *)
Definition sent_tools (tools : option (list ToolDefinition)) : option (list ToolDefinition) :=
  match tools with
  | Some (t :: rest) => Some (t :: rest)
  | _ => None
  end.

(** A call of the client made for [context]: the tools of the context,
    the choice left to the model when there are tools, and the model of the
    task type or the fallback model. *)
Definition call_for (context : Context) (ev : Event) : Prop :=
  match ev with
  | ClientCall params =>
      p_tools params = sent_tools (cx_tools context)
      /\ p_tool_choice params = (sent_tools (cx_tools context) ≫= fun _ => Some "auto")
      /\ (p_model params = selectModel (cx_taskType context)
          \/ p_model params = config.fastModel)
  | _ => True
  end.

(** Every call of a run satisfies [P]. *)
Definition calls (P : Event -> Prop) : Step :=
  fun _ evs _ => Forall P evs.

(** The reference an assistant message keeps of a requested call: its
    arguments are written out again from the parsed value. *)
Definition reference (tc : ToolCallRequest) : ToolCallRef :=
  {| ref_id := tc_id tc;
     ref_type := "function";
     ref_function :=
       {| fc_name := tc_tool tc; fc_arguments := JSON_stringify (tc_arguments tc) |} |}.
End PlannerVocabulary.

(** ** The assistant's runs *)

Section AssistantVocabulary.
Context `{Runtime}.
Import Jarvis.

(** A text with its letters [a] to [z] in capitals. *)
Fixpoint capitals (text : string) : string :=
  match text with
  | EmptyString => EmptyString
  | String c rest => String (canonical c) (capitals rest)
  end.


(** The messages behind the references of an array. *)
Definition messages_at (j : Self) (refs : list loc) : list (option Message) :=
  map (fun l => objects j !! l) refs.

(** A message as [process] makes it. *)
Definition plain_message (role content : string) : Message :=
  {| role := role; content := content; tool_calls := None; tool_call_id := None;
     attachments := None |}.



(** A call of the client for the model of requests without a task type,
    or for the fallback model. *)
Definition general_call (ev : Event) : Prop :=
  match ev with
  | ClientCall params =>
      p_model params = AIGateway.selectModel None \/ p_model params = config.fastModel
  | _ => True
  end.

(** The objects there before are there after, as they were. *)
Definition objects_kept (j j' : Self) : Prop :=
  forall l m, objects j !! l = Some m -> objects j' !! l = Some m.
End AssistantVocabulary.

(** ** What a run of the assistant passes, calls and keeps *)

Section AssistantTraces.
Context `{Runtime}.
Import Jarvis.

(** A relation between the assistant before a run, the chunks passed, the
    calls made and the assistant after. *)
Definition Trace : Type := Self -> list Chunk -> list Event -> Self -> Prop.

Class Composable (R : Trace) : Prop := {
  trace_refl : forall j, R j [] [] j;
  trace_trans : forall j1 p1 e1 j2 p2 e2 j3,
    R j1 p1 e1 j2 -> R j2 p2 e2 j3 -> R j1 (p1 ++ p2) (e1 ++ e2) j3
}.

Definition observes {A} (R : Trace) (m : Act A) : Prop :=
  forall j s, R j (passed (m j s)) (made (m j s)) (self (m j s)).

(** No chunk of its own is passed. *)
Definition forwarding : Trace :=
  fun _ chunks _ _ => exists forwarded, chunks = map Forwarded forwarded.

(** Every call satisfies [P]. *)
Definition calling_only (P : Event -> Prop) : Trace :=
  fun _ _ evs _ => Forall P evs.

(** The history grows at its end and its messages stay as they are. *)
Definition growing : Trace :=
  fun j _ _ j' =>
    objects_kept j j' /\ currentContext j `prefix_of` currentContext j'.

(** Nothing is passed, and the history and its messages stay. *)
Definition settling : Trace :=
  fun j chunks _ j' =>
    chunks = [] /\ objects_kept j j' /\ currentContext j' = currentContext j.

(** A call of the client for the general model, and no other call. *)
Definition direct_call (ev : Event) : Prop :=
  is_ClientCall ev = true /\ general_call ev.
End AssistantTraces.

(** ** The turns of a run, and a turn whose argument text does not parse *)

Section TurnVocabulary.
Context `{Runtime}.
Import AIGateway TaskPlanner.

(** The fragments of tool calls a wire chunk brings. *)
Definition deltas_of (chunk : WireChunk) : list ToolCallDelta :=
  default [] ((wc_choice chunk ≫= ch_delta) ≫= d_tool_calls).

(** The accumulators after the chunks of a response. *)
Definition accumulated (toolCalls : list (option Accumulator)) (chunks : list WireChunk)
    : list (option Accumulator) :=
  foldl (fun toolCalls chunk => foldl accumulate toolCalls (deltas_of chunk)) toolCalls chunks.

(** An accumulator that gives a tool-call chunk: it has no name, and is
    passed over, or its argument text parses. *)
Definition parses (a : Accumulator) : Prop :=
  truthy (acc_name a) = true ->
  exists arguments, JSON_parse (or_else (acc_arguments a) "{}") = inl arguments.

(** An accumulator with a name whose argument text [JSON.parse] refuses,
    with the message [msg]. *)
Definition malformed (a : Accumulator) (msg : string) : Prop :=
  truthy (acc_name a) = true /\ JSON_parse (or_else (acc_arguments a) "{}") = inr msg.

(** The wire chunks the loop of the gateway passes, from the accumulators
    [toolCalls] on: where one of them ends a round of tool calls, every
    accumulator is there and gives its tool-call chunk. *)
Fixpoint passes (toolCalls : list (option Accumulator)) (chunks : list WireChunk) : Prop :=
  match chunks with
  | [] => True
  | chunk :: rest =>
      (ends_tool_calls chunk ->
       Forall (from_option parses False) (accumulated toolCalls [chunk]))
      /\ passes (accumulated toolCalls [chunk]) rest
  end.

(** A response with a turn of tool calls whose accumulated argument text
    fails to parse: the loop of the gateway comes to a wire chunk that ends
    a round of tool calls, and there the first accumulator that gives no
    tool-call chunk is one whose argument text does not parse, with the
    message [msg]. *)
Definition malformed_turn (response : Response) (msg : string) : Prop :=
  exists before chunk after well a rest,
    rs_chunks response = before ++ chunk :: after
    /\ passes [] before
    /\ ends_tool_calls chunk
    /\ accumulated [] (before ++ [chunk]) = map Some well ++ Some a :: rest
    /\ Forall parses well
    /\ malformed a msg.

(** The turns of a run: the loop of [execute] on the array [messages], at
    [iterations] in the state [s], comes to be at [iterations'] in [s']
    when every turn in between returned requests for tools, which were
    then run. *)
Inductive reaches (plugins : gmap string PluginManager.Tool) (context : Context)
    (messages : loc) : nat -> State -> nat -> State -> Prop :=
| reaches_here iterations s : reaches plugins context messages iterations s iterations s
| reaches_next iterations s responseText tc toolCalls iterations' s' :
    iterations < maxIterations ->
    completion (model_turn context messages s) = Return (responseText, tc :: toolCalls) ->
    reaches plugins context messages (S iterations)
      (final (run_tools plugins messages responseText (tc :: toolCalls)
                (final (model_turn context messages s))))
      iterations' s' ->
    reaches plugins context messages iterations s iterations' s'.

(** The run of [execute] from [s0] ends in the turn it has come to, at
    [iterations] in [s], with the error [e]: the turn forwards the content
    chunks among [chunks] and invokes no tool, and [execute] throws [e]
    and has yielded no [done] chunk. *)
Definition aborts (plugins : gmap string PluginManager.Tool) (context : Context)
    (s0 : State) (iterations : nat) (s : State) (chunks : list StreamChunk) (e : Exn)
    : Prop :=
  let turn := loop plugins context (private_copy s0) iterations s in
  completion turn = Throw e
  /\ yielded turn = List.filter is_content chunks
  /\ tools_invoked (events turn) = []
  /\ completion (execute plugins context s0) = Throw e
  /\ List.filter is_done (yielded (execute plugins context s0)) = [].
End TurnVocabulary.

(** * Properties *)

(** ** Two-state properties of runs *)

Section Frames.
Context `{Runtime} (F : Step) `{!Sequential F}.

Lemma respects_ret {A} (a : A) : respects F (ret a).
Proof. intros s. apply step_refl. Qed.

Lemma respects_yield c : respects F (yield c).
Proof. intros s. apply step_refl. Qed.

Lemma respects_throw {A} e : respects F (@throw _ A e).
Proof. intros s. apply step_refl. Qed.

Lemma respects_bind {A B} (m : Gen A) (k : A -> Gen B) :
  respects F m -> (forall a, respects F (k a)) -> respects F (bind m k).
Proof.
  intros Hm Hk s. unfold bind. specialize (Hm s).
  destruct (completion (m s)) as [a|e]; simpl; [|assumption].
  eapply step_trans; [exact Hm|apply Hk].
Qed.

Lemma respects_try_catch {A} (m : Gen A) (handler : Exn -> Gen A) :
  respects F m -> (forall e, respects F (handler e)) -> respects F (try_catch m handler).
Proof.
  intros Hm Hh s. unfold try_catch. specialize (Hm s).
  destruct (completion (m s)) as [a|e]; simpl; [assumption|].
  eapply step_trans; [exact Hm|apply Hh].
Qed.

Lemma respects_for_of {A} (l : list A) (body : A -> Gen unit) :
  (forall x, respects F (body x)) -> respects F (for_of l body).
Proof.
  intros Hb. induction l as [|x l IH]; simpl.
  - apply respects_ret.
  - apply respects_bind; [apply Hb|intros _; exact IH].
Qed.

Lemma respects_for_of_acc {A S} (l : list A) (acc : S) (body : S -> A -> Gen S) :
  (forall acc x, respects F (body acc x)) -> respects F (for_of_acc l acc body).
Proof.
  intros Hb. revert acc. induction l as [|x l IH]; intros acc; simpl.
  - apply respects_ret.
  - apply respects_bind; [apply Hb|intros acc'; apply IH].
Qed.

Lemma respects_for_await {S} (gen : Gen unit) (acc : S) (body : S -> StreamChunk -> Gen S) :
  respects F gen -> (forall acc c, respects F (body acc c)) ->
  respects F (for_await gen acc body).
Proof.
  intros Hg Hb s. unfold for_await. simpl.
  eapply step_trans; [apply Hg|].
  apply respects_for_of_acc. exact Hb.
Qed.
End Frames.

(** Applies a rule of sequencing, its relation known to be sequential. *)
Ltac sequence rule := apply rule; [typeclasses eauto|..].

Create HintDb frames.
#[global] Hint Extern 1 (Sequential _) => typeclasses eauto : frames.
#[global] Hint Resolve respects_ret respects_yield respects_throw : frames.
#[global] Hint Extern 2 (respects _ (bind _ _)) =>
  sequence respects_bind; [|intros ?] : frames.
#[global] Hint Extern 2 (respects _ (try_catch _ _)) =>
  sequence respects_try_catch; [|intros ?] : frames.
#[global] Hint Extern 2 (respects _ (for_of _ _)) =>
  sequence respects_for_of; intros ? : frames.
#[global] Hint Extern 2 (respects _ (for_of_acc _ _ _)) =>
  sequence respects_for_of_acc; intros ? ? : frames.
#[global] Hint Extern 2 (respects _ (for_await _ _ _)) =>
  sequence respects_for_await; [|intros ? ?] : frames.

Section HeapFrames.
Context `{Runtime}.

#[global] Instance heap_kept_sequential : Sequential heap_kept.
Proof. split; unfold heap_kept; [reflexivity|intros; congruence]. Qed.

#[global] Instance writes_only_sequential l : Sequential (writes_only l).
Proof.
  split; unfold writes_only; [auto|].
  intros s1 e1 s2 e2 s3 [H1 H1'] [H2 H2']. split.
  - intros l' Hl'. rewrite H2, H1; auto.
  - auto.
Qed.

Lemma heap_kept_writes_only {A} (m : Gen A) l :
  respects heap_kept m -> respects (writes_only l) m.
Proof.
  intros Hm s. specialize (Hm s). unfold heap_kept, writes_only in *.
  rewrite Hm. auto.
Qed.

Lemma heap_kept_record ev : respects heap_kept (record ev).
Proof. intros s. reflexivity. Qed.

Lemma heap_kept_external {A} (f : World -> A * World) : respects heap_kept (external f).
Proof. intros s. unfold external. destruct (f (world s)). reflexivity. Qed.

Lemma heap_kept_array_read l : respects heap_kept (array_read l).
Proof. intros s. unfold array_read. destruct (heap s !! l); reflexivity. Qed.

Lemma writes_only_array_push l m : respects (writes_only l) (array_push l m).
Proof.
  intros s. unfold array_push, writes_only.
  destruct (heap s !! l) as [ms|] eqn:E; cbn [final heap events].
  - split.
    + intros l' Hl'. apply lookup_insert_ne. congruence.
    + intros _. rewrite lookup_insert_eq. eauto.
  - rewrite E. auto.
Qed.
End HeapFrames.

#[global] Hint Resolve heap_kept_record heap_kept_external heap_kept_array_read
  writes_only_array_push : frames.

(** ** Running a sequence *)

Section Sequencing.
Context `{Runtime}.

Lemma out_eta {A} (o : Out A) :
  Build_Out (yielded o) (events o) (final o) (completion o) = o.
Proof. destruct o; reflexivity. Qed.

Lemma bind_run {A B} (m : Gen A) (k : A -> Gen B) s ys evs s' a :
  m s = Build_Out ys evs s' (Return a) ->
  bind m k s =
  Build_Out (ys ++ yielded (k a s')) (evs ++ events (k a s')) (final (k a s'))
    (completion (k a s')).
Proof. intros Hm. unfold bind. rewrite Hm. reflexivity. Qed.

Lemma bind_run_throw {A B} (m : Gen A) (k : A -> Gen B) s ys evs s' e :
  m s = Build_Out ys evs s' (Throw e) ->
  bind m k s = Build_Out ys evs s' (Throw e).
Proof. intros Hm. unfold bind. rewrite Hm. reflexivity. Qed.

Lemma try_catch_run {A} (m : Gen A) (handler : Exn -> Gen A) s ys evs s' e :
  m s = Build_Out ys evs s' (Throw e) ->
  try_catch m handler s =
  Build_Out (ys ++ yielded (handler e s')) (evs ++ events (handler e s'))
    (final (handler e s')) (completion (handler e s')).
Proof. intros Hm. unfold try_catch. rewrite Hm. reflexivity. Qed.

Lemma try_catch_run_return {A} (m : Gen A) (handler : Exn -> Gen A) s ys evs s' a :
  m s = Build_Out ys evs s' (Return a) ->
  try_catch m handler s = Build_Out ys evs s' (Return a).
Proof. intros Hm. unfold try_catch. rewrite Hm. reflexivity. Qed.

Lemma try_catch_rethrow {A} (m : Gen A) s : try_catch m (fun error => throw error) s = m s.
Proof.
  unfold try_catch. destruct (m s) as [ys evs s' [a|e]]; simpl; [reflexivity|].
  unfold and_then; simpl. rewrite !app_nil_r. reflexivity.
Qed.

Lemma try_catch_ext {A} (m : Gen A) (h h' : Exn -> Gen A) s :
  (forall e s', h e s' = h' e s') -> try_catch m h s = try_catch m h' s.
Proof.
  intros Hh. unfold try_catch. destruct (completion (m s)); [reflexivity|].
  rewrite Hh. reflexivity.
Qed.

Lemma array_push_run l m s ms :
  heap s !! l = Some ms ->
  array_push l m s =
  Build_Out [] [] {| world := world s; heap := <[l := ms ++ [m]]> (heap s) |} (Return tt).
Proof. intros Hms. unfold array_push. rewrite Hms. reflexivity. Qed.
End Sequencing.

(** ** The gateway *)

Section GatewayFacts.
Context `{Runtime}.
Import AIGateway.

#[global] Instance inert_sequential : Sequential inert.
Proof.
  split; unfold inert; [auto|].
  intros s1 e1 s2 e2 s3 [-> ->] [-> ->]. auto.
Qed.

Lemma parse_inert text : respects inert (parse text).
Proof. unfold parse. destruct (JSON_parse text); auto with frames. Qed.

Lemma emit_tool_call_inert model tc : respects inert (emit_tool_call model tc).
Proof.
  unfold emit_tool_call. destruct tc as [tc|]; [|auto with frames].
  destruct (truthy (acc_name tc)); auto using parse_inert with frames.
Qed.

Lemma on_chunk_inert model toolCalls chunk : respects inert (on_chunk model toolCalls chunk).
Proof.
  unfold on_chunk. sequence respects_bind.
  - destruct (_ ≫= d_content) as [c|]; [destruct (truthy c)|]; auto with frames.
  - intros _. sequence respects_bind; [|auto with frames].
    case_decide; auto using emit_tool_call_inert with frames.
Qed.

(** One attempt is one call of the client, and leaves the arrays alone. *)
Lemma attempt_events model params s :
  events (attempt model params s) = [ClientCall params].
Proof.
  unfold attempt, bind at 1. simpl. f_equal.
  unfold bind at 1, external.
  destruct (client_create params (world s)) as [response w]. simpl.
  assert (Hrest : respects inert
    (for_of_acc (rs_chunks response) [] (on_chunk model) ;;
     match rs_failure response with
     | Some msg => throw (APIError msg)
     | None => ret tt
     end ;; yield (Done (Some model)))).
  { sequence respects_bind; [sequence respects_for_of_acc; intros; apply on_chunk_inert|].
    intros _. destruct (rs_failure response); auto with frames. }
  destruct (Hrest {| world := w; heap := heap s |}) as [_ ->]. reflexivity.
Qed.

Lemma attempt_heap_kept model params : respects heap_kept (attempt model params).
Proof.
  unfold attempt. sequence respects_bind; [auto with frames|]. intros _.
  sequence respects_bind; [auto with frames|]. intros response.
  assert (Hi : forall A (m : Gen A), respects inert m -> respects heap_kept m).
  { intros A m Hm s. destruct (Hm s) as [Hs _]. simpl. rewrite Hs. reflexivity. }
  apply Hi. sequence respects_bind; [sequence respects_for_of_acc; intros; apply on_chunk_inert|].
  intros _. destruct (rs_failure response); auto with frames.
Qed.

Lemma stream_heap_kept request modelName : respects heap_kept (stream request modelName).
Proof.
  funelim (stream request modelName).
  sequence respects_bind; [auto with frames|]. intros msgs.
  sequence respects_try_catch; [apply attempt_heap_kept|]. intros error.
  case_decide; [|auto with frames].
  intros s.
  match goal with
  | IH : context [respects _ _], Hne : _ ≠ _ |- _ => exact (IH msgs error Hne s s)
  end.
Qed.

(** On the fallback model, [stream] is one attempt whose error goes to the
    caller. *)
Lemma stream_on_fallback request s msgs :
  heap s !! rq_messages request = Some msgs ->
  stream request (Some config.fastModel) s =
  attempt config.fastModel (params_for request msgs config.fastModel) s.
Proof.
  intros Hmsgs. rewrite stream_equation_1.
  unfold bind at 1, array_read. rewrite Hmsgs.
  unfold and_then at 1. cbn [completion final yielded events app].
  change (model_in_use request (Some config.fastModel)) with config.fastModel.
  rewrite try_catch_ext with (h' := fun error => throw error)
    by (intros e s'; case_decide; [contradiction|reflexivity]).
  rewrite try_catch_rethrow. fold (params_for request msgs config.fastModel).
  apply out_eta.
Qed.

(** What [stream] comes to: one attempt, or a failed attempt and the attempt
    on the fallback model. *)
Lemma stream_run request modelName s msgs :
  heap s !! rq_messages request = Some msgs ->
  let model := model_in_use request modelName in
  let first := attempt model (params_for request msgs model) s in
  let second :=
    attempt config.fastModel (params_for request msgs config.fastModel) (final first) in
  stream request modelName s =
    match completion first with
    | Return _ => first
    | Throw e =>
        if decide (model = config.fastModel) then first else and_then first second
    end.
Proof.
  intros Hmsgs model first second.
  rewrite stream_equation_1.
  unfold bind at 1, array_read. rewrite Hmsgs.
  unfold and_then at 1. cbn [completion final yielded events app].
  fold model. fold (params_for request msgs model).
  destruct (decide (model = config.fastModel)) as [Heq|Hne].
  - rewrite try_catch_ext with (h' := fun error => throw error)
      by (intros e s'; case_decide; [contradiction|reflexivity]).
    rewrite try_catch_rethrow. rewrite out_eta.
    fold first. destruct (completion first); reflexivity.
  - rewrite try_catch_ext with (h' := fun _ => stream request (Some config.fastModel))
      by (intros e s'; case_decide; [reflexivity|contradiction]).
    unfold try_catch. fold first.
    destruct (completion first) as [[]|e] eqn:Hfirst; [apply out_eta|].
    rewrite stream_on_fallback with (msgs := msgs).
    + reflexivity.
    + pose proof (attempt_heap_kept model (params_for request msgs model) s) as Hk.
      change (heap (final first) = heap s) in Hk. rewrite Hk. exact Hmsgs.
Qed.

(** C2. A failed attempt on a model other than the fallback model is
    followed by exactly one attempt of the whole request on the fallback
    model, whose outcome, error included, is the outcome of [stream]; a
    failed attempt on the fallback model is the outcome of [stream], its
    error going to the caller.  Each attempt is one call of the client, so
    the client is called at most twice, and the second call, if any, is for
    the fallback model. *)
Theorem stream_falls_back_once request modelName s msgs :
  heap s !! rq_messages request = Some msgs ->
  let model := model_in_use request modelName in
  let first := attempt model (params_for request msgs model) s in
  let second :=
    attempt config.fastModel (params_for request msgs config.fastModel) (final first) in
  stream request modelName s =
    match completion first with
    | Return _ => first
    | Throw e =>
        if decide (model = config.fastModel) then first else and_then first second
    end
  /\ events first = [ClientCall (params_for request msgs model)]
  /\ events second = [ClientCall (params_for request msgs config.fastModel)]
  /\ length (events (stream request modelName s)) <= 2.
Proof.
  intros Hmsgs model first second.
  pose proof (stream_run request modelName s msgs Hmsgs) as Hstream.
  cbn zeta in Hstream. fold model first second in Hstream.
  split; [exact Hstream|].
  split; [apply attempt_events|].
  split; [apply attempt_events|].
  rewrite Hstream.
  assert (H1 : length (events first) = 1)
    by (unfold first; rewrite attempt_events; reflexivity).
  assert (H2 : length (events second) = 1)
    by (unfold second; rewrite attempt_events; reflexivity).
  destruct (completion first); [lia|].
  case_decide; [lia|].
  unfold and_then; cbn [events]. rewrite length_app. lia.
Qed.

Lemma append_assoc (a b c : string) : (a +:+ b) +:+ c = a +:+ b +:+ c.
Proof.
  induction a as [|x a IH]; [reflexivity|].
  change (String x ((a +:+ b) +:+ c) = String x (a +:+ b +:+ c)). congruence.
Qed.

Lemma append_empty_r (a : string) : a +:+ "" = a.
Proof.
  induction a as [|x a IH]; [reflexivity|].
  change (String x (a +:+ "") = String x a). congruence.
Qed.

(** The loop of [complete] over the chunks of a stream. *)
Lemma complete_loop chunks result toolCalls s :
  for_of_acc chunks (result, toolCalls)
    (fun '(result, toolCalls) chunk =>
       let result :=
         match chunk with
         | Content c _ => result +:+ c
         | _ => result
         end in
       let toolCalls :=
         if is_tool_call chunk then toolCalls ++ [chunk] else toolCalls in
       ret (result, toolCalls)) s =
  Build_Out [] [] s
    (Return (result +:+ cp_content (complete_spec chunks),
             toolCalls ++ cp_toolCalls (complete_spec chunks))).
Proof.
  revert result toolCalls.
  induction chunks as [|chunk chunks IH]; intros result toolCalls; simpl.
  - unfold ret. rewrite append_empty_r, app_nil_r. reflexivity.
  - unfold bind, ret; cbn [completion final yielded events and_then].
    rewrite IH. unfold and_then; cbn [completion final yielded events app].
    destruct chunk; cbn [is_content is_tool_call map foldr content_of app];
      rewrite ?append_assoc, <- ?app_assoc; reflexivity.
Qed.

(** C9. [complete] is the fold of [stream]: it returns the concatenation of
    the content chunks and the sequence of the tool-call chunks of the one
    [stream] it runs, throws what that [stream] throws, and leaves the
    state and the calls of that [stream], no other. *)
Theorem complete_is_fold_of_stream request modelName s :
  let streamed := stream request modelName s in
  let completed := complete request modelName s in
  completion completed =
    match completion streamed with
    | Return _ => Return (complete_spec (yielded streamed))
    | Throw e => Throw e
    end
  /\ events completed = events streamed
  /\ final completed = final streamed
  /\ yielded completed = [].
Proof.
  intros streamed completed. unfold completed, complete, bind, for_await.
  fold streamed. rewrite complete_loop.
  cbn [completion final yielded events].
  destruct (completion streamed) as [[]|e];
    unfold and_then, ret; cbn [completion final yielded events];
    rewrite ?app_nil_r; auto.
Qed.
End GatewayFacts.

(** ** The accumulation of tool-call fragments *)

Section Accumulation.
Context `{Runtime}.
Import AIGateway.

Lemma truthy_append (a b : string) : truthy (a +:+ b) = truthy a || truthy b.
Proof. destruct a, b; reflexivity. Qed.

Lemma truthy_false (a : string) : truthy a = false -> a = "".
Proof. destruct a; [reflexivity|discriminate]. Qed.

Lemma array_get_set {A} i (v : A) a : array_get (array_set i v a) i = Some v.
Proof.
  unfold array_get, array_set. case_decide as Hi.
  - rewrite list_lookup_insert_eq by assumption. reflexivity.
  - rewrite lookup_app_r by lia.
    rewrite lookup_app_r by (rewrite length_replicate; lia).
    rewrite length_replicate, Nat.sub_diag. reflexivity.
Qed.

Lemma array_get_modify {A} (f : A -> A) i a :
  array_get (array_modify f i a) i = f <$> array_get a i.
Proof.
  unfold array_get, array_modify. rewrite list_lookup_alter_eq.
  destruct (a !! i) as [[x|]|]; reflexivity.
Qed.

Lemma array_modify_twice {A} (f g : A -> A) i a :
  array_modify f i (array_modify g i a) = array_modify (f ∘ g) i a.
Proof.
  unfold array_modify. rewrite list_alter_alter_eq.
  apply list_alter_ext; [|reflexivity]. intros [x|] _; reflexivity.
Qed.

Lemma array_modify_ext {A} (f g : A -> A) i a :
  (forall x, f x = g x) -> array_modify f i a = array_modify g i a.
Proof.
  intros Hfg. unfold array_modify. apply list_alter_ext; [|reflexivity].
  intros [x|] _; simpl; [rewrite Hfg|]; reflexivity.
Qed.

Lemma filed_present toolCalls index id name :
  is_Some (array_get (filed toolCalls index id name) index).
Proof.
  unfold filed.
  assert (Hthere : is_Some (array_get
    match array_get toolCalls index with
    | Some _ => toolCalls
    | None =>
        array_set index {| acc_id := id; acc_name := ""; acc_arguments := "" |} toolCalls
    end index)).
  { destruct (array_get toolCalls index) eqn:E; [rewrite E|rewrite array_get_set]; eauto. }
  destruct name as [n|]; [destruct (truthy n)|]; try assumption.
  rewrite array_get_modify. destruct Hthere as [a ->]. simpl. eauto.
Qed.

Lemma accumulate_fragment toolCalls index id name text :
  accumulate toolCalls (Wire.fragment index id name text) =
  if truthy text
  then array_modify (add_arguments text) index (filed toolCalls index id name)
  else filed toolCalls index id name.
Proof. reflexivity. Qed.

(** A further fragment of an entry that is there is appended to it. *)
Lemma accumulate_more toolCalls index text :
  is_Some (array_get toolCalls index) ->
  accumulate toolCalls (Wire.fragment index None None text) =
  if truthy text then array_modify (add_arguments text) index toolCalls else toolCalls.
Proof.
  intros [a Ha]. unfold accumulate, Wire.fragment; simpl. rewrite Ha. reflexivity.
Qed.

Lemma accumulate_two toolCalls index id name text more :
  accumulate (accumulate toolCalls (Wire.fragment index id name text))
    (Wire.fragment index None None more) =
  accumulate toolCalls (Wire.fragment index id name (text +:+ more)).
Proof.
  rewrite accumulate_more.
  - rewrite !accumulate_fragment, truthy_append.
    destruct (truthy text) eqn:Ht, (truthy more) eqn:Hm; simpl.
    + rewrite array_modify_twice. apply array_modify_ext.
      intros a. unfold add_arguments; simpl. rewrite append_assoc. reflexivity.
    + apply truthy_false in Hm. subst more. rewrite append_empty_r. reflexivity.
    + apply truthy_false in Ht. subst text. reflexivity.
    + reflexivity.
  - rewrite accumulate_fragment. pose proof (filed_present toolCalls index id name) as Hp.
    destruct (truthy text); [|assumption].
    rewrite array_get_modify. destruct Hp as [a ->]. simpl. eauto.
Qed.

(** The fragments of one index leave the array that their concatenation,
    sent as one fragment, leaves. *)
Lemma accumulate_fragments toolCalls index id name text fragments :
  foldl accumulate toolCalls
    (Wire.fragment index id name text :: map (Wire.fragment index None None) fragments) =
  accumulate toolCalls
    (Wire.fragment index id name (text +:+ foldr String.append "" fragments)).
Proof.
  revert text. induction fragments as [|more fragments IH]; intros text; simpl.
  - rewrite append_empty_r. reflexivity.
  - rewrite accumulate_two. simpl in IH. rewrite IH, append_assoc. reflexivity.
Qed.

Lemma array_get_set_ne {A} i j (v : A) a :
  i <> j -> array_get (array_set j v a) i = array_get a i.
Proof.
  intros Hij. unfold array_get, array_set. case_decide as Hj.
  - rewrite list_lookup_insert_ne by congruence. reflexivity.
  - destruct (decide (i < length a)) as [Hi|Hi].
    + rewrite lookup_app_l by assumption. reflexivity.
    + rewrite lookup_app_r by lia. rewrite (lookup_ge_None_2 a i) by lia.
      destruct (decide (i - length a < j - length a)) as [Hlt|Hge].
      * rewrite lookup_app_l by (rewrite length_replicate; lia).
        rewrite lookup_replicate_2 by lia. reflexivity.
      * rewrite lookup_app_r by (rewrite length_replicate; lia).
        rewrite length_replicate.
        destruct (i - length a - (j - length a)) as [|n] eqn:Hn; [lia|reflexivity].
Qed.

Lemma array_get_modify_ne {A} (f : A -> A) i j a :
  i <> j -> array_get (array_modify f j a) i = array_get a i.
Proof.
  intros Hij. unfold array_get, array_modify.
  rewrite list_lookup_alter_ne by congruence. reflexivity.
Qed.

(** One delta adds its argument text to the entry of its index and leaves
    the text of the other entries. *)
Lemma arguments_at_accumulate toolCalls d index :
  arguments_at (accumulate toolCalls d) index =
  arguments_at toolCalls index +:+ arguments_for index [d].
Proof.
  unfold arguments_for, accumulate. cbn [List.filter].
  destruct (tcd_index d) as [j|] eqn:Hj.
  2:{ rewrite bool_decide_eq_false_2 by discriminate. cbn. symmetry. apply append_empty_r. }
  destruct (decide (j = index)) as [->|Hne].
  - rewrite bool_decide_eq_true_2 by reflexivity. cbn [map foldr].
    rewrite append_empty_r. unfold arguments_at.
    set (T1 := match array_get toolCalls index with
               | Some _ => toolCalls
               | None => array_set index _ toolCalls
               end).
    assert (H1 : from_option acc_arguments "" (array_get T1 index) =
                 from_option acc_arguments "" (array_get toolCalls index)).
    { unfold T1. destruct (array_get toolCalls index) as [a|] eqn:E.
      - rewrite E. reflexivity.
      - rewrite array_get_set. reflexivity. }
    set (T2 := match tcd_function d ≫= fd_name with
               | Some n => if truthy n then array_modify (set_name n) index T1 else T1
               | None => T1
               end).
    assert (H2 : from_option acc_arguments "" (array_get T2 index) =
                 from_option acc_arguments "" (array_get T1 index)).
    { unfold T2. destruct (tcd_function d ≫= fd_name) as [n|]; [|reflexivity].
      destruct (truthy n); [|reflexivity].
      rewrite array_get_modify. destruct (array_get T1 index); reflexivity. }
    assert (H3 : is_Some (array_get T2 index)).
    { assert (Ht1 : is_Some (array_get T1 index)).
      { unfold T1. destruct (array_get toolCalls index) as [a|] eqn:E;
          [rewrite E|rewrite array_get_set]; eauto. }
      unfold T2. destruct (tcd_function d ≫= fd_name) as [n|]; [|exact Ht1].
      destruct (truthy n); [|exact Ht1].
      rewrite array_get_modify. destruct Ht1 as [a ->]. cbn. eauto. }
    rewrite <- H1, <- H2.
    destruct (tcd_function d ≫= fd_arguments) as [fragment|]; cbn [default from_option id].
    + destruct (truthy fragment) eqn:Hf.
      * rewrite array_get_modify. destruct H3 as [a ->]. reflexivity.
      * apply truthy_false in Hf. subst fragment. symmetry. apply append_empty_r.
    + symmetry. apply append_empty_r.
  - rewrite bool_decide_eq_false_2 by congruence. cbn [map foldr].
    rewrite append_empty_r. unfold arguments_at. f_equal.
    assert (Hmod : forall (f : Accumulator -> Accumulator) T,
              array_get (array_modify f j T) index = array_get T index)
      by (intros; apply array_get_modify_ne; congruence).
    assert (H1 : array_get
              match array_get toolCalls j with
              | Some _ => toolCalls
              | None =>
                  array_set j {| acc_id := tcd_id d; acc_name := ""; acc_arguments := "" |}
                    toolCalls
              end index = array_get toolCalls index).
    { destruct (array_get toolCalls j); [reflexivity|].
      apply array_get_set_ne. congruence. }
    destruct (tcd_function d ≫= fd_arguments) as [fragment|];
      [destruct (truthy fragment)|];
      rewrite ?Hmod;
      (destruct (tcd_function d ≫= fd_name) as [n|]; [destruct (truthy n)|]);
      rewrite ?Hmod; exact H1.
Qed.

Lemma arguments_for_app index deltas1 deltas2 :
  arguments_for index (deltas1 ++ deltas2) =
  arguments_for index deltas1 +:+ arguments_for index deltas2.
Proof.
  unfold arguments_for. rewrite List.filter_app, map_app.
  induction (map _ (List.filter _ deltas1)) as [|x l IH]; [reflexivity|].
  cbn [app foldr]. rewrite IH, append_assoc. reflexivity.
Qed.

(** The accumulation is per index: after any deltas, for whatever indices
    and in whatever interleaving, the entry of an index holds the text it
    held, then the fragments brought for that index, in their order. *)
Lemma accumulated_arguments deltas toolCalls index :
  arguments_at (foldl accumulate toolCalls deltas) index =
  arguments_at toolCalls index +:+ arguments_for index deltas.
Proof.
  revert toolCalls. induction deltas as [|d deltas IH]; intros toolCalls.
  - cbn. symmetry. apply append_empty_r.
  - cbn [foldl]. rewrite IH, arguments_at_accumulate.
    change (d :: deltas) with ([d] ++ deltas).
    rewrite arguments_for_app, append_assoc. reflexivity.
Qed.

Lemma on_chunk_fragment model toolCalls d s :
  on_chunk model toolCalls (Wire.fragment_chunk d) s =
  Build_Out [] [] s (Return (accumulate toolCalls d)).
Proof. reflexivity. Qed.

Lemma consume_fragments model toolCalls deltas rest s :
  for_of_acc (map Wire.fragment_chunk deltas ++ rest) toolCalls (on_chunk model) s =
  for_of_acc rest (foldl accumulate toolCalls deltas) (on_chunk model) s.
Proof.
  revert toolCalls. induction deltas as [|d deltas IH]; intros toolCalls; simpl.
  - reflexivity.
  - unfold bind at 1. rewrite on_chunk_fragment.
    cbn [completion final]. rewrite IH.
    unfold and_then; cbn [yielded events app]. apply out_eta.
Qed.
End Accumulation.


(** ** The argument text of a tool call, in pieces and whole *)

Section FragmentsAndWhole.
Context `{Runtime}.
Import AIGateway.

Lemma bind_assoc {A B C} (m : Gen A) (k : A -> Gen B) (h : B -> Gen C) s :
  bind (bind m k) h s = bind m (fun a => bind (k a) h) s.
Proof.
  unfold bind. destruct (m s) as [ys evs s' [a|e]]; cbn; [|reflexivity].
  destruct (k a s') as [ys' evs' s'' [b|e]]; cbn; [|reflexivity].
  unfold and_then; cbn. rewrite !app_assoc. reflexivity.
Qed.

Lemma bind_ret_l {A B} (a : A) (k : A -> Gen B) s : bind (ret a) k s = k a s.
Proof. unfold bind, ret, and_then; cbn. apply out_eta. Qed.

Lemma bind_ret_r {A} (m : Gen A) s : bind m (fun a => ret a) s = m s.
Proof.
  unfold bind. destruct (m s) as [ys evs s' [a|e]]; cbn; [|reflexivity].
  unfold and_then; cbn. rewrite !app_nil_r. reflexivity.
Qed.

Lemma bind_ext {A B} (m : Gen A) (k k' : A -> Gen B) s :
  (forall a s', k a s' = k' a s') -> bind m k s = bind m k' s.
Proof.
  intros Hk. unfold bind. destruct (completion (m s)); [|reflexivity].
  rewrite Hk. reflexivity.
Qed.

Lemma for_of_app {A} (l1 l2 : list A) (body : A -> Gen unit) s :
  for_of (l1 ++ l2) body s = bind (for_of l1 body) (fun _ => for_of l2 body) s.
Proof.
  revert s. induction l1 as [|x l1 IH]; intros s; cbn [app for_of].
  - rewrite bind_ret_l. reflexivity.
  - rewrite bind_assoc. apply bind_ext. intros _ s'. apply IH.
Qed.

Lemma array_modify_last {A} (f : A -> A) (a : list (option A)) x :
  array_modify f (length a) (a ++ [x]) = a ++ [f <$> x].
Proof.
  unfold array_modify.
  replace (length a) with (length a + 0) at 1 by lia.
  rewrite alter_app_r. reflexivity.
Qed.

(** The first fragment of a call at the next index, with its name, and the
    text it brings, make a new last entry. *)
Lemma accumulate_new toolCalls id n whole :
  truthy n = true ->
  accumulate toolCalls (Wire.fragment (length toolCalls) id (Some n) whole) =
  toolCalls ++ [Some {| acc_id := id; acc_name := n; acc_arguments := whole |}].
Proof.
  intros Hn. rewrite accumulate_fragment. unfold filed.
  assert (Hnone : array_get toolCalls (length toolCalls) = None).
  { unfold array_get. rewrite lookup_ge_None_2 by lia. reflexivity. }
  rewrite Hnone, Hn. unfold array_set. rewrite decide_False by lia.
  rewrite Nat.sub_diag. cbn [replicate app].
  rewrite array_modify_last. cbn [fmap option_fmap option_map set_name acc_id acc_arguments].
  destruct (truthy whole) eqn:Hwhole.
  - rewrite array_modify_last. reflexivity.
  - apply truthy_false in Hwhole. subst whole. reflexivity.
Qed.

Lemma on_chunk_finish model toolCalls s :
  on_chunk model toolCalls (Wire.finish_chunk "tool_calls") s =
  bind (for_of toolCalls (emit_tool_call model)) (fun _ => ret toolCalls) s.
Proof.
  unfold on_chunk. cbn.
  destruct (decide (Some "tool_calls" = Some "tool_calls")) as [_|Hne]; [|congruence].
  unfold and_then, ret. cbn. apply out_eta.
Qed.

Lemma arguments_for_pieces index id name text fragments :
  arguments_for index
    (Wire.fragment index id name text :: map (Wire.fragment index None None) fragments)
  = text +:+ foldr String.append "" fragments.
Proof.
  unfold arguments_for. cbn [List.filter Wire.fragment tcd_index].
  rewrite bool_decide_eq_true_2 by reflexivity. cbn [map foldr]. f_equal.
  induction fragments as [|more fragments IH]; [reflexivity|].
  cbn [map List.filter Wire.fragment tcd_index].
  rewrite bool_decide_eq_true_2 by reflexivity. cbn [map foldr]. f_equal. exact IH.
Qed.

(** C7. Whatever the pieces in which the argument text of a tool call
    arrives, one wire chunk each and in their order, the entry of the
    call's index holds the pieces put together in that order, also when
    fragments for other indices arrive in between, and that text is what is
    parsed when the round of tool calls ends: the tool-call chunk of the
    call carries [JSON.parse] of the whole text, or the attempt fails with
    its [SyntaxError], exactly as when the whole text arrives in one
    fragment, and the run goes on in the same way. *)
Theorem fragments_parse_as_whole
    model toolCalls index id name text fragments rest deltas s :
  let pieces :=
    Wire.fragment index id name text :: map (Wire.fragment index None None) fragments in
  let whole := text +:+ foldr String.append "" fragments in
  for_of_acc (map Wire.fragment_chunk pieces ++ rest) toolCalls (on_chunk model) s
  = for_of_acc (Wire.fragment_chunk (Wire.fragment index id name whole) :: rest)
      toolCalls (on_chunk model) s
  /\ arguments_at (foldl accumulate toolCalls pieces) index
     = arguments_at toolCalls index +:+ whole
  /\ arguments_at (foldl accumulate toolCalls deltas) index
     = arguments_at toolCalls index +:+ arguments_for index deltas
  /\ (index = length toolCalls ->
      forall n, name = Some n -> truthy n = true ->
      for_of_acc (map Wire.fragment_chunk pieces ++ [Wire.finish_chunk "tool_calls"])
        toolCalls (on_chunk model) s
      = (for_of toolCalls (emit_tool_call model) ;;
         arguments <- parse (or_else whole "{}") ;;
         yield (ToolCall {| tc_tool := n; tc_arguments := arguments; tc_id := id;
                            tc_model := model |}) ;;
         ret (toolCalls ++ [Some {| acc_id := id; acc_name := n;
                                    acc_arguments := whole |}])) s).
Proof.
  intros pieces whole. split; [|split; [|split]].
  - subst pieces whole. rewrite consume_fragments, accumulate_fragments.
    change (Wire.fragment_chunk ?d :: rest) with (map Wire.fragment_chunk [d] ++ rest).
    rewrite consume_fragments. reflexivity.
  - rewrite accumulated_arguments. subst pieces whole.
    rewrite arguments_for_pieces. reflexivity.
  - apply accumulated_arguments.
  - intros -> n -> Hn. subst pieces.
    rewrite consume_fragments, accumulate_fragments. fold whole.
    rewrite (accumulate_new _ _ _ _ Hn). clearbody whole.
    cbn [for_of_acc]. rewrite bind_ret_r, on_chunk_finish.
    unfold bind at 1. rewrite for_of_app. cbn [for_of].
    unfold bind. destruct (for_of toolCalls (emit_tool_call model) s) as [ys evs s' [[]|e]];
      cbn [completion final yielded events]; [|reflexivity].
    unfold emit_tool_call. cbn [acc_name acc_arguments acc_id]. rewrite Hn.
    unfold bind, parse. destruct (JSON_parse (or_else whole "{}")) as [v|msg];
      cbn; unfold and_then; cbn; rewrite ?app_nil_r, <- ?app_assoc; reflexivity.
Qed.
End FragmentsAndWhole.

(** ** The registry and the planner: what is written where *)

Section PlannerFrames.
Context `{Runtime}.
Import TaskPlanner.

Lemma inert_heap_kept {A} (m : Gen A) : respects inert m -> respects heap_kept m.
Proof. intros Hm s. destruct (Hm s) as [Hs _]. simpl. rewrite Hs. reflexivity. Qed.

Lemma plugins_execute_heap_kept tools toolName args :
  respects heap_kept (PluginManager.execute tools toolName args).
Proof.
  unfold PluginManager.execute. sequence respects_bind; [auto with frames|]. intros _.
  destruct (tools !! toolName) as [tool|]; [|auto with frames].
  sequence respects_try_catch; [|auto with frames].
  unfold PluginManager.call_tool. sequence respects_bind; [auto with frames|].
  intros [e|result]; auto with frames.
Qed.

Lemma formatResult_inert result : respects inert (formatResult result).
Proof. destruct result as [[]|]; simpl; auto with frames. Qed.

Lemma collect_inert acc chunk : respects inert (collect acc chunk).
Proof. destruct acc as [responseText toolCalls], chunk; simpl; auto with frames. Qed.

Lemma run_tool_writes_only plugins messages tc :
  respects (writes_only messages) (run_tool plugins messages tc).
Proof.
  unfold run_tool. sequence respects_try_catch.
  - sequence respects_bind; [auto with frames|]. intros _.
    sequence respects_bind;
      [apply heap_kept_writes_only, plugins_execute_heap_kept|]. intros result.
    sequence respects_bind;
      [apply heap_kept_writes_only, inert_heap_kept, formatResult_inert|]. intros shown.
    auto with frames.
  - intros error. auto with frames.
Qed.

Lemma model_turn_heap_kept context messages :
  respects heap_kept (model_turn context messages).
Proof.
  unfold model_turn. sequence respects_bind.
  - intros s. reflexivity.
  - intros _. sequence respects_for_await; [apply stream_heap_kept|].
    intros acc c. apply inert_heap_kept, collect_inert.
Qed.

Lemma run_tools_writes_only plugins messages responseText toolCalls :
  respects (writes_only messages) (run_tools plugins messages responseText toolCalls).
Proof.
  unfold run_tools. sequence respects_bind; [auto with frames|]. intros _.
  sequence respects_bind; [auto with frames|]. intros _.
  sequence respects_bind; [|auto with frames].
  sequence respects_for_of. intros tc. apply run_tool_writes_only.
Qed.

Lemma loop_writes_only plugins context messages iterations :
  respects (writes_only messages) (loop plugins context messages iterations).
Proof.
  funelim (loop plugins context messages iterations).
  case_decide as Hlt; [|auto with frames].
  sequence respects_bind; [apply heap_kept_writes_only, model_turn_heap_kept|].
  intros [responseText [|tc toolCalls]]; [auto with frames|].
  sequence respects_bind; [apply run_tools_writes_only|]. intros _ s.
  match goal with
  | IH : context [respects _ _] |- _ =>
      exact (IH Hlt (responseText, toolCalls) responseText toolCalls tc toolCalls tt s s)
  end.
Qed.

(** C10. Whatever the run, and however it ends, the array the caller
    passed as [context.messages] holds after it what it held before, and
    so does every array that was there: the planner writes to the copy it
    makes at the start, an array that was not there before. *)
Theorem caller_messages_unchanged plugins context s :
  let o := execute plugins context s in
  heap (final o) !! cx_messages context = heap s !! cx_messages context
  /\ forall l, is_Some (heap s !! l) -> heap (final o) !! l = heap s !! l.
Proof.
  intros o.
  assert (Hall : forall l, is_Some (heap s !! l) -> heap (final o) !! l = heap s !! l).
  { intros l Hl. unfold o, execute, bind, array_spread.
    destruct (heap s !! cx_messages context) as [ms|] eqn:Hms;
      cbn [completion final]; [|reflexivity].
    set (copy := fresh (dom (heap s))).
    set (s1 := {| world := world s; heap := <[copy := ms]> (heap s) |}).
    assert (Hfresh : l <> copy).
    { intros ->. apply elem_of_dom in Hl. exact (is_fresh (dom (heap s)) Hl). }
    destruct (loop_writes_only plugins context copy 0 s1) as [Hothers _].
    unfold and_then; cbn [final]. rewrite Hothers by assumption.
    unfold s1; cbn [heap]. apply lookup_insert_ne. congruence. }
  split; [|exact Hall].
  destruct (heap s !! cx_messages context) as [ms|] eqn:Hms.
  - rewrite <- Hms. apply Hall. rewrite Hms. eauto.
  - assert (Ho : final o = s)
      by (unfold o, execute, bind, array_spread; rewrite Hms; reflexivity).
    rewrite Ho. exact Hms.
Qed.
End PlannerFrames.

(** ** The registry and the planner: what a run does *)

Section PlannerRuns.
Context `{Runtime}.
Import TaskPlanner.

Lemma plugins_execute_run plugins toolName args s :
  PluginManager.execute plugins toolName args s =
  Build_Out [] [ToolInvocation toolName args]
    {| world := (invoke plugins toolName args (world s)).2; heap := heap s |}
    (completion_of (invoke plugins toolName args (world s)).1).
Proof.
  unfold PluginManager.execute, invoke, bind at 1, record.
  cbn [completion final]. unfold and_then; cbn [yielded events final completion app].
  destruct (plugins !! toolName) as [tool|]; [|destruct s; reflexivity].
  rewrite try_catch_rethrow.
  unfold PluginManager.call_tool, bind, external.
  destruct (PluginManager.tool_execute tool args (world s)) as [[e|result] w]; reflexivity.
Qed.

(** One requested call, whatever its outcome: two chunks, one invocation,
    one tool message, and the loop goes on. *)
Lemma run_tool_run plugins messages tc s ms :
  heap s !! messages = Some ms ->
  let called := invoke plugins (tc_tool tc) (tc_arguments tc) (world s) in
  run_tool plugins messages tc s =
  Build_Out [tool_start tc; report_chunk tc called.1]
    [ToolInvocation (tc_tool tc) (tc_arguments tc)]
    {| world := called.2;
       heap := <[messages := ms ++ [tool_message tc (report_text called.1)]]> (heap s) |}
    (Return tt).
Proof.
  intros Hms called. unfold run_tool.
  pose proof (plugins_execute_run plugins (tc_tool tc) (tc_arguments tc) s) as Hexec.
  fold called in Hexec. destruct called as [outcome w]. cbn [fst snd] in *.
  destruct outcome as [e|[result|]]; cbn [completion_of] in Hexec.
  - erewrite try_catch_run.
    2:{ erewrite bind_run by reflexivity. erewrite bind_run_throw by exact Hexec.
        reflexivity. }
    erewrite bind_run by reflexivity.
    rewrite (array_push_run _ _ _ ms) by exact Hms. reflexivity.
  - erewrite try_catch_run_return; [reflexivity|].
    erewrite bind_run by reflexivity. erewrite bind_run by exact Hexec.
    destruct result.
    all: erewrite bind_run by reflexivity.
    all: erewrite bind_run by reflexivity.
    all: rewrite (array_push_run _ _ _ ms) by exact Hms.
    all: reflexivity.
  - erewrite try_catch_run.
    2:{ erewrite bind_run by reflexivity. erewrite bind_run by exact Hexec.
        erewrite bind_run_throw by reflexivity. reflexivity. }
    erewrite bind_run by reflexivity.
    rewrite (array_push_run _ _ _ ms) by exact Hms. reflexivity.
Qed.

Lemma for_of_run_tool plugins messages toolCalls s ms :
  heap s !! messages = Some ms ->
  let reports := tool_reports plugins toolCalls (world s) in
  for_of toolCalls (run_tool plugins messages) s =
  Build_Out reports.1.1 (map invocation toolCalls)
    {| world := reports.2; heap := <[messages := ms ++ reports.1.2]> (heap s) |}
    (Return tt).
Proof.
  revert s ms. induction toolCalls as [|tc rest IH]; intros s ms Hms; simpl.
  - unfold ret. rewrite app_nil_r, insert_id by assumption. destruct s; reflexivity.
  - erewrite bind_run by (apply run_tool_run; exact Hms).
    rewrite (IH _ (ms ++ [tool_message tc
      (report_text (invoke plugins (tc_tool tc) (tc_arguments tc) (world s)).1)]))
      by (cbn [heap]; apply lookup_insert_eq).
    cbn [world heap yielded events final completion].
    destruct (tool_reports plugins rest
      (invoke plugins (tc_tool tc) (tc_arguments tc) (world s)).2) as [[chunks msgs] w'].
    cbn [fst snd app]. rewrite insert_insert_eq, <- app_assoc. reflexivity.
Qed.

(** The iteration after a turn that requested tools. *)
Lemma run_tools_run plugins messages responseText toolCalls s ms :
  heap s !! messages = Some ms ->
  let reports := tool_reports plugins toolCalls (world s) in
  run_tools plugins messages responseText toolCalls s =
  Build_Out (Status status_executing :: reports.1.1 ++ [Status nl])
    (map invocation toolCalls)
    {| world := reports.2;
       heap := <[messages := ms ++ assistant_message responseText toolCalls :: reports.1.2]>
                 (heap s) |}
    (Return tt).
Proof.
  intros Hms reports. unfold run_tools.
  erewrite bind_run by reflexivity.
  erewrite bind_run by (apply array_push_run; exact Hms).
  erewrite bind_run by (apply for_of_run_tool; cbn [heap]; apply lookup_insert_eq).
  cbn [world heap yielded events final completion yield app]. fold reports.
  rewrite insert_insert_eq, <- app_assoc, app_nil_r. reflexivity.
Qed.

Lemma tool_reports_messages plugins toolCalls w :
  map tool_call_id (tool_reports plugins toolCalls w).1.2 = map tc_id toolCalls
  /\ Forall (fun m => role m = "tool") (tool_reports plugins toolCalls w).1.2.
Proof.
  revert w. induction toolCalls as [|tc rest IH]; intros w; simpl; [auto|].
  specialize (IH (invoke plugins (tc_tool tc) (tc_arguments tc) w).2).
  destruct (tool_reports plugins rest _) as [[chunks msgs] w'].
  cbn [fst snd map] in *. destruct IH as [IH1 IH2]. split.
  - rewrite IH1. reflexivity.
  - constructor; [reflexivity|assumption].
Qed.

Lemma collect_run chunks responseText toolCalls s :
  for_of_acc chunks (responseText, toolCalls) collect s =
  Build_Out (List.filter is_content chunks) [] s
    (Return (responseText +:+ text_of chunks, toolCalls ++ requests_of chunks)).
Proof.
  revert responseText toolCalls.
  induction chunks as [|chunk chunks IH]; intros responseText toolCalls; simpl.
  - unfold ret, text_of; simpl. rewrite append_empty_r, app_nil_r. reflexivity.
  - destruct chunk;
      try (erewrite bind_run by reflexivity; rewrite IH; reflexivity).
    + erewrite bind_run by reflexivity. rewrite IH.
      unfold text_of; cbn [List.filter is_content map foldr AIGateway.content_of].
      cbn [yielded events final completion app]. rewrite append_assoc. reflexivity.
    + erewrite bind_run by reflexivity. rewrite IH.
      cbn [yielded events final completion app requests_of omap].
      rewrite <- app_assoc. reflexivity.
Qed.

(** One turn: the content chunks of the stream go on to the caller, and the
    turn returns the text and the tool calls, or throws what the stream
    throws. *)
Lemma model_turn_run context messages s :
  let streamed := AIGateway.stream (request_of context messages) None s in
  model_turn context messages s =
  Build_Out (List.filter is_content (yielded streamed))
    (GatewayCall (default [] (heap s !! messages)) :: events streamed)
    (final streamed)
    match completion streamed with
    | Return _ => Return (text_of (yielded streamed), requests_of (yielded streamed))
    | Throw e => Throw e
    end.
Proof.
  intros streamed. unfold model_turn.
  erewrite bind_run by reflexivity.
  unfold for_await. fold (request_of context messages). fold streamed.
  rewrite collect_run. cbn [yielded events final completion app].
  rewrite app_nil_r. reflexivity.
Qed.

Lemma loop_step plugins context messages iterations s :
  iterations < maxIterations ->
  loop plugins context messages iterations s =
  bind (model_turn context messages)
    (fun turn =>
       match turn.2 with
       | [] => yield (Done None)
       | _ :: _ =>
           run_tools plugins messages turn.1 turn.2 ;;
           loop plugins context messages (S iterations)
       end) s.
Proof.
  intros Hlt. rewrite loop_equation_1. rewrite decide_True by assumption.
  unfold bind at 1 3. destruct (completion (model_turn context messages s)) as [turn|e];
    [|reflexivity].
  destruct turn as [responseText [|tc toolCalls]]; reflexivity.
Qed.

Lemma loop_end plugins context messages iterations s :
  ~ iterations < maxIterations ->
  loop plugins context messages iterations s = yield (Warning warning_max_iterations) s.
Proof.
  intros Hge. rewrite loop_equation_1. rewrite decide_False by assumption. reflexivity.
Qed.
End PlannerRuns.

(** ** The planner's loop *)

Section PlannerLoop.
Context `{Runtime}.
Import TaskPlanner.

Lemma gateway_inputs_app evs1 evs2 :
  gateway_inputs (evs1 ++ evs2) = gateway_inputs evs1 ++ gateway_inputs evs2.
Proof. apply omap_app. Qed.

Lemma tools_invoked_app evs1 evs2 :
  tools_invoked (evs1 ++ evs2) = tools_invoked evs1 ++ tools_invoked evs2.
Proof. apply omap_app. Qed.

Lemma gateway_inputs_call ms evs :
  gateway_inputs (GatewayCall ms :: evs) = ms :: gateway_inputs evs.
Proof. reflexivity. Qed.

Lemma gateway_inputs_invocations toolCalls :
  gateway_inputs (map invocation toolCalls) = [].
Proof. induction toolCalls; [reflexivity|assumption]. Qed.

(** A stream calls the client, nothing else. *)
Lemma stream_events request modelName s :
  gateway_inputs (events (AIGateway.stream request modelName s)) = []
  /\ tools_invoked (events (AIGateway.stream request modelName s)) = [].
Proof.
  destruct (heap s !! rq_messages request) as [msgs|] eqn:Hmsgs.
  - rewrite (stream_run request modelName s msgs Hmsgs).
    destruct (completion (AIGateway.attempt _ _ s)); [rewrite attempt_events; auto|].
    case_decide; [rewrite attempt_events; auto|].
    unfold and_then; cbn [events]. rewrite !attempt_events. auto.
  - rewrite AIGateway.stream_equation_1.
    assert (Hread : array_read (rq_messages request) s =
              Build_Out [] [] s
                (Throw (TypeError "Cannot read properties of undefined (reading 'map')")))
      by (unfold array_read; rewrite Hmsgs; reflexivity).
    rewrite (bind_run_throw _ _ _ _ _ _ _ Hread). auto.
Qed.

Lemma run_tools_round plugins messages responseText tc toolCalls s ms :
  heap s !! messages = Some ms ->
  exists later,
    heap (final (run_tools plugins messages responseText (tc :: toolCalls) s)) !! messages
      = Some later
    /\ tool_round ms later.
Proof.
  intros Hms. rewrite (run_tools_run _ _ _ _ _ ms) by assumption.
  cbn [final heap]. rewrite lookup_insert_eq. eexists; split; [reflexivity|].
  eexists _, _; split; [reflexivity|].
  destruct (tool_reports_messages plugins (tc :: toolCalls) (world s)) as [Hids Hroles].
  split; [reflexivity|].
  eexists; split; [reflexivity|]. split; [discriminate|]. split; [|exact Hroles].
  rewrite Hids, map_map. reflexivity.
Qed.

(** What holds of the loop from any iteration on. *)
Lemma last_after {A} (l1 : list A) x l2 l3 d :
  last l3 = Some d -> last (l1 ++ x :: l2 ++ l3) = Some d.
Proof.
  intros Hd. rewrite last_app. change (x :: l2 ++ l3) with ((x :: l2) ++ l3).
  rewrite last_app, Hd. reflexivity.
Qed.

Lemma no_warning_in_content (chunks : list StreamChunk) :
  List.filter is_warning (List.filter is_content chunks) = [].
Proof. induction chunks as [|c l IH]; [reflexivity|]. destruct c; cbn; assumption. Qed.

Lemma no_warning_in_reports plugins toolCalls w :
  List.filter is_warning (tool_reports plugins toolCalls w).1.1 = [].
Proof.
  revert w. induction toolCalls as [|tc rest IH]; intros w; [reflexivity|].
  cbn [tool_reports]. specialize (IH (invoke plugins (tc_tool tc) (tc_arguments tc) w).2).
  destruct (tool_reports plugins rest _) as [[chunks msgs] w'].
  cbn [fst snd] in *. cbn [List.filter is_warning tool_start].
  unfold report_chunk. destruct (taken _); cbn; exact IH.
Qed.

Local Ltac bound := unfold maxIterations in *; lia.

Lemma loop_invariant plugins context messages k :
  forall iterations s ms,
    maxIterations - iterations <= k ->
    heap s !! messages = Some ms ->
    let o := loop plugins context messages iterations s in
    let inputs := gateway_inputs (events o) in
    length inputs <= maxIterations - iterations
    /\ (if decide (iterations < maxIterations)
        then exists rest, inputs = ms :: rest /\ chained tool_round (ms :: rest)
        else inputs = [])
    /\ (completion o = Return tt ->
        (last (yielded o) = Some (Done None) /\ List.filter is_warning (yielded o) = [])
        \/ (last (yielded o) = Some (Warning warning_max_iterations)
            /\ length inputs = maxIterations - iterations)).
Proof.
  induction k as [|k IH]; intros iterations s ms Hk Hms o inputs.
  - assert (Hge : ~ iterations < maxIterations) by bound.
    unfold inputs, o. rewrite loop_end by assumption. cbn.
    split; [bound|]. split; [destruct (decide (iterations < maxIterations)); [bound|reflexivity]|].
    intros _. right. split; [reflexivity|bound].
  - destruct (decide (iterations < maxIterations)) as [Hlt|Hge].
    2:{ unfold inputs, o. rewrite loop_end by assumption. cbn.
        split; [bound|]. split; [destruct (decide (iterations < maxIterations)); [bound|reflexivity]|].
        intros _. right. split; [reflexivity|bound]. }
    unfold inputs, o. rewrite loop_step by assumption.
    destruct (decide (iterations < maxIterations)) as [_|]; [|contradiction].
    pose proof (model_turn_run context messages s) as Hturn. cbn zeta in Hturn.
    pose proof (stream_heap_kept (request_of context messages) None s) as Hkept.
    destruct (stream_events (request_of context messages) None s) as [Hnone _].
    set (streamed := AIGateway.stream (request_of context messages) None s) in *.
    change (heap (final streamed) = heap s) in Hkept.
    rewrite Hms in Hturn. change (default [] (Some ms)) with ms in Hturn.
    destruct (completion streamed) as [[]|e] eqn:Hcompl.
    2:{ erewrite bind_run_throw by exact Hturn. cbn [events completion].
        rewrite gateway_inputs_call, Hnone.
        split; [cbn; bound|]. split; [exists []; cbn; auto|]. discriminate. }
    erewrite bind_run by exact Hturn. cbn [fst snd].
    destruct (requests_of (yielded streamed)) as [|tc toolCalls] eqn:Hreq.
    { cbn [events yield yielded completion]. rewrite app_nil_r.
      rewrite gateway_inputs_call, Hnone.
      split; [cbn; bound|]. split; [exists []; cbn; auto|].
      intros _. left. split; [apply last_snoc|].
      rewrite List.filter_app, no_warning_in_content. reflexivity. }
    assert (Hms1 : heap (final streamed) !! messages = Some ms) by (rewrite Hkept; exact Hms).
    destruct (run_tools_round plugins messages (text_of (yielded streamed)) tc toolCalls
                (final streamed) ms Hms1) as (later & Hlater & Hround).
    pose proof (run_tools_run plugins messages (text_of (yielded streamed))
                  (tc :: toolCalls) (final streamed) ms Hms1) as Htools.
    cbn zeta in Htools.
    set (tools := run_tools plugins messages (text_of (yielded streamed))
                    (tc :: toolCalls) (final streamed)) in *.
    erewrite bind_run by exact Htools.
    assert (Hlater' : heap (final tools) !! messages = Some later) by exact Hlater.
    rewrite Htools in Hlater'. cbn [final] in Hlater'.
    specialize (IH (S iterations) _ later ltac:(unfold maxIterations in *; lia) Hlater').
    cbn zeta in IH. destruct IH as (IHlen & IHchain & IHlast).
    set (next := loop plugins context messages (S iterations) _) in *.
    cbn [events yielded completion].
    rewrite !gateway_inputs_app, gateway_inputs_invocations.
    rewrite gateway_inputs_call, Hnone. cbn [app]. split; [cbn [length]; bound|]. split.
    + eexists; split; [reflexivity|].
      destruct (decide (S iterations < maxIterations)).
      * destruct IHchain as (rest & -> & Hchain).
        cbn [chained]. split; [exact Hround|exact Hchain].
      * rewrite IHchain. cbn; auto.
    + intros Hret. destruct (IHlast Hret) as [[Hdone Hnowarn]|[Hwarn Hlen]].
      * left. split.
        -- apply last_after. exact Hdone.
        -- rewrite List.filter_app, no_warning_in_content.
           cbn [app List.filter is_warning].
           rewrite !List.filter_app, Hnowarn, no_warning_in_reports. reflexivity.
      * right. split.
        -- apply last_after. exact Hwarn.
        -- cbn [length]. rewrite Hlen. bound.
Qed.

Lemma execute_run plugins context s ms :
  heap s !! cx_messages context = Some ms ->
  execute plugins context s = loop plugins context (private_copy s) 0 (entered s ms).
Proof.
  intros Hms. unfold execute.
  erewrite bind_run by (unfold array_spread; rewrite Hms; reflexivity).
  apply out_eta.
Qed.

Lemma execute_nothing plugins context s :
  heap s !! cx_messages context = None ->
  execute plugins context s =
  Build_Out [] [] s (Throw (TypeError "undefined is not iterable")).
Proof.
  intros Hms. unfold execute.
  erewrite bind_run_throw by (unfold array_spread; rewrite Hms; reflexivity).
  reflexivity.
Qed.

Lemma entered_copy s ms : heap (entered s ms) !! private_copy s = Some ms.
Proof. apply lookup_insert_eq. Qed.

Lemma bind_return {A B} (m : Gen A) (k : A -> Gen B) s a :
  completion (m s) = Return a ->
  bind m k s = and_then (m s) (k a (final (m s))).
Proof. intros Hm. unfold bind. rewrite Hm. reflexivity. Qed.

(** C1. A run calls the gateway at most [maxIterations] = 10 times; a run
    that returns ends by the [done] chunk, without any warning, or ends by
    the warning chunk after exactly [maxIterations] calls; and the turn
    made at the last iteration, if it requests tools, is followed by the
    tools, the warning chunk and the end of the run, with no further call
    of the gateway. *)
Theorem gateway_calls_bounded plugins context s :
  let o := execute plugins context s in
  maxIterations = 10
  /\ length (gateway_inputs (events o)) <= maxIterations
  /\ (completion o = Return tt ->
      (last (yielded o) = Some (Done None) /\ List.filter is_warning (yielded o) = [])
      \/ (last (yielded o) = Some (Warning warning_max_iterations)
          /\ length (gateway_inputs (events o)) = maxIterations))
  /\ (forall messages s' ms responseText tc toolCalls,
        heap s' !! messages = Some ms ->
        completion (model_turn context messages s') = Return (responseText, tc :: toolCalls) ->
        let last_round := loop plugins context messages (maxIterations - 1) s' in
        completion last_round = Return tt
        /\ last (yielded last_round) = Some (Warning warning_max_iterations)
        /\ gateway_inputs (events last_round) = [ms]).
Proof.
  intros o. split; [reflexivity|].
  assert (Hrun : length (gateway_inputs (events o)) <= maxIterations /\
    (completion o = Return tt ->
      (last (yielded o) = Some (Done None) /\ List.filter is_warning (yielded o) = [])
      \/ (last (yielded o) = Some (Warning warning_max_iterations)
          /\ length (gateway_inputs (events o)) = maxIterations))).
  { destruct (heap s !! cx_messages context) as [ms|] eqn:Hms.
    - unfold o. rewrite (execute_run _ _ _ ms) by assumption.
      destruct (loop_invariant plugins context (private_copy s) maxIterations 0
                  (entered s ms) ms ltac:(lia) (entered_copy s ms)) as (Hlen & _ & Hlast).
      rewrite Nat.sub_0_r in Hlen, Hlast. auto.
    - unfold o. rewrite execute_nothing by assumption. cbn. split; [lia|discriminate]. }
  destruct Hrun as [Hlen Hlast]. split; [exact Hlen|]. split; [exact Hlast|].
  intros messages s' ms responseText tc toolCalls Hms Hturn last_round.
  unfold last_round. rewrite loop_step by (unfold maxIterations; lia).
  rewrite (bind_return _ _ _ _ Hturn). cbn [fst snd].
  pose proof (model_turn_run context messages s') as Hrun. cbn zeta in Hrun.
  pose proof (stream_heap_kept (request_of context messages) None s') as Hkept.
  destruct (stream_events (request_of context messages) None s') as [Hnone _].
  set (streamed := AIGateway.stream (request_of context messages) None s') in *.
  change (heap (final streamed) = heap s') in Hkept.
  assert (Hms1 : heap (final (model_turn context messages s')) !! messages = Some ms)
    by (rewrite Hrun; cbn [final]; rewrite Hkept; exact Hms).
  erewrite bind_run by (apply run_tools_run; exact Hms1).
  rewrite loop_end by (unfold maxIterations; lia).
  unfold and_then; cbn [yielded events final completion yield].
  split; [reflexivity|]. split.
  - rewrite !app_assoc. apply last_snoc.
  - rewrite Hrun. cbn [events]. rewrite Hms. change (default [] (Some ms)) with ms.
    rewrite app_nil_r, gateway_inputs_app, gateway_inputs_call, Hnone,
      gateway_inputs_invocations. reflexivity.
Qed.

(** C4. The inputs of the gateway, call by call, are chained by tool
    rounds: the first call is given the caller's messages, and each later
    call is given what the call before it was given, then one assistant
    message carrying tool calls, then exactly one tool message for each of
    these calls, under that call's id, and nothing more. *)
Theorem role_sequencing plugins context s :
  let o := execute plugins context s in
  head (gateway_inputs (events o)) = heap s !! cx_messages context
  /\ chained tool_round (gateway_inputs (events o)).
Proof.
  intros o. destruct (heap s !! cx_messages context) as [ms|] eqn:Hms.
  - unfold o. rewrite (execute_run _ _ _ ms) by assumption.
    destruct (loop_invariant plugins context (private_copy s) maxIterations 0
                (entered s ms) ms ltac:(lia) (entered_copy s ms)) as (_ & Hchain & _).
    destruct (decide (0 < maxIterations)); [|unfold maxIterations in *; lia].
    destruct Hchain as (rest & -> & Hchain). split; [reflexivity|exact Hchain].
  - unfold o. rewrite execute_nothing by assumption. cbn. auto.
Qed.

Lemma requests_of_nil chunks :
  List.filter is_tool_call chunks = [] -> requests_of chunks = [].
Proof.
  induction chunks as [|c l IH]; [reflexivity|].
  destruct c; cbn; try exact IH. discriminate.
Qed.

Lemma done_in_content (chunks : list StreamChunk) :
  List.filter is_done (List.filter is_content chunks) = [].
Proof. induction chunks as [|c l IH]; [reflexivity|]. destruct c; cbn; assumption. Qed.

(** C5. When the first turn of the model completes without a tool-call
    chunk, the run forwards the content chunks of that turn, yields one
    [done] chunk, its only one, and returns; the gateway was called once,
    with the caller's messages, and no tool was invoked. *)
Theorem no_tool_call_one_done plugins context s ms :
  heap s !! cx_messages context = Some ms ->
  let turn := AIGateway.stream (request_of context (private_copy s)) None (entered s ms) in
  completion turn = Return tt ->
  List.filter is_tool_call (yielded turn) = [] ->
  let o := execute plugins context s in
  completion o = Return tt
  /\ yielded o = List.filter is_content (yielded turn) ++ [Done None]
  /\ length (List.filter is_done (yielded o)) = 1
  /\ gateway_inputs (events o) = [ms]
  /\ tools_invoked (events o) = [].
Proof.
  intros Hms turn Hreturn Hnone o.
  unfold o. rewrite (execute_run _ _ _ ms) by assumption.
  rewrite loop_step by (unfold maxIterations; lia).
  pose proof (model_turn_run context (private_copy s) (entered s ms)) as Hrun.
  cbn zeta in Hrun. fold turn in Hrun.
  rewrite Hreturn, (requests_of_nil _ Hnone), entered_copy in Hrun.
  change (default [] (Some ms)) with ms in Hrun.
  erewrite bind_run by exact Hrun. cbn [fst snd yield yielded events final completion].
  destruct (stream_events (request_of context (private_copy s)) None (entered s ms))
    as [Hg Ht]. fold turn in Hg, Ht.
  split; [reflexivity|]. split; [reflexivity|]. split.
  - rewrite List.filter_app, done_in_content. reflexivity.
  - rewrite app_nil_r, gateway_inputs_call, Hg. split; [reflexivity|].
    cbn [tools_invoked omap]. exact Ht.
Qed.
End PlannerLoop.

(** ** Tool results and tool failures *)

Section ToolReports.
Context `{Runtime}.
Import TaskPlanner.

Lemma length_append (a b : string) :
  String.length (a +:+ b) = String.length a + String.length b.
Proof.
  induction a as [|x a IH]; [reflexivity|].
  change (S (String.length (a +:+ b)) = S (String.length a + String.length b)).
  congruence.
Qed.

Lemma length_substring (n : nat) (text : string) :
  n <= String.length text -> String.length (String.substring 0 n text) = n.
Proof.
  revert text. induction n as [|n IH]; intros text Hn.
  - destruct text; reflexivity.
  - destruct text as [|x text]; [cbn in Hn; lia|].
    change (S (String.length (String.substring 0 n text)) = S n).
    rewrite IH; [reflexivity|]. cbn in Hn. lia.
Qed.

(** The rendering of a result is at most 200 characters and the
    ellipsis. *)
Lemma truncate_length (text : string) : String.length (truncate text) <= 203.
Proof.
  unfold truncate. case_decide; [|lia].
  rewrite length_append, length_substring by lia. cbn. lia.
Qed.

(** C8, as the code has it. For a tool that returns a string of 500
    characters, the content of the [tool_result] chunk is the prefix
    [> Result: ], then the rendering of the result, which is its first 200
    characters and the ellipsis, 203 characters, then a line feed: 214
    characters in all; the tool message appended to the conversation
    carries the 500 characters of the result. *)
Theorem long_result_rendered_short_kept_whole plugins messages tc s ms tool text w :
  heap s !! messages = Some ms ->
  plugins !! tc_tool tc = Some tool ->
  PluginManager.tool_execute tool (tc_arguments tc) (world s) = (inr (Some (JString text)), w) ->
  String.length text = 500 ->
  let o := run_tool plugins messages tc s in
  let rendering := String.substring 0 200 text +:+ "..." in
  yielded o = [tool_start tc; ToolResult (tc_tool tc) ("> Result: " +:+ rendering +:+ nl)]
  /\ String.length rendering = 203
  /\ String.length ("> Result: " +:+ rendering +:+ nl) = 214
  /\ heap (final o) !! messages = Some (ms ++ [tool_message tc text])
  /\ String.length (content (tool_message tc text)) = 500
  /\ completion o = Return tt.
Proof.
  intros Hms Htool Hexec Hlen o rendering.
  assert (Hrendering : String.length rendering = 203).
  { unfold rendering. rewrite length_append, length_substring by lia. reflexivity. }
  unfold o. rewrite (run_tool_run _ _ _ _ ms) by assumption.
  unfold invoke. rewrite Htool, Hexec.
  cbn [fst snd yielded final completion heap report_chunk report_text taken shown serialize].
  unfold truncate. rewrite decide_True by lia. fold rendering.
  split; [reflexivity|]. split; [exact Hrendering|]. split.
  - rewrite !length_append, Hrendering. reflexivity.
  - rewrite lookup_insert_eq. auto.
Qed.


Lemma tool_reports_length plugins toolCalls w :
  length (tool_reports plugins toolCalls w).1.2 = length toolCalls.
Proof.
  rewrite <- (length_map tool_call_id).
  rewrite (proj1 (tool_reports_messages plugins toolCalls w)). apply length_map.
Qed.

End ToolReports.

(** ** Argument text that does not parse *)

Section MalformedArguments.
Context `{Runtime}.
Import AIGateway TaskPlanner.

Lemma produces_ret {A} Y E (a : A) : produces Y E (ret a).
Proof. intros s. split; [constructor|discriminate]. Qed.

Lemma produces_yield Y E c : Y c -> produces Y E (yield c).
Proof. intros Hc s. split; [repeat constructor; exact Hc|discriminate]. Qed.

Lemma produces_throw {A} Y (E : Exn -> Prop) e : E e -> produces Y E (@throw _ A e).
Proof. intros He s. split; [constructor|]. intros e' [= <-]. exact He. Qed.

Lemma produces_record Y E ev : produces Y E (record ev).
Proof. intros s. split; [constructor|discriminate]. Qed.

Lemma produces_external {A} Y E (f : World -> A * World) : produces Y E (external f).
Proof.
  intros s. unfold external. destruct (f (world s)). split; [constructor|discriminate].
Qed.

Lemma produces_bind {A B} Y E (m : Gen A) (k : A -> Gen B) :
  produces Y E m -> (forall a, produces Y E (k a)) -> produces Y E (bind m k).
Proof.
  intros Hm Hk s. unfold bind. destruct (Hm s) as [Hy He].
  destruct (completion (m s)) as [a|e] eqn:Hc.
  - destruct (Hk a (final (m s))) as [Hy' He'].
    unfold and_then; cbn [yielded completion]. split; [apply Forall_app; auto|exact He'].
  - cbn [yielded completion]. split; [exact Hy|]. intros e' [= <-]. auto.
Qed.

Lemma produces_try_catch {A} Y E E' (m : Gen A) (handler : Exn -> Gen A) :
  produces Y E' m -> (forall e, E' e -> produces Y E (handler e)) ->
  produces Y E (try_catch m handler).
Proof.
  intros Hm Hh s. unfold try_catch. destruct (Hm s) as [Hy He].
  destruct (completion (m s)) as [a|e] eqn:Hc.
  - split; [exact Hy|]. rewrite Hc. discriminate.
  - destruct (Hh e (He e eq_refl) (final (m s))) as [Hy' He'].
    unfold and_then; cbn [yielded completion]. split; [apply Forall_app; auto|exact He'].
Qed.

Lemma produces_for_of {A} Y E (l : list A) (body : A -> Gen unit) :
  (forall x, produces Y E (body x)) -> produces Y E (for_of l body).
Proof.
  intros Hb. induction l as [|x l IH]; simpl.
  - apply produces_ret.
  - apply produces_bind; [apply Hb|intros _; exact IH].
Qed.

Lemma produces_for_of_acc {A S} Y E (l : list A) (acc : S) (body : S -> A -> Gen S) :
  (forall acc x, produces Y E (body acc x)) -> produces Y E (for_of_acc l acc body).
Proof.
  intros Hb. revert acc. induction l as [|x l IH]; intros acc; simpl.
  - apply produces_ret.
  - apply produces_bind; [apply Hb|intros acc'; apply IH].
Qed.

(** The accumulator of a tool call whose argument text does not parse
    yields no chunk and throws. *)
Lemma malformed_arguments_throw model a msg s :
  truthy (acc_name a) = true ->
  JSON_parse (or_else (acc_arguments a) "{}") = inr msg ->
  emit_tool_call model (Some a) s = Build_Out [] [] s (Throw (SyntaxError msg)).
Proof.
  intros Hname Hparse. unfold emit_tool_call. rewrite Hname.
  unfold bind, parse. rewrite Hparse. reflexivity.
Qed.

Lemma emit_tool_call_produces model tc :
  produces gateway_chunk of_malformed_arguments (emit_tool_call model tc).
Proof.
  unfold emit_tool_call. destruct tc as [a|]; [|apply produces_throw; exact I].
  destruct (truthy (acc_name a)) eqn:Hname; [|apply produces_ret].
  apply produces_bind.
  - unfold parse. destruct (JSON_parse _) as [v|msg] eqn:Hparse.
    + apply produces_ret.
    + apply produces_throw. exists a. auto.
  - intros args. apply produces_yield. reflexivity.
Qed.

Lemma on_chunk_produces model toolCalls chunk :
  produces gateway_chunk of_malformed_arguments (on_chunk model toolCalls chunk).
Proof.
  unfold on_chunk. apply produces_bind.
  - destruct (_ ≫= d_content) as [c|]; [destruct (truthy c)|];
      try apply produces_ret. apply produces_yield. reflexivity.
  - intros _. apply produces_bind; [|intros _; apply produces_ret].
    case_decide; [|apply produces_ret].
    apply produces_for_of. intros tc. apply emit_tool_call_produces.
Qed.

Lemma attempt_produces model params :
  produces gateway_chunk of_malformed_arguments (attempt model params).
Proof.
  unfold attempt. apply produces_bind; [apply produces_record|]. intros _.
  apply produces_bind; [apply produces_external|]. intros response.
  apply produces_bind;
    [apply produces_for_of_acc; intros; apply on_chunk_produces|]. intros _.
  apply produces_bind.
  - destruct (rs_failure response); [apply produces_throw; exact I|apply produces_ret].
  - intros _. apply produces_yield. reflexivity.
Qed.

Lemma stream_produces request modelName :
  produces gateway_chunk of_malformed_arguments (stream request modelName).
Proof.
  funelim (stream request modelName).
  apply produces_bind.
  - intros s. unfold array_read. destruct (heap s !! _); split;
      try constructor; try discriminate. intros e [= <-]. exact I.
  - intros msgs.
    apply produces_try_catch with (E' := of_malformed_arguments);
      [apply attempt_produces|].
    intros error Herror. case_decide as Hne.
    + intros s.
      match goal with
      | IH : context [produces _ _ _] |- _ => exact (IH msgs error Hne s s)
      end.
    + apply produces_throw. exact Herror.
Qed.

Lemma no_tool_error_in_gateway_chunks (chunks : list StreamChunk) :
  Forall gateway_chunk chunks -> List.filter is_tool_error chunks = [].
Proof.
  induction 1 as [|c l Hc _ IH]; [reflexivity|].
  destruct c; cbn in *; try exact IH; discriminate.
Qed.
End MalformedArguments.

(** ** The registry's tables *)

Section MapFacts.
Context {V : Type}.
Implicit Types (m : list (string * V)) (k : string) (v : V).

Lemma get_set_entry m k k' v :
  JsMap.get k' (JsMap.set_entry k v m) = if decide (k' = k) then Some v else JsMap.get k' m.
Proof.
  induction m as [|[k0 v0] m IH]; simpl.
  - destruct (decide (k = k')), (decide (k' = k)); congruence.
  - destruct (decide (k0 = k)) as [->|Hne]; simpl.
    + destruct (decide (k = k')), (decide (k' = k)); congruence.
    + destruct (decide (k0 = k')) as [->|Hne'].
      * destruct (decide (k' = k)); congruence.
      * exact IH.
Qed.

Lemma keys_set_entry m k v :
  JsMap.keys (JsMap.set_entry k v m) =
  if decide (k ∈ JsMap.keys m) then JsMap.keys m else JsMap.keys m ++ [k].
Proof.
  unfold JsMap.keys. induction m as [|[k0 v0] m IH].
  - destruct (decide (k ∈ map fst [])) as [Hin|_]; [|reflexivity].
    apply elem_of_nil in Hin as [].
  - cbn [JsMap.set_entry]. destruct (decide (k0 = k)) as [->|Hne].
    + destruct (decide (k ∈ map fst ((k, v0) :: m))) as [_|Hout]; [reflexivity|].
      exfalso. apply Hout, list_elem_of_here.
    + cbn [map fst]. rewrite IH.
      destruct (decide (k ∈ map fst m)) as [Hin|Hout],
               (decide (k ∈ k0 :: map fst m)) as [Hin'|Hout']; try reflexivity.
      * exfalso. apply Hout', list_elem_of_further, Hin.
      * exfalso. apply elem_of_cons in Hin' as [->|Hin']; [congruence|auto].
Qed.

Lemma keys_set_entry_prefix m k v :
  JsMap.keys m `prefix_of` JsMap.keys (JsMap.set_entry k v m).
Proof.
  rewrite keys_set_entry. destruct (decide (k ∈ JsMap.keys m)).
  - reflexivity.
  - apply prefix_app_r. reflexivity.
Qed.

Lemma keys_set_entry_NoDup m k v :
  NoDup (JsMap.keys m) -> NoDup (JsMap.keys (JsMap.set_entry k v m)).
Proof.
  intros Hm. rewrite keys_set_entry. destruct (decide (k ∈ JsMap.keys m)); [exact Hm|].
  apply NoDup_app. split; [exact Hm|]. split.
  - intros x Hx Hk. apply list_elem_of_singleton in Hk as ->. auto.
  - apply NoDup_singleton.
Qed.

Lemma set_entry_elem_of m k v entry :
  entry ∈ JsMap.set_entry k v m -> entry = (k, v) \/ entry ∈ m.
Proof.
  induction m as [|[k0 v0] m IH]; simpl.
  - intros Hin. apply list_elem_of_singleton in Hin. auto.
  - destruct (decide (k0 = k)) as [->|Hne]; intros Hin;
      apply elem_of_cons in Hin as [->|Hin]; auto.
    + right. apply list_elem_of_further. exact Hin.
    + right. apply list_elem_of_here.
    + destruct (IH Hin) as [->|Hin']; auto. right. apply list_elem_of_further. exact Hin'.
Qed.

Lemma get_None m k : JsMap.get k m = None <-> k ∉ JsMap.keys m.
Proof.
  unfold JsMap.keys. induction m as [|[k0 v0] m IH]; simpl.
  - split; [intros _; apply not_elem_of_nil|reflexivity].
  - destruct (decide (k0 = k)) as [->|Hne].
    + split; [discriminate|]. intros Hout. exfalso. apply Hout, list_elem_of_here.
    + rewrite IH. split.
      * intros Hout Hin. apply elem_of_cons in Hin as [->|Hin]; [congruence|auto].
      * intros Hout Hin. apply Hout, list_elem_of_further, Hin.
Qed.

Lemma get_elem_of m k v :
  NoDup (JsMap.keys m) -> (k, v) ∈ m -> JsMap.get k m = Some v.
Proof.
  unfold JsMap.keys. induction m as [|[k0 v0] m IH]; simpl; intros Hm Hin.
  - apply elem_of_nil in Hin as [].
  - apply NoDup_cons in Hm as [Hk0 Hm].
    apply elem_of_cons in Hin as [Heq|Hin].
    + inversion Heq; subst. rewrite decide_True by reflexivity. reflexivity.
    + destruct (decide (k0 = k)) as [->|Hne]; [|auto].
      exfalso. apply Hk0. apply (list_elem_of_fmap_2 fst) in Hin. exact Hin.
Qed.

(** The table as the finite map that [execute] looks a name up in. *)
Lemma get_list_to_map m k : (list_to_map m : gmap string V) !! k = JsMap.get k m.
Proof.
  induction m as [|[k0 v0] m IH]; simpl.
  - apply lookup_empty.
  - destruct (decide (k0 = k)) as [->|Hne].
    + apply lookup_insert_eq.
    + rewrite lookup_insert_ne by exact Hne. exact IH.
Qed.

Lemma get_set_entries_other entries m k :
  k ∉ JsMap.keys entries -> JsMap.get k (JsMap.set_entries m entries) = JsMap.get k m.
Proof.
  unfold JsMap.set_entries, JsMap.keys. revert m.
  induction entries as [|[k0 v0] entries IH]; intros m Hout; simpl; [reflexivity|].
  rewrite IH.
  - rewrite get_set_entry. simpl. rewrite decide_False; [reflexivity|].
    intros ->. apply Hout, list_elem_of_here.
  - intros Hin. apply Hout, list_elem_of_further, Hin.
Qed.

(** Of entries with different keys, each is found after they are set, in
    whatever table. *)
Lemma get_set_entries entries m :
  NoDup (JsMap.keys entries) ->
  Forall (fun entry => JsMap.get entry.1 (JsMap.set_entries m entries) = Some entry.2) entries.
Proof.
  unfold JsMap.keys. revert m.
  induction entries as [|[k0 v0] entries IH]; intros m Hnd; [constructor|].
  apply NoDup_cons in Hnd as [Hk0 Hnd]. constructor.
  - simpl. change (foldl _ ?a entries) with (JsMap.set_entries a entries).
    rewrite get_set_entries_other by exact Hk0.
    rewrite get_set_entry. rewrite decide_True by reflexivity. reflexivity.
  - apply IH. exact Hnd.
Qed.

Lemma keys_set_entries_prefix entries m :
  JsMap.keys m `prefix_of` JsMap.keys (JsMap.set_entries m entries).
Proof.
  unfold JsMap.set_entries. revert m.
  induction entries as [|[k0 v0] entries IH]; intros m; simpl; [reflexivity|].
  etransitivity; [apply (keys_set_entry_prefix m k0 v0)|apply IH].
Qed.
End MapFacts.

Section RegistryFacts.
Context `{Runtime} (host : Registry.Host).
Import Registry.

Lemma set_entry_filed tools k tool :
  filed_by_name tools -> name (PluginManager.definition tool) = k ->
  filed_by_name (JsMap.set_entry k tool tools).
Proof.
  intros [Hkeys Hnames] Hk. split.
  - apply keys_set_entry_NoDup, Hkeys.
  - apply Forall_forall. intros entry Hin.
    apply set_entry_elem_of in Hin as [->|Hin]; [exact Hk|].
    rewrite Forall_forall in Hnames. apply Hnames, Hin.
Qed.

Lemma set_entries_filed entries tools :
  filed_by_name tools ->
  Forall (fun entry => name (PluginManager.definition entry.2) = entry.1) entries ->
  filed_by_name (JsMap.set_entries tools entries).
Proof.
  unfold JsMap.set_entries. revert tools.
  induction entries as [|[k tool] entries IH]; intros tools Htools Hentries; simpl;
    [exact Htools|].
  apply Forall_cons in Hentries as [Hk Hentries].
  apply IH; [|exact Hentries]. apply set_entry_filed; assumption.
Qed.

Lemma builtin_tools_named :
  Forall (fun entry => name (PluginManager.definition entry.2) = entry.1) (builtin_tools host).
Proof. repeat constructor. Qed.

Lemma builtin_tools_keys :
  JsMap.keys (builtin_tools host) =
  ["get_current_time"; "calculate"; "open_app"; "run_command"; "web_search"].
Proof. reflexivity. Qed.

Lemma builtin_tools_distinct : NoDup (JsMap.keys (builtin_tools host)).
Proof.
  rewrite builtin_tools_keys.
  repeat (apply NoDup_cons; split;
          [rewrite ?elem_of_cons, elem_of_nil; intros Hin;
           repeat (destruct Hin as [Hin|Hin]; [discriminate|]); exact Hin|]).
  apply NoDup_nil. exact I.
Qed.

Lemma set_tools_entries pluginName entries tools :
  (set_tools pluginName entries tools).2
  = JsMap.set_entries tools
      (map (fun tool => (name (to_definition tool), registered pluginName tool))
         (leading entries)).
Proof.
  revert tools. induction entries as [|[| |tool] entries IH]; intros tools; try reflexivity.
  cbn [set_tools leading map]. rewrite IH. reflexivity.
Qed.

Lemma set_tools_thrown pluginName entries tools :
  (set_tools pluginName entries tools).1 = None
  <-> forallb (fun entry => match entry with Tool _ => true | _ => false end) entries = true.
Proof.
  revert tools. induction entries as [|[| |tool] entries IH]; intros tools; cbn;
    [tauto|split; discriminate..|apply IH].
Qed.

(** The tables and the counter after [register]. *)
Lemma register_run pluginName plugin r :
  let listed :=
    match pl_tools plugin with
    | Listed entries => leading entries
    | _ => []
    end in
  plugins (register pluginName plugin r).2 = JsMap.set_entry pluginName plugin (plugins r)
  /\ tools (register pluginName plugin r).2
     = JsMap.set_entries (tools r)
         (map (fun tool => (name (to_definition tool), registered pluginName tool)) listed)
  /\ ((register pluginName plugin r).1 = None <-> well_listed plugin = true)
  /\ count (register pluginName plugin r).2
     = if well_listed plugin then S (count r) else count r.
Proof.
  unfold register, well_listed. destruct (pl_tools plugin) as [| |entries]; cbn.
  - tauto.
  - repeat split; discriminate.
  - pose proof (set_tools_entries pluginName entries (tools r)) as Htools.
    pose proof (set_tools_thrown pluginName entries (tools r)) as Hthrown.
    destruct (set_tools pluginName entries (tools r)) as [thrown tools'].
    cbn in *. split; [reflexivity|]. split; [exact Htools|]. split; [exact Hthrown|].
    destruct (forallb _ entries); destruct thrown as [e|]; try reflexivity.
    + destruct Hthrown as [_ Hthrown]. discriminate (Hthrown eq_refl).
    + destruct Hthrown as [Hthrown _]. discriminate (Hthrown eq_refl).
Qed.

Lemma register_filed pluginName plugin r :
  filed_by_name (tools r) -> filed_by_name (tools (register pluginName plugin r).2).
Proof.
  intros Hr. destruct (register_run pluginName plugin r) as (_ & -> & _).
  apply set_entries_filed; [exact Hr|].
  apply Forall_fmap, Forall_forall. intros tool _. reflexivity.
Qed.

Lemma registerBuiltInTools_filed r :
  filed_by_name (tools r) -> filed_by_name (tools (registerBuiltInTools host r)).
Proof. intros Hr. apply set_entries_filed; [exact Hr|apply builtin_tools_named]. Qed.

(** What holds of a manager and is kept by [register] holds after the
    plugins of a list are loaded. *)
Lemma load_invariant (P : Registry -> Prop) imported names r :
  (forall pluginName plugin r, P r -> P (register pluginName plugin r).2) ->
  P r ->
  P (foldl (fun r pluginName =>
              match imported pluginName with
              | Some plugin => (register pluginName plugin r).2
              | None => r
              end) r names).
Proof.
  intros Hregister. revert r.
  induction names as [|pluginName names IH]; intros r Hr; simpl; [exact Hr|].
  apply IH. destruct (imported pluginName); auto.
Qed.

Lemma initialize_filed directory imported r :
  filed_by_name (tools r) -> filed_by_name (tools (initialize host directory imported r)).
Proof.
  intros Hr. unfold initialize. destruct directory.
  - apply registerBuiltInTools_filed.
    apply (load_invariant (fun r => filed_by_name (tools r))); [|exact Hr].
    intros pluginName plugin r'. apply register_filed.
  - apply registerBuiltInTools_filed, Hr.
Qed.

Lemma perform_filed r op :
  filed_by_name (tools r) -> filed_by_name (tools (perform host r op)).
Proof.
  intros Hr. destruct op; simpl.
  - apply register_filed, Hr.
  - apply registerBuiltInTools_filed, Hr.
  - apply initialize_filed, Hr.
  - split; [apply NoDup_nil; exact I|constructor].
Qed.

Lemma after_filed ops : filed_by_name (tools (after host ops)).
Proof.
  unfold after.
  assert (Hcreated : filed_by_name (tools created))
    by (split; [apply NoDup_nil; exact I|constructor]).
  revert Hcreated. generalize created.
  induction ops as [|op ops IH]; intros r Hr; simpl; [exact Hr|].
  apply IH, perform_filed, Hr.
Qed.

Lemma announced_keys r : filed_by_name (tools r) -> announced r = JsMap.keys (tools r).
Proof.
  intros [_ Hnames]. unfold announced, getToolDefinitions, JsMap.values, JsMap.keys.
  rewrite <- !list_fmap_compose. apply Forall_fmap_ext_1.
  eapply Forall_impl; [exact Hnames|]. intros entry Hentry. exact Hentry.
Qed.

(** X1. Whatever plugins were registered, under whatever names and in
    whatever order, and however often the manager was initialised or
    unloaded, no two of the definitions announced to the model have the
    same name. *)
Theorem announced_names_distinct ops : NoDup (announced (after host ops)).
Proof.
  rewrite announced_keys by apply after_filed. apply after_filed.
Qed.

Lemma registry_execute_run r toolName args s :
  Registry.execute r toolName args s =
  Build_Out [] [ToolInvocation toolName args]
    {| world :=
         (match JsMap.get toolName (tools r) with
          | None => (inl (Error ("Unknown tool: " +:+ toolName)), world s)
          | Some tool => PluginManager.tool_execute tool args (world s)
          end).2;
       heap := heap s |}
    (completion_of
       (match JsMap.get toolName (tools r) with
        | None => (inl (Error ("Unknown tool: " +:+ toolName)), world s)
        | Some tool => PluginManager.tool_execute tool args (world s)
        end).1).
Proof.
  unfold Registry.execute. rewrite plugins_execute_run. unfold invoke.
  rewrite get_list_to_map. reflexivity.
Qed.

(** X2. Every definition the registry announces can be executed: a call
    under its name is not answered by [Unknown tool], it runs the function
    of a tool that has this very definition, and ends as that function
    ends. *)
Theorem announced_tool_is_executed ops d args s :
  d ∈ getToolDefinitions (after host ops) ->
  exists tool,
    PluginManager.definition tool = d /\
    let called := PluginManager.tool_execute tool args (world s) in
    Registry.execute (after host ops) (name d) args s =
    Build_Out [] [ToolInvocation (name d) args]
      {| world := called.2; heap := heap s |} (completion_of called.1).
Proof.
  intros Hd. destruct (after_filed ops) as [Hkeys Hnames].
  unfold getToolDefinitions, JsMap.values in Hd.
  apply list_elem_of_fmap in Hd as (tool & -> & Htool).
  apply list_elem_of_fmap in Htool as ([k tool'] & -> & Hentry).
  exists tool'. split; [reflexivity|]. simpl.
  rewrite Forall_forall in Hnames. pose proof (Hnames _ Hentry) as Hk. simpl in Hk.
  rewrite registry_execute_run, Hk.
  rewrite (get_elem_of _ _ _ Hkeys Hentry). reflexivity.
Qed.

(** X3. A call under a name that is not announced runs nothing: it throws
    [Unknown tool: ] and the name, and leaves the state as it was. *)
Theorem unannounced_tool_is_unknown ops toolName args s :
  toolName ∉ announced (after host ops) ->
  Registry.execute (after host ops) toolName args s =
  Build_Out [] [ToolInvocation toolName args] s
    (Throw (Error ("Unknown tool: " +:+ toolName))).
Proof.
  intros Hout. rewrite announced_keys in Hout by apply after_filed.
  apply get_None in Hout. rewrite registry_execute_run, Hout. destruct s. reflexivity.
Qed.

(** X4. After [initialize], whatever the plugins that were loaded, each of
    the five built-in names is answered by the built-in tool: a plugin's
    tool of the same name, such as the web plugin's [web_search], is
    replaced. *)
Theorem builtin_tools_win directory imported r :
  Forall (fun entry =>
            JsMap.get entry.1 (tools (initialize host directory imported r)) = Some entry.2
            /\ PluginManager.plugin entry.2 = None)
    (builtin_tools host).
Proof.
  apply Forall_and. split.
  - unfold initialize. destruct directory; apply get_set_entries, builtin_tools_distinct.
  - repeat constructor.
Qed.

(** X5. Registering never removes or moves a name: the names there before
    [register], [registerBuiltInTools] or [initialize] are, in their order,
    the first names after it, so a tool that replaces another takes its
    place and a new tool goes to the end. *)
Theorem registration_keeps_order r :
  (forall pluginName plugin,
     JsMap.keys (tools r) `prefix_of` JsMap.keys (tools (register pluginName plugin r).2))
  /\ JsMap.keys (tools r) `prefix_of` JsMap.keys (tools (registerBuiltInTools host r))
  /\ (forall directory imported,
        JsMap.keys (tools r)
          `prefix_of` JsMap.keys (tools (initialize host directory imported r))).
Proof.
  assert (Hregister : forall pluginName plugin r,
            JsMap.keys (tools r)
              `prefix_of` JsMap.keys (tools (register pluginName plugin r).2)).
  { intros pluginName plugin r'. destruct (register_run pluginName plugin r') as (_ & -> & _).
    apply keys_set_entries_prefix. }
  split; [intros; apply Hregister|]. split; [apply keys_set_entries_prefix|].
  intros directory imported. unfold initialize. destruct directory.
  - etransitivity; [|apply keys_set_entries_prefix].
    apply (load_invariant
             (fun r' => JsMap.keys (tools r) `prefix_of` JsMap.keys (tools r')));
      [|reflexivity].
    intros pluginName plugin r' Hr'. etransitivity; [exact Hr'|apply Hregister].
  - apply keys_set_entries_prefix.
Qed.

(** [initialize] raises [count] by the number of the enabled plugins that
    are imported and whose registration returns. *)
Lemma loaded_count imported names r :
  count (foldl (fun r pluginName =>
                  match imported pluginName with
                  | Some plugin => (register pluginName plugin r).2
                  | None => r
                  end) r names)
  = count r + length (List.filter well_listed (omap imported names)).
Proof.
  revert r. induction names as [|pluginName names IH]; intros r; cbn [foldl].
  - cbn. lia.
  - rewrite IH.
    change (omap imported (pluginName :: names))
      with (match imported pluginName with
            | Some plugin => plugin :: omap imported names
            | None => omap imported names
            end).
    destruct (imported pluginName) as [plugin|]; [|reflexivity].
    destruct (register_run pluginName plugin r) as (_ & _ & _ & ->).
    cbn [List.filter]. destruct (well_listed plugin); cbn [length]; lia.
Qed.

(** X6. [count] counts the calls of [register] that returned since the
    manager was made or last unloaded, those made by [initialize] among
    them, and nothing else: a call of [register] sets the plugin under its
    name, and it returns, and raises [count] by one, exactly when the
    plugin's [tools] is missing, falsy or an array of tool objects;
    otherwise it throws after the plugin was set, and leaves [count] as it
    was.  So [count] is not the number of plugins held: a plugin registered
    again under its name is held once and counted twice, and one whose
    registration threw is held and not counted. *)
Theorem plugins_counted ops :
  count (after host ops) = registrations ops
  /\ (forall pluginName plugin r,
        JsMap.get pluginName (plugins (register pluginName plugin r).2) = Some plugin
        /\ ((register pluginName plugin r).1 = None <-> well_listed plugin = true)
        /\ count (register pluginName plugin r).2
           = if well_listed plugin then S (count r) else count r)
  /\ (forall pluginName plugin,
        let twice := after host [Register pluginName plugin; Register pluginName plugin] in
        JsMap.keys (plugins twice) = [pluginName]
        /\ count twice = if well_listed plugin then 2 else 0).
Proof.
  assert (Hcount : forall ops r n,
            count r = n ->
            count (foldl (perform host) r ops)
            = foldl (fun n op =>
                       match op with
                       | Register _ plugin => if well_listed plugin then S n else n
                       | RegisterBuiltInTools => n
                       | Initialize directory imported =>
                           if directory
                           then n + length (List.filter well_listed (omap imported enabled))
                           else n
                       | UnloadAll => 0
                       end) n ops).
  { clear ops. induction ops as [|op ops IH]; intros r n Hr; cbn [foldl]; [exact Hr|].
    apply IH. destruct op as [pluginName plugin| |directory imported|]; cbn [perform].
    - destruct (register_run pluginName plugin r) as (_ & _ & _ & ->).
      rewrite Hr. reflexivity.
    - exact Hr.
    - unfold initialize.
      destruct directory; unfold registerBuiltInTools; cbn [count]; [|exact Hr].
      rewrite loaded_count, Hr. reflexivity.
    - reflexivity. }
  split; [apply Hcount; reflexivity|]. split.
  - intros pluginName plugin r.
    destruct (register_run pluginName plugin r) as (-> & _ & Hthrown & ->).
    split; [rewrite get_set_entry, decide_True by reflexivity; reflexivity|].
    split; [exact Hthrown|reflexivity].
  - intros pluginName plugin twice. subst twice. unfold after. cbn [foldl perform].
    set (once := (register pluginName plugin created).2).
    destruct (register_run pluginName plugin once) as (-> & _ & _ & ->).
    subst once.
    destruct (register_run pluginName plugin created) as (-> & _ & _ & ->).
    cbn. rewrite decide_True by reflexivity.
    split; [reflexivity|]. destruct (well_listed plugin); reflexivity.
Qed.

(** X7. The capability summary of the system prompt has one line for each
    definition announced to the model, in the order of the definitions,
    made of its name and its description. *)
Theorem capability_summary_lists_definitions ops :
  getCapabilitySummary (after host ops) =
  join nl (map capability (getToolDefinitions (after host ops))).
Proof.
  destruct (after_filed ops) as [_ Hnames].
  unfold getCapabilitySummary, getToolDefinitions, JsMap.values. f_equal.
  rewrite <- !list_fmap_compose. apply Forall_fmap_ext_1.
  eapply Forall_impl; [exact Hnames|]. intros entry Hentry. simpl.
  unfold capability. rewrite Hentry. reflexivity.
Qed.
End RegistryFacts.

(** ** The calculator *)

Section CalculatorFacts.
Context `{Runtime}.
Import Calculator Registry.

Lemma kept_names_nothing c : kept c = true -> names_something c = false.
Proof.
  destruct c as [[] [] [] [] [] [] [] []]; vm_compute; congruence.
Qed.

Lemma characters_sanitize expression :
  characters (sanitize expression) = List.filter kept (characters expression).
Proof.
  induction expression as [|c rest IH]; simpl; [reflexivity|].
  destruct (kept c); simpl; congruence.
Qed.

Lemma characters_inj a b : characters a = characters b -> a = b.
Proof.
  revert b. induction a as [|c a IH]; intros [|c' b]; simpl; try congruence.
  intros Heq. inversion Heq; subst. f_equal. apply IH. assumption.
Qed.

Lemma filter_all {A} (f : A -> bool) l : List.filter f l = l <-> Forall (fun x => f x = true) l.
Proof.
  induction l as [|x l IH]; simpl.
  - split; [constructor|reflexivity].
  - destruct (f x) eqn:Hx.
    + split.
      * intros Heq. inversion Heq as [Heq']. rewrite Heq'. constructor; [exact Hx|].
        apply IH, Heq'.
      * intros Hall. apply Forall_cons in Hall as [_ Hall]. f_equal. apply IH, Hall.
    + split.
      * intros Heq. exfalso.
        assert (Hlen : length (List.filter f l) <= length l) by apply List.filter_length_le.
        rewrite Heq in Hlen. simpl in Hlen. lia.
      * intros Hall. apply Forall_cons in Hall as [Hx' _]. congruence.
Qed.

Lemma filter_kept l : Forall (fun c => kept c = true) (List.filter kept l).
Proof.
  apply Forall_forall. intros c Hin. apply list_elem_of_In, List.filter_In in Hin. tauto.
Qed.

(** X8. What the calculator hands to [Function] is made of digits, the
    signs [+ - * / ( ) . %] and white space only: no letter, underscore,
    dollar sign, quotation mark or backslash is left, so the text names
    nothing.  Cleaning a cleaned text changes nothing, and the texts that
    pass unchanged are those made of these characters. *)
Theorem sanitize_leaves_arithmetic expression :
  Forall (fun c => kept c = true /\ names_something c = false)
    (characters (sanitize expression))
  /\ sanitize (sanitize expression) = sanitize expression
  /\ (sanitize expression = expression
      <-> Forall (fun c => kept c = true) (characters expression)).
Proof.
  split; [|split].
  - rewrite characters_sanitize. eapply Forall_impl; [apply filter_kept|].
    intros c Hc. split; [exact Hc|apply kept_names_nothing, Hc].
  - apply characters_inj. rewrite !characters_sanitize.
    apply filter_all, filter_kept.
  - rewrite <- filter_all, <- characters_sanitize. split.
    + intros ->. reflexivity.
    + apply characters_inj.
Qed.

(** X9. The calculator asks the evaluator about cleaned text only: two
    evaluators that agree on the texts made of digits, signs and white
    space give the same answer on every expression. *)
Theorem calculate_evaluates_arithmetic_only
    (evaluate evaluate' : string -> Exn + string) expression :
  (forall text, Forall (fun c => kept c = true) (characters text) ->
                evaluate text = evaluate' text) ->
  calculate evaluate expression = calculate evaluate' expression.
Proof.
  intros Hagree. unfold calculate. rewrite Hagree; [reflexivity|].
  rewrite characters_sanitize. apply filter_kept.
Qed.

Lemma Json_values_ind (P : Json -> Prop) :
  P JNull -> (forall b, P (JBool b)) -> (forall n, P (JNumber n)) ->
  (forall s, P (JString s)) ->
  (forall items, Forall P items -> P (JArray items)) ->
  (forall fields, P (JObject fields)) ->
  forall v, P v.
Proof.
  intros Hnull Hbool Hnumber Hstring Harray Hobject.
  fix IH 1. intros [|b|n|s|items|fields].
  - exact Hnull.
  - apply Hbool.
  - apply Hnumber.
  - apply Hstring.
  - apply Harray.
    induction items as [|item items IHitems]; constructor; [apply IH|exact IHitems].
  - apply Hobject.
Qed.

(** The conversion of a value to text returns on the convertible values,
    and on the others throws the one [TypeError]. *)
Lemma text_of_convertible number_text v :
  if convertible v then exists text, to_text number_text v = inr text
  else to_text number_text v = inl (TypeError "Cannot convert object to primitive value").
Proof.
  induction v as [|b|n|s|items IH|fields] using Json_values_ind; cbn [convertible];
    try (eexists; reflexivity).
  - cbn [to_text].
    induction IH as [|item items Hitem _ IHitems]; cbn [forallb]; [eexists; reflexivity|].
    destruct (convertible item).
    + destruct Hitem as (text & Hitem).
      assert (Hfirst : exists text', match item with
                                     | JNull => inr ""
                                     | _ => to_text number_text item
                                     end = inr text').
      { destruct item; eauto. }
      destruct Hfirst as (text' & ->). cbn [andb].
      destruct (forallb convertible items).
      * destruct IHitems as (more & Hmore).
        destruct ((fix texts (items : list Json) : Exn + list string := _) items)
          as [e|parts]; [discriminate Hmore|]. eexists; reflexivity.
      * destruct ((fix texts (items : list Json) : Exn + list string := _) items)
          as [e|parts]; [|discriminate IHitems]. exact IHitems.
    + cbn [andb]. destruct item; try discriminate Hitem; rewrite Hitem; reflexivity.
  - cbn [to_text]. destruct (JsMap.get "toString" fields) as [v|].
    + rewrite bool_decide_eq_true_2 by eauto. reflexivity.
    + rewrite bool_decide_eq_false_2 by (intros [v Hv]; discriminate Hv). eexists; reflexivity.
Qed.

(** X10. The tool [calculate], given arguments that are not [null],
    leaves the world as it was, and answers in text exactly when its
    expression can be converted to text: arguments without an [expression],
    an expression that is a string, evaluated or not, and one that is
    another primitive, an object without a property [toString] of its own
    or an array of such values all give a text and no error; on an object
    with a property [toString] of its own, or an array that holds one, the
    template of the [catch] block throws, and the tool fails with that
    [TypeError]. *)
Theorem calculate_answers_in_text host args w :
  args <> JNull ->
  match expression_of args with
  | Some (JString expression) =>
      calculate_execute host args w
      = (inr (Some (JString (Calculator.calculate (evaluate host) expression))), w)
  | other =>
      if from_option convertible true other
      then exists text,
             template (number_text host) other = inr text
             /\ calculate_execute host args w
                = (inr (Some (JString ("Error: Could not evaluate " +:+ quote
                                         +:+ text +:+ quote))), w)
      else calculate_execute host args w
           = (inl (TypeError "Cannot convert object to primitive value"), w)
  end.
Proof.
  intros Hargs. unfold calculate_execute.
  assert (Hproperty : property "expression" args = inr (expression_of args)).
  { destruct args; try reflexivity. congruence. }
  rewrite Hproperty.
  assert (Hother : forall other,
             (forall expression, other <> Some (JString expression)) ->
             if from_option convertible true other
             then exists text,
                    template (number_text host) other = inr text
                    /\ match other with
                       | Some (JString expression) =>
                           (inr (Some (JString (Calculator.calculate (evaluate host) expression))), w)
                       | _ =>
                           match template (number_text host) other with
                           | inr text =>
                               (inr (Some (JString ("Error: Could not evaluate " +:+ quote
                                                      +:+ text +:+ quote))), w)
                           | inl e => (inl e, w)
                           end
                       end
                       = (inr (Some (JString ("Error: Could not evaluate " +:+ quote
                                                +:+ text +:+ quote))), w)
             else match other with
                  | Some (JString expression) =>
                      (inr (Some (JString (Calculator.calculate (evaluate host) expression))), w)
                  | _ =>
                      match template (number_text host) other with
                      | inr text =>
                          (inr (Some (JString ("Error: Could not evaluate " +:+ quote
                                                 +:+ text +:+ quote))), w)
                      | inl e => (inl e, w)
                      end
                  end
                  = (inl (TypeError "Cannot convert object to primitive value"), w)).
  { intros [v|] Hno; [|cbn; eexists; split; reflexivity].
    cbn [from_option template].
    pose proof (text_of_convertible (number_text host) v) as Hv.
    destruct (convertible v).
    - destruct Hv as (text & Hv). exists text. split; [exact Hv|].
      destruct v; try (rewrite Hv; reflexivity). exfalso. eapply Hno. reflexivity.
    - destruct v; try (rewrite Hv; reflexivity). discriminate Hv. }
  destruct (expression_of args) as [[| | |expression| |]|]; [..|reflexivity| | |];
    apply Hother; discriminate.
Qed.
End CalculatorFacts.

(** ** The gateway: models, turns of text, and tool calls *)

Section GatewayTurns.
Context `{Runtime}.
Import AIGateway.

Lemma routing_models taskType model :
  config.routing !! taskType = Some model -> truthy model = true.
Proof.
  intros Hmodel. apply elem_of_list_to_map_2 in Hmodel.
  repeat (apply elem_of_cons in Hmodel as [Heq|Hmodel]; [inversion Heq; reflexivity|]).
  apply elem_of_nil in Hmodel as [].
Qed.

Lemma or_else_truthy a b : truthy b = true -> truthy (or_else a b) = true.
Proof. intros Hb. unfold or_else. destruct (truthy a) eqn:Ha; assumption. Qed.

Lemma selectModel_routed taskType model :
  config.routing !! default "general" taskType = Some model -> selectModel taskType = model.
Proof.
  intros Hmodel. unfold selectModel. rewrite Hmodel. simpl.
  apply routing_models in Hmodel. unfold or_else. rewrite Hmodel. reflexivity.
Qed.

(** X11. For every task type that names no property the routing table
    inherits from [Object.prototype], the model selected is a text that is
    not empty, whatever the environment: the table's entry for the task
    type when it has one, and otherwise the default model, where an empty
    [DEFAULT_MODEL] is passed over like a missing one. *)
Theorem selectModel_names_a_model taskType :
  default "general" taskType ∉ config.inherited ->
  truthy (selectModel taskType) = true
  /\ (config.routing !! default "general" taskType = Some (selectModel taskType)
      \/ config.routing !! default "general" taskType = None
         /\ selectModel taskType
            = or_else (default "" env_DEFAULT_MODEL) "llama-3.3-70b-versatile").
Proof.
  intros _.
  destruct (config.routing !! default "general" taskType) as [model|] eqn:Hmodel.
  - rewrite (selectModel_routed _ _ Hmodel). split; [|left; reflexivity].
    apply routing_models in Hmodel. exact Hmodel.
  - unfold selectModel. rewrite Hmodel. simpl.
    unfold config.defaultModel. destruct env_DEFAULT_MODEL as [model|]; simpl.
    + split; [apply or_else_truthy; reflexivity|right; split; reflexivity].
    + split; [reflexivity|right; split; reflexivity].
Qed.

(** The loop over the wire stream reads no state and calls nothing: what
    it yields and how it ends is the same in every state. *)
Lemma parse_pure text :
  exists c, forall s, parse text s = Build_Out [] [] s c.
Proof.
  unfold parse. destruct (JSON_parse text) as [v|msg]; eexists; intros s; reflexivity.
Qed.

Lemma emit_tool_call_pure model tc :
  exists ys c,
    (forall s, emit_tool_call model tc s = Build_Out ys [] s c)
    /\ Forall (fun y => is_tool_call y = true) ys.
Proof.
  destruct tc as [tc|]; simpl.
  - destruct (truthy (acc_name tc)).
    + unfold parse. destruct (JSON_parse _) as [v|msg].
      * exists [ToolCall {| tc_tool := acc_name tc; tc_arguments := v;
                            tc_id := acc_id tc; tc_model := model |}], (Return tt).
        split; [intros s; reflexivity|]. repeat constructor.
      * exists [], (Throw (SyntaxError msg)). split; [intros s; reflexivity|]. constructor.
    + exists [], (Return tt). split; [intros s; reflexivity|]. constructor.
  - eexists [], _. split; [intros s; reflexivity|]. constructor.
Qed.

Lemma for_of_pure {A} (Y : StreamChunk -> Prop) (l : list A) (body : A -> Gen unit) :
  (forall x, exists ys c, (forall s, body x s = Build_Out ys [] s c) /\ Forall Y ys) ->
  exists ys c, (forall s, for_of l body s = Build_Out ys [] s c) /\ Forall Y ys.
Proof.
  intros Hbody. induction l as [|x l (ys & c & IH & Hys)]; simpl.
  - exists [], (Return tt). split; [intros s; reflexivity|]. constructor.
  - destruct (Hbody x) as (ys0 & c0 & Hx & Hys0). destruct c0 as [[]|e].
    + exists (ys0 ++ ys), c. split; [|apply Forall_app; auto].
      intros s. unfold bind. rewrite Hx. simpl. rewrite IH. reflexivity.
    + exists ys0, (Throw e). split; [|exact Hys0].
      intros s. unfold bind. rewrite Hx. reflexivity.
Qed.

Lemma for_of_acc_pure {A S} (Y : StreamChunk -> Prop) (l : list A) (acc : S)
    (body : S -> A -> Gen S) :
  (forall acc x, exists ys c, (forall s, body acc x s = Build_Out ys [] s c) /\ Forall Y ys) ->
  exists ys c, (forall s, for_of_acc l acc body s = Build_Out ys [] s c) /\ Forall Y ys.
Proof.
  intros Hbody. revert acc. induction l as [|x l IH]; intros acc; simpl.
  - exists [], (Return acc). split; [intros s; reflexivity|]. constructor.
  - destruct (Hbody acc x) as (ys0 & c0 & Hx & Hys0). destruct c0 as [acc'|e].
    + destruct (IH acc') as (ys & c & Hl & Hys).
      exists (ys0 ++ ys), c. split; [|apply Forall_app; auto].
      intros s. unfold bind. rewrite Hx. simpl. rewrite Hl. reflexivity.
    + exists ys0, (Throw e). split; [|exact Hys0].
      intros s. unfold bind. rewrite Hx. reflexivity.
Qed.

Lemma on_chunk_pure model toolCalls chunk :
  exists ys c,
    (forall s, on_chunk model toolCalls chunk s = Build_Out ys [] s c)
    /\ Forall (fun y => is_done y = false) ys.
Proof.
  unfold on_chunk. cbv zeta.
  set (first :=
         match (wc_choice chunk ≫= ch_delta) ≫= d_content with
         | Some c => if truthy c then yield (Content c model) else ret tt
         | None => ret tt
         end).
  assert (Hfirst : exists ys, (forall s, first s = Build_Out ys [] s (Return tt))
                              /\ Forall (fun y => is_done y = false) ys).
  { unfold first. destruct ((wc_choice chunk ≫= ch_delta) ≫= d_content) as [c|];
      [destruct (truthy c)|].
    - exists [Content c model]. split; [intros s; reflexivity|]. repeat constructor.
    - exists []. split; [intros s; reflexivity|]. constructor.
    - exists []. split; [intros s; reflexivity|]. constructor. }
  destruct Hfirst as (ys1 & Hfirst & Hys1).
  set (toolCalls' :=
         match (wc_choice chunk ≫= ch_delta) ≫= d_tool_calls with
         | Some tcs => foldl accumulate toolCalls tcs
         | None => toolCalls
         end).
  destruct (decide (wc_choice chunk ≫= ch_finish_reason = Some "tool_calls")) as [Hends|Hgoes].
  - destruct (for_of_pure (fun y => is_tool_call y = true) toolCalls' (emit_tool_call model)
                (emit_tool_call_pure model)) as (ys2 & c2 & Hsecond & Hys2).
    assert (Hys2' : Forall (fun y => is_done y = false) ys2).
    { eapply Forall_impl; [exact Hys2|]. intros [] Hy; try discriminate; reflexivity. }
    destruct c2 as [[]|e2].
    + exists (ys1 ++ ys2 ++ []), (Return toolCalls'). split.
      * intros s. unfold bind. rewrite Hfirst. simpl. rewrite Hsecond. reflexivity.
      * rewrite app_nil_r. apply Forall_app; auto.
    + exists (ys1 ++ ys2), (Throw e2). split.
      * intros s. unfold bind. rewrite Hfirst. simpl. rewrite Hsecond. reflexivity.
      * apply Forall_app; auto.
  - exists (ys1 ++ [] ++ []), (Return toolCalls'). split.
    + intros s. unfold bind. rewrite Hfirst. reflexivity.
    + rewrite app_nil_r. exact Hys1.
Qed.

Lemma on_chunks_pure model chunks toolCalls :
  exists ys c,
    (forall s, for_of_acc chunks toolCalls (on_chunk model) s = Build_Out ys [] s c)
    /\ Forall (fun y => is_done y = false) ys.
Proof. apply for_of_acc_pure. intros acc x. apply on_chunk_pure. Qed.

(** One attempt: the call of the client, the chunks of the wire stream,
    and the [done] chunk when nothing failed. *)
Lemma attempt_run model params s :
  let called := client_create params (world s) in
  let after := {| world := called.2; heap := heap s |} in
  exists ys c,
    (forall s', for_of_acc (rs_chunks called.1) [] (on_chunk model) s' = Build_Out ys [] s' c)
    /\ Forall (fun y => is_done y = false) ys
    /\ attempt model params s =
       match c, rs_failure called.1 with
       | Return _, None =>
           Build_Out (ys ++ [Done (Some model)]) [ClientCall params] after (Return tt)
       | Return _, Some msg =>
           Build_Out ys [ClientCall params] after (Throw (APIError msg))
       | Throw e, _ => Build_Out ys [ClientCall params] after (Throw e)
       end.
Proof.
  intros called after.
  destruct (on_chunks_pure model (rs_chunks called.1) []) as (ys & c & Hloop & Hys).
  exists ys, c. split; [exact Hloop|]. split; [exact Hys|].
  unfold attempt, bind, record, external. simpl.
  fold called. destruct called as [response w] eqn:Hcalled. simpl in *.
  rewrite Hloop. simpl. subst after.
  destruct c as [acc|e]; [|reflexivity].
  destruct (rs_failure response) as [msg|]; unfold and_then; simpl;
    rewrite ?app_nil_r; reflexivity.
Qed.
End GatewayTurns.

(** X12. The model of the environment does not reach the task types of
    the routing table, [general], the type of a request without one,
    among them: whatever [DEFAULT_MODEL] is, they get the same model. *)
Theorem routed_model_ignores_environment (R R' : Runtime) taskType :
  is_Some (config.routing !! default "general" taskType) ->
  @AIGateway.selectModel R taskType = @AIGateway.selectModel R' taskType.
Proof.
  intros [model Hmodel].
  rewrite (@selectModel_routed R _ _ Hmodel), (@selectModel_routed R' _ _ Hmodel).
  reflexivity.
Qed.

Section GatewayStreams.
Context `{Runtime}.
Import AIGateway.

Lemma filter_none {A} (f : A -> bool) l :
  Forall (fun x => f x = false) l -> List.filter f l = [].
Proof.
  induction 1 as [|x l Hx _ IH]; simpl; [reflexivity|]. rewrite Hx. exact IH.
Qed.

Lemma attempt_done model params s :
  match completion (attempt model params s) with
  | Return _ =>
      exists chunks,
        yielded (attempt model params s) = chunks ++ [Done (Some model)]
        /\ List.filter is_done chunks = []
  | Throw _ => List.filter is_done (yielded (attempt model params s)) = []
  end.
Proof.
  destruct (attempt_run model params s) as (ys & c & _ & Hys & ->).
  apply filter_none in Hys.
  destruct c as [acc|e]; [destruct (rs_failure _)|]; simpl; eauto.
Qed.

Lemma stream_nothing request modelName s :
  heap s !! rq_messages request = None ->
  stream request modelName s =
  Build_Out [] [] s (Throw (TypeError "Cannot read properties of undefined (reading 'map')")).
Proof.
  intros Hnone. rewrite stream_equation_1. unfold bind, array_read.
  rewrite Hnone. reflexivity.
Qed.

(** X13. A stream that returns has yielded exactly one [done] chunk, as
    its last chunk, and that chunk names the model of the attempt that
    succeeded: the model in use or the fallback model.  A stream that
    throws has yielded no [done] chunk. *)
Theorem returning_stream_ends_with_done request modelName s :
  let o := stream request modelName s in
  match completion o with
  | Return _ =>
      exists chunks model,
        yielded o = chunks ++ [Done (Some model)]
        /\ List.filter is_done chunks = []
        /\ (model = model_in_use request modelName \/ model = config.fastModel)
  | Throw _ => List.filter is_done (yielded o) = []
  end.
Proof.
  intros o. subst o.
  destruct (heap s !! rq_messages request) as [msgs|] eqn:Hmsgs;
    [|rewrite (stream_nothing _ _ _ Hmsgs); reflexivity].
  rewrite (stream_run _ _ _ _ Hmsgs). cbv zeta.
  set (model := model_in_use request modelName).
  pose proof (attempt_done model (params_for request msgs model) s) as Hfirst.
  destruct (completion (attempt model (params_for request msgs model) s)) as [[]|e] eqn:Hc.
  - rewrite Hc. destruct Hfirst as (chunks & Hchunks & Hnone). eauto 6.
  - destruct (decide (model = config.fastModel)) as [Heq|Hne]; [rewrite Hc; exact Hfirst|].
    set (first := attempt model (params_for request msgs model) s) in *.
    pose proof (attempt_done config.fastModel (params_for request msgs config.fastModel)
                  (final first)) as Hsecond.
    unfold and_then. cbn [completion yielded].
    destruct (completion (attempt config.fastModel _ (final first))) as [[]|e'].
    + destruct Hsecond as (chunks & -> & Hnone).
      exists (yielded first ++ chunks), config.fastModel. split; [apply app_assoc|].
      split; [|auto]. rewrite List.filter_app, Hfirst, Hnone. reflexivity.
    + rewrite List.filter_app, Hfirst, Hsecond. reflexivity.
Qed.

Lemma texts_cons chunk chunks : texts (chunk :: chunks) = texts [chunk] ++ texts chunks.
Proof.
  unfold texts. simpl. destruct ((wc_choice chunk ≫= ch_delta) ≫= d_content) as [c|]; simpl;
    [destruct (truthy c)|]; reflexivity.
Qed.

Lemma on_chunk_text model toolCalls chunk s :
  ~ ends_tool_calls chunk ->
  exists toolCalls',
    on_chunk model toolCalls chunk s =
    Build_Out (map (fun c => Content c model) (texts [chunk])) [] s (Return toolCalls').
Proof.
  intros Hgoes. unfold on_chunk. cbv zeta. unfold ends_tool_calls in Hgoes.
  destruct (decide (wc_choice chunk ≫= ch_finish_reason = Some "tool_calls")) as [|_];
    [contradiction|].
  unfold texts. simpl.
  destruct ((wc_choice chunk ≫= ch_delta) ≫= d_content) as [c|]; simpl;
    [destruct (truthy c)|]; eexists; reflexivity.
Qed.

Lemma on_chunks_text model chunks toolCalls s :
  Forall (fun chunk => ~ ends_tool_calls chunk) chunks ->
  exists toolCalls',
    for_of_acc chunks toolCalls (on_chunk model) s =
    Build_Out (map (fun c => Content c model) (texts chunks)) [] s (Return toolCalls').
Proof.
  intros Hchunks. revert toolCalls.
  induction Hchunks as [|chunk chunks Hchunk _ IH]; intros toolCalls; simpl.
  - eexists. reflexivity.
  - destruct (on_chunk_text model toolCalls chunk s Hchunk) as (acc & Hacc).
    destruct (IH acc) as (acc' & Hacc'). exists acc'.
    unfold bind. rewrite Hacc. simpl. rewrite Hacc'. unfold and_then. simpl.
    rewrite (texts_cons chunk chunks), map_app. reflexivity.
Qed.

(** X14. A turn none of whose wire chunks ends a round of tool calls: the
    attempt yields one content chunk for each text that is not empty, in
    the order of the wire, under the model of the attempt, and then the
    [done] chunk, or throws the error of the client in its place; the
    fragments of tool calls it may have received are dropped, and no
    tool-call chunk is yielded. *)
Theorem text_turn_yields_its_texts model params s :
  let called := client_create params (world s) in
  Forall (fun chunk => ~ ends_tool_calls chunk) (rs_chunks called.1) ->
  attempt model params s =
  Build_Out
    (map (fun c => Content c model) (texts (rs_chunks called.1))
       ++ match rs_failure called.1 with
          | Some _ => []
          | None => [Done (Some model)]
          end)
    [ClientCall params]
    {| world := called.2; heap := heap s |}
    match rs_failure called.1 with
    | Some msg => Throw (APIError msg)
    | None => Return tt
    end.
Proof.
  intros called Htext.
  destruct (attempt_run model params s) as (ys & c & Hloop & _ & ->). fold called.
  destruct (on_chunks_text model (rs_chunks called.1) [] s Htext) as (acc & Hrun).
  rewrite Hloop in Hrun. inversion Hrun; subst.
  destruct (rs_failure called.1); rewrite ?app_nil_r; reflexivity.
Qed.

Lemma hole_fails model toolCalls :
  None ∈ toolCalls ->
  exists e, forall s, completion (for_of toolCalls (emit_tool_call model) s) = Throw e.
Proof.
  induction toolCalls as [|tc toolCalls IH]; intros Hhole.
  - apply elem_of_nil in Hhole as [].
  - destruct tc as [a|].
    + apply elem_of_cons in Hhole as [|Hhole]; [discriminate|].
      destruct (IH Hhole) as (e & He).
      destruct (emit_tool_call_pure model (Some a)) as (ys & c & Ha & _).
      destruct c as [[]|e'].
      * exists e. intros s. cbn [for_of]. unfold bind. rewrite Ha. simpl. apply He.
      * exists e'. intros s. cbn [for_of]. unfold bind. rewrite Ha. reflexivity.
    + eexists. intros s. reflexivity.
Qed.

Lemma array_modify_hole {A} (f : A -> A) i (a : list (option A)) :
  None ∈ a -> None ∈ array_modify f i a.
Proof.
  intros Hhole. apply list_elem_of_lookup in Hhole as [j Hj].
  apply list_elem_of_lookup. exists j. unfold array_modify.
  destruct (decide (i = j)) as [->|Hne].
  - rewrite list_lookup_alter_eq, Hj. reflexivity.
  - rewrite list_lookup_alter_ne by exact Hne. exact Hj.
Qed.

Lemma accumulate_hole toolCalls d index :
  tcd_index d = Some index -> length toolCalls < index -> None ∈ accumulate toolCalls d.
Proof.
  intros Hindex Hbeyond. unfold accumulate. rewrite Hindex.
  assert (Hnone : array_get toolCalls index = None).
  { unfold array_get. rewrite lookup_ge_None_2 by lia. reflexivity. }
  rewrite Hnone.
  assert (Hset : None ∈ array_set index
                   {| acc_id := tcd_id d; acc_name := ""; acc_arguments := "" |} toolCalls).
  { unfold array_set. rewrite decide_False by lia.
    destruct (index - length toolCalls) as [|n] eqn:Hn; [lia|].
    apply elem_of_app. right. simpl. apply list_elem_of_here. }
  destruct (tcd_function d ≫= fd_name) as [n|]; [destruct (truthy n)|];
    (destruct (tcd_function d ≫= fd_arguments) as [fragment|];
     [destruct (truthy fragment)|]);
    repeat apply array_modify_hole; exact Hset.
Qed.

(** X15. A fragment for an index beyond the end of the accumulators
    leaves holes below it, and a round of tool calls that ends while a hole
    is there fails: reading the name of the missing entry throws, or an
    earlier entry does not parse, so the loop over the accumulators never
    returns. *)
Theorem skipped_index_fails_the_turn model toolCalls d index s :
  tcd_index d = Some index ->
  length toolCalls < index ->
  None ∈ accumulate toolCalls d
  /\ exists e,
       completion (for_of (accumulate toolCalls d) (emit_tool_call model) s) = Throw e.
Proof.
  intros Hindex Hbeyond.
  pose proof (accumulate_hole toolCalls d index Hindex Hbeyond) as Hhole.
  split; [exact Hhole|].
  destruct (hole_fails model _ Hhole) as (e & He). exists e. apply He.
Qed.

Lemma array_get_accumulate toolCalls d index :
  array_get (accumulate toolCalls d) index =
  if bool_decide (tcd_index d = Some index) then
    let entry :=
      default {| acc_id := tcd_id d; acc_name := ""; acc_arguments := "" |}
        (array_get toolCalls index) in
    let entry :=
      match tcd_function d ≫= fd_name with
      | Some n => if truthy n then set_name n entry else entry
      | None => entry
      end in
    Some match tcd_function d ≫= fd_arguments with
         | Some fragment => if truthy fragment then add_arguments fragment entry else entry
         | None => entry
         end
  else array_get toolCalls index.
Proof.
  unfold accumulate. destruct (tcd_index d) as [j|].
  - destruct (decide (j = index)) as [->|Hne].
    + rewrite bool_decide_eq_true_2 by reflexivity. cbv zeta.
      set (toolCalls1 :=
             match array_get toolCalls index with
             | Some _ => toolCalls
             | None => array_set index _ toolCalls
             end).
      assert (H1 : array_get toolCalls1 index =
                   Some (default {| acc_id := tcd_id d; acc_name := ""; acc_arguments := "" |}
                           (array_get toolCalls index))).
      { subst toolCalls1. destruct (array_get toolCalls index) as [a|] eqn:Ha; simpl.
        - exact Ha.
        - apply array_get_set. }
      destruct (tcd_function d ≫= fd_name) as [n|]; [destruct (truthy n)|];
        (destruct (tcd_function d ≫= fd_arguments) as [fragment|];
         [destruct (truthy fragment)|]);
        rewrite ?array_get_modify, H1; reflexivity.
    + rewrite bool_decide_eq_false_2 by congruence.
      assert (Hother : forall a : list (option Accumulator),
                array_get a index = array_get toolCalls index ->
                array_get
                  match array_get toolCalls j with
                  | Some _ => toolCalls
                  | None =>
                      array_set j {| acc_id := tcd_id d; acc_name := ""; acc_arguments := "" |}
                        toolCalls
                  end index = array_get toolCalls index).
      { intros _ _. destruct (array_get toolCalls j); [reflexivity|].
        apply array_get_set_ne. congruence. }
      destruct (tcd_function d ≫= fd_name) as [n|]; [destruct (truthy n)|];
        (destruct (tcd_function d ≫= fd_arguments) as [fragment|];
         [destruct (truthy fragment)|]);
        rewrite ?array_get_modify_ne by congruence; apply (Hother toolCalls); reflexivity.
  - rewrite bool_decide_eq_false_2 by discriminate. reflexivity.
Qed.

Lemma default_last_cons {A} (x old : A) l : default x (last l) = default old (last (x :: l)).
Proof.
  destruct l as [|y l]; [reflexivity|].
  change (last (x :: y :: l)) with (last (y :: l)).
  destruct (last (y :: l)) eqn:Hlast; [reflexivity|].
  apply last_None in Hlast. discriminate.
Qed.

Lemma accumulated_identity deltas toolCalls index :
  acc_id <$> array_get (foldl accumulate toolCalls deltas) index =
    match array_get toolCalls index with
    | Some entry => Some (acc_id entry)
    | None => tcd_id <$> head (addressed index deltas)
    end
  /\ from_option acc_name "" (array_get (foldl accumulate toolCalls deltas) index) =
     default (from_option acc_name "" (array_get toolCalls index))
       (last (names_of (addressed index deltas))).
Proof.
  revert toolCalls. induction deltas as [|d deltas IH]; intros toolCalls.
  - simpl. destruct (array_get toolCalls index); split; reflexivity.
  - cbn [foldl]. destruct (IH (accumulate toolCalls d)) as [IHid IHname].
    rewrite IHid, IHname. clear IH IHid IHname.
    rewrite array_get_accumulate. unfold addressed, names_of. cbn [List.filter].
    destruct (bool_decide (tcd_index d = Some index)); [|split; reflexivity].
    cbv zeta. cbn [head omap list_omap fmap option_fmap option_map].
    set (entry := default _ (array_get toolCalls index)).
    assert (Hid : acc_id entry =
                  match array_get toolCalls index with
                  | Some a => acc_id a
                  | None => tcd_id d
                  end).
    { subst entry. destruct (array_get toolCalls index); reflexivity. }
    assert (Hname : acc_name entry = from_option acc_name "" (array_get toolCalls index)).
    { subst entry. destruct (array_get toolCalls index); reflexivity. }
    split.
    + destruct (tcd_function d ≫= fd_name) as [n|]; [destruct (truthy n)|];
        (destruct (tcd_function d ≫= fd_arguments) as [fragment|];
         [destruct (truthy fragment)|]);
        simpl; rewrite Hid; destruct (array_get toolCalls index); reflexivity.
    + set (names := List.filter truthy (omap _ (List.filter _ deltas))).
      destruct (tcd_function d ≫= fd_name) as [n|]; [destruct (truthy n) eqn:Hn|];
        cbn [List.filter]; rewrite ?Hn;
        (destruct (tcd_function d ≫= fd_arguments) as [fragment|];
         [destruct (truthy fragment)|]);
        cbn [from_option set_name add_arguments acc_name]; rewrite ?Hname;
        try reflexivity; apply default_last_cons.
Qed.

(** X16. The accumulator of an index keeps the id of the first fragment
    that came for it, whatever ids later fragments carry, and the last
    name that was not empty: a name replaces the name before it, where the
    argument text is appended. *)
Theorem entry_keeps_first_id_and_last_name deltas toolCalls index :
  array_get toolCalls index = None ->
  acc_id <$> array_get (foldl accumulate toolCalls deltas) index
    = tcd_id <$> head (addressed index deltas)
  /\ from_option acc_name "" (array_get (foldl accumulate toolCalls deltas) index)
     = default "" (last (names_of (addressed index deltas))).
Proof.
  intros Hnone. destruct (accumulated_identity deltas toolCalls index) as [Hid Hname].
  rewrite Hnone in Hid, Hname. split; assumption.
Qed.

Lemma formatMessages_bare msgs : formatMessages (map bare msgs) = formatMessages msgs.
Proof.
  unfold formatMessages. rewrite <- list_fmap_compose. apply list_fmap_ext.
  intros _ m _. reflexivity.
Qed.

Lemma attempt_observed model params s s' :
  world s' = world s ->
  observed (attempt model params s') = observed (attempt model params s).
Proof.
  intros Hworld.
  destruct (attempt_run model params s) as (ys & c & Hloop & _ & ->).
  destruct (attempt_run model params s') as (ys' & c' & Hloop' & _ & ->).
  specialize (Hloop s). specialize (Hloop' s). rewrite Hworld in *.
  rewrite Hloop in Hloop'. inversion Hloop'; subst.
  destruct c' as [acc|e]; [destruct (rs_failure _)|]; reflexivity.
Qed.

(** X17. The fields that tie tool results to tool calls do not reach the
    model: [formatMessages] sends the role, the content and the attachments
    of a message, so a stream over messages stripped of [tool_calls] and
    [tool_call_id] makes the same calls of the client, yields the same
    chunks and ends in the same way. *)
Theorem tool_bookkeeping_is_not_sent request modelName s s' msgs :
  heap s !! rq_messages request = Some msgs ->
  heap s' !! rq_messages request = Some (map bare msgs) ->
  world s' = world s ->
  observed (stream request modelName s') = observed (stream request modelName s).
Proof.
  intros Hmsgs Hbare Hworld.
  rewrite (stream_run _ _ _ _ Hmsgs), (stream_run _ _ _ _ Hbare). cbv zeta.
  unfold params_for. rewrite formatMessages_bare.
  set (model := model_in_use request modelName).
  set (params := build_params model (formatMessages msgs) (rq_tools request)).
  set (params' := build_params config.fastModel (formatMessages msgs) (rq_tools request)).
  pose proof (attempt_observed model params s s' Hworld) as Hfirst.
  assert (Hc : completion (attempt model params s') = completion (attempt model params s))
    by (unfold observed in Hfirst; congruence).
  rewrite Hc. destruct (completion (attempt model params s)) as [[]|e]; [exact Hfirst|].
  destruct (decide (model = config.fastModel)); [exact Hfirst|].
  assert (Hworld' : world (final (attempt model params s'))
                    = world (final (attempt model params s)))
    by (unfold observed in Hfirst; congruence).
  pose proof (attempt_observed config.fastModel params' _ _ Hworld') as Hsecond.
  unfold observed, and_then in *. cbn [yielded events completion final].
  congruence.
Qed.
End GatewayStreams.

(** ** The planner: what it invokes, forwards and sends *)

Section PlannerCalls.
Context `{Runtime}.
Import AIGateway TaskPlanner.

(** X18. An iteration whose turn returns invokes the tools the turn
    requested, each once, in the order of the request and with the
    arguments parsed by the gateway, straight after the calls of the turn
    and before the next turn; a failing or unknown tool does not stop the
    ones after it.  A turn that requests nothing is the last. *)
Theorem requested_tools_run_once_in_order plugins context messages iterations s ms :
  iterations < maxIterations ->
  heap s !! messages = Some ms ->
  let streamed := AIGateway.stream (request_of context messages) None s in
  completion streamed = Return tt ->
  let requested := requests_of (yielded streamed) in
  let round := run_tools plugins messages (text_of (yielded streamed)) requested
                 (final streamed) in
  events (loop plugins context messages iterations s) =
  GatewayCall ms :: events streamed ++
    match requested with
    | [] => []
    | _ :: _ =>
        map invocation requested
          ++ events (loop plugins context messages (S iterations) (final round))
    end.
Proof.
  intros Hlt Hms streamed Hreturn requested round.
  rewrite loop_step by exact Hlt.
  pose proof (model_turn_run context messages s) as Hturn. cbn zeta in Hturn.
  fold streamed in Hturn. rewrite Hreturn, Hms in Hturn.
  change (default [] (Some ms)) with ms in Hturn.
  erewrite bind_run by exact Hturn. cbn [fst snd events].
  fold requested. destruct requested as [|tc toolCalls] eqn:Hrequested.
  - cbn [yield events]. reflexivity.
  - pose proof (stream_heap_kept (request_of context messages) None s) as Hkept.
    change (heap (final streamed) = heap s) in Hkept.
    assert (Hms' : heap (final streamed) !! messages = Some ms) by (rewrite Hkept; exact Hms).
    pose proof (run_tools_run plugins messages (text_of (yielded streamed))
                  (tc :: toolCalls) (final streamed) ms Hms') as Htools.
    cbn zeta in Htools. fold round in Htools.
    assert (Hfinal : final round = final round) by reflexivity.
    rewrite Htools in Hfinal at 1. cbn [final] in Hfinal.
    erewrite bind_run by exact Htools. cbn [events]. rewrite Hfinal. reflexivity.
Qed.

(** X19. A tool that returns nothing is reported as failed although it
    ran: rendering [undefined] throws inside the [try], so the chunk is a
    [tool_error] chunk and the tool message carries the text of the
    [TypeError], and the loop over the calls goes on. *)
Theorem undefined_result_is_reported_as_error plugins messages tc s ms tool w :
  heap s !! messages = Some ms ->
  plugins !! tc_tool tc = Some tool ->
  PluginManager.tool_execute tool (tc_arguments tc) (world s) = (inr None, w) ->
  let text := "Cannot read properties of undefined (reading 'length')" in
  run_tool plugins messages tc s =
  Build_Out
    [tool_start tc; ToolErrorChunk (tc_tool tc) ("> Error: " +:+ text +:+ nl)]
    [ToolInvocation (tc_tool tc) (tc_arguments tc)]
    {| world := w;
       heap := <[messages := ms ++ [tool_message tc ("Error: " +:+ text)]]> (heap s) |}
    (Return tt).
Proof.
  intros Hms Htool Hnothing text.
  rewrite (run_tool_run _ _ _ _ ms) by exact Hms. cbn zeta.
  unfold invoke. rewrite Htool, Hnothing. reflexivity.
Qed.

Lemma produces_silent {A} Y (m : Gen A) :
  (forall s, yielded (m s) = []) -> produces Y any_error m.
Proof. intros Hsilent s. rewrite Hsilent. split; [constructor|intros; exact I]. Qed.

Lemma produces_any {A} Y E (m : Gen A) : produces Y E m -> produces Y any_error m.
Proof. intros Hm s. destruct (Hm s) as [Hy _]. split; [exact Hy|intros; exact I]. Qed.

Lemma array_push_silent l m s : yielded (array_push l m s) = [].
Proof. unfold array_push. destruct (heap s !! l); reflexivity. Qed.

Lemma array_spread_silent l s : yielded (array_spread l s) = [].
Proof. unfold array_spread. destruct (heap s !! l); reflexivity. Qed.

Lemma formatResult_silent result s : yielded (formatResult result s) = [].
Proof. destruct result as [[]|]; reflexivity. Qed.

Lemma run_tool_chunks plugins messages tc :
  produces planner_chunk any_error (run_tool plugins messages tc).
Proof.
  unfold run_tool. apply produces_try_catch with (E' := any_error).
  - apply produces_bind; [apply produces_yield; exact I|]. intros _.
    apply produces_bind.
    { apply produces_silent. intros s. rewrite plugins_execute_run. reflexivity. }
    intros result. apply produces_bind; [apply produces_silent, formatResult_silent|].
    intros shown. apply produces_bind; [apply produces_yield; exact I|]. intros _.
    apply produces_silent, array_push_silent.
  - intros error _. apply produces_bind; [apply produces_yield; exact I|]. intros _.
    apply produces_silent, array_push_silent.
Qed.

Lemma model_turn_chunks context messages :
  produces planner_chunk any_error (model_turn context messages).
Proof.
  intros s. rewrite model_turn_run. cbn [yielded completion]. split; [|intros; exact I].
  apply Forall_forall. intros c Hc. apply list_elem_of_In, List.filter_In in Hc as [_ Hc].
  destruct c; try discriminate. exact I.
Qed.

Lemma loop_chunks plugins context messages iterations :
  produces planner_chunk any_error (loop plugins context messages iterations).
Proof.
  funelim (loop plugins context messages iterations).
  case_decide as Hlt; [|apply produces_yield; exact I].
  apply produces_bind; [apply model_turn_chunks|].
  intros [responseText [|tc toolCalls]]; [apply produces_yield; exact I|].
  apply produces_bind.
  - unfold run_tools. apply produces_bind; [apply produces_yield; exact I|]. intros _.
    apply produces_bind; [apply produces_silent, array_push_silent|]. intros _.
    apply produces_bind; [apply produces_for_of; intros; apply run_tool_chunks|]. intros _.
    apply produces_yield. exact I.
  - intros _ s.
    match goal with
    | IH : context [produces _ _ _] |- _ =>
        exact (IH Hlt (responseText, toolCalls) responseText toolCalls tc toolCalls tt s s)
    end.
Qed.

(** X20. The planner keeps the tool calls of the gateway to itself: of the
    chunks of the gateway a run forwards the content chunks only, so no
    chunk of a run is a tool-call chunk or a [done] chunk that names a
    model, however the run ends. *)
Theorem execute_forwards_no_tool_call plugins context s :
  Forall planner_chunk (yielded (execute plugins context s))
  /\ List.filter is_tool_call (yielded (execute plugins context s)) = [].
Proof.
  assert (Hchunks : produces planner_chunk any_error (execute plugins context)).
  { unfold execute. apply produces_bind; [apply produces_silent, array_spread_silent|].
    intros messages. apply loop_chunks. }
  destruct (Hchunks s) as [Hall _]. split; [exact Hall|].
  apply filter_none. eapply Forall_impl; [exact Hall|].
  intros [] Hc; try reflexivity. destruct Hc.
Qed.

#[global] Instance calls_sequential P : Sequential (calls P).
Proof.
  split; unfold calls; [constructor|]. intros. apply Forall_app. auto.
Qed.

Lemma calls_quiet {A} P (m : Gen A) :
  (forall s, events (m s) = []) -> respects (calls P) m.
Proof. intros Hquiet s. unfold calls. rewrite Hquiet. constructor. Qed.

Lemma array_push_quiet l m s : events (array_push l m s) = [].
Proof. unfold array_push. destruct (heap s !! l); reflexivity. Qed.

Lemma array_spread_quiet l s : events (array_spread l s) = [].
Proof. unfold array_spread. destruct (heap s !! l); reflexivity. Qed.

Lemma formatResult_quiet result s : events (formatResult result s) = [].
Proof. destruct result as [[]|]; reflexivity. Qed.

Lemma build_params_sent model messages tools :
  p_model (build_params model messages tools) = model
  /\ p_tools (build_params model messages tools) = sent_tools tools
  /\ p_tool_choice (build_params model messages tools)
     = (sent_tools tools ≫= fun _ => Some "auto").
Proof. destruct tools as [[|t rest]|]; repeat split; reflexivity. Qed.

Lemma stream_calls context messages :
  respects (calls (call_for context))
    (AIGateway.stream (request_of context messages) None).
Proof.
  intros s. unfold calls.
  destruct (heap s !! messages) as [msgs|] eqn:Hmsgs.
  2:{ rewrite stream_nothing by exact Hmsgs. constructor. }
  rewrite (stream_run _ _ _ msgs) by exact Hmsgs. cbv zeta.
  assert (Hcall : forall model,
            model = selectModel (cx_taskType context) \/ model = config.fastModel ->
            call_for context
              (ClientCall (params_for (request_of context messages) msgs model))).
  { intros model Hmodel. unfold call_for, params_for.
    destruct (build_params_sent model (formatMessages msgs)
                (rq_tools (request_of context messages))) as (-> & -> & ->).
    auto. }
  set (model := model_in_use (request_of context messages) None).
  assert (Hmodel : model = selectModel (cx_taskType context)) by reflexivity.
  assert (Hone : forall model,
            model = selectModel (cx_taskType context) \/ model = config.fastModel ->
            Forall (call_for context)
              [ClientCall (params_for (request_of context messages) msgs model)]).
  { intros model' Hmodel'. apply Forall_cons_2; [apply Hcall, Hmodel'|constructor]. }
  destruct (completion (attempt model _ s)); [rewrite attempt_events; auto|].
  destruct (decide (model = config.fastModel)); [rewrite attempt_events; auto|].
  unfold and_then. cbn [events]. rewrite !attempt_events. apply Forall_app. auto.
Qed.

Lemma run_tool_calls context plugins messages tc :
  respects (calls (call_for context)) (run_tool plugins messages tc).
Proof.
  unfold run_tool. sequence respects_try_catch.
  - sequence respects_bind; [auto with frames|]. intros _.
    sequence respects_bind.
    { intros s. rewrite plugins_execute_run. repeat constructor. }
    intros result. sequence respects_bind; [apply calls_quiet, formatResult_quiet|].
    intros shown. sequence respects_bind; [auto with frames|]. intros _.
    apply calls_quiet, array_push_quiet.
  - intros error. sequence respects_bind; [auto with frames|]. intros _.
    apply calls_quiet, array_push_quiet.
Qed.

Lemma loop_calls plugins context messages iterations :
  respects (calls (call_for context)) (loop plugins context messages iterations).
Proof.
  funelim (loop plugins context messages iterations).
  case_decide as Hlt; [|auto with frames].
  sequence respects_bind.
  { intros s. rewrite model_turn_run. unfold calls. cbn [events].
    constructor; [exact I|]. apply stream_calls. }
  intros [responseText [|tc toolCalls]]; [auto with frames|].
  sequence respects_bind.
  - unfold run_tools. sequence respects_bind; [auto with frames|]. intros _.
    sequence respects_bind; [apply calls_quiet, array_push_quiet|]. intros _.
    sequence respects_bind; [|auto with frames].
    sequence respects_for_of. intros tc'. apply run_tool_calls.
  - intros _ s.
    match goal with
    | IH : context [respects _ _] |- _ =>
        exact (IH Hlt (responseText, toolCalls) responseText toolCalls tc toolCalls tt s s)
    end.
Qed.

(** X21. Every call of the client that a run makes, in whatever turn and
    on whatever model, carries the tools of the context, none when the
    list is empty, leaves the choice of tool to the model when there are
    tools, and is for the model of the context's task type or for the
    fallback model. *)
Theorem client_calls_carry_the_request_tools plugins context s :
  Forall (call_for context) (events (execute plugins context s)).
Proof.
  assert (Hcalls : respects (calls (call_for context)) (execute plugins context)).
  { unfold execute. sequence respects_bind; [apply calls_quiet, array_spread_quiet|].
    intros messages. apply loop_calls. }
  apply Hcalls.
Qed.

(** X22. What a turn leaves in the conversation: when it requested tools,
    the assistant message appended holds as its content the text of the
    content chunks the turn forwarded, put together in their order, and as
    its tool calls the requested calls in their order, each with the id and
    the name from the gateway and its arguments written out again from the
    parsed value. *)
Theorem assistant_message_records_the_turn
    plugins context messages s ms responseText tc toolCalls :
  heap s !! messages = Some ms ->
  let turn := model_turn context messages s in
  completion turn = Return (responseText, tc :: toolCalls) ->
  let round := run_tools plugins messages responseText (tc :: toolCalls) (final turn) in
  exists assistant reports,
    heap (final round) !! messages = Some (ms ++ assistant :: reports)
    /\ role assistant = "assistant"
    /\ content assistant
       = foldr String.append "" (map AIGateway.content_of (yielded turn))
    /\ tool_calls assistant = Some (map reference (tc :: toolCalls))
    /\ length reports = S (length toolCalls).
Proof.
  intros Hms turn Hreturn round.
  pose proof (model_turn_run context messages s) as Hturn. cbn zeta in Hturn.
  fold turn in Hturn.
  pose proof (stream_heap_kept (request_of context messages) None s) as Hkept.
  set (streamed := AIGateway.stream (request_of context messages) None s) in *.
  change (heap (final streamed) = heap s) in Hkept.
  assert (Hfinal : final turn = final streamed) by (rewrite Hturn; reflexivity).
  assert (Hyielded : yielded turn = List.filter is_content (yielded streamed))
    by (rewrite Hturn; reflexivity).
  assert (Hc : completion turn =
               match completion streamed with
               | Return _ => Return (text_of (yielded streamed), requests_of (yielded streamed))
               | Throw e => Throw e
               end) by (rewrite Hturn; reflexivity).
  rewrite Hreturn in Hc. destruct (completion streamed); [|discriminate].
  injection Hc as -> Hrequests.
  assert (Hms' : heap (final turn) !! messages = Some ms)
    by (rewrite Hfinal, Hkept; exact Hms).
  subst round. rewrite (run_tools_run _ _ _ _ _ ms) by exact Hms'. cbn zeta. cbn [final heap].
  eexists _, _. split; [apply lookup_insert_eq|].
  split; [reflexivity|]. split; [|split; [reflexivity|]].
  - rewrite Hyielded. reflexivity.
  - rewrite tool_reports_length. reflexivity.
Qed.
End PlannerCalls.

(** ** The assistant: which inputs go to the planner *)

Section Triggers.
Context `{Runtime}.
Import Jarvis.

Lemma matches_here_more alternative input after :
  matches_here alternative input = true ->
  matches_here alternative (input +:+ after) = true.
Proof.
  revert input. induction alternative as [|a rest IH]; intros input Hhere; [reflexivity|].
  destruct input as [|c more]; [discriminate|]. simpl in *.
  apply andb_true_iff in Hhere as [Hc Hrest]. rewrite Hc. simpl. apply IH, Hrest.
Qed.

Lemma matches_more alternative input after :
  matches alternative input = true -> matches alternative (input +:+ after) = true.
Proof.
  induction input as [|c more IH]; intros Hfound.
  - destruct alternative; [destruct after; reflexivity|discriminate].
  - cbn [matches] in Hfound. apply orb_true_iff in Hfound as [Hhere|Hlater].
    + change (String c more +:+ after) with (String c (more +:+ after)).
      cbn [matches]. change (String c (more +:+ after)) with (String c more +:+ after).
      rewrite (matches_here_more _ _ _ Hhere). reflexivity.
    + change (String c more +:+ after) with (String c (more +:+ after)).
      cbn [matches]. rewrite (IH Hlater). apply orb_true_r.
Qed.

Lemma matches_later alternative before input :
  matches alternative input = true -> matches alternative (before +:+ input) = true.
Proof.
  intros Hfound. induction before as [|c before IH]; [exact Hfound|].
  change (String c before +:+ input) with (String c (before +:+ input)).
  cbn [matches]. rewrite IH. apply orb_true_r.
Qed.

Lemma existsb_impl {A} (f g : A -> bool) l :
  (forall x, f x = true -> g x = true) -> existsb f l = true -> existsb g l = true.
Proof.
  intros Hfg. rewrite !existsb_exists. intros (x & Hin & Hx). eauto.
Qed.

(** X23. The triggers are looked for anywhere in the input, not word by
    word: an input that goes to the planner still goes to it with any text
    before and after it, so that [restart] or [brunch] are triggers as
    [start] and [run] are. *)
Theorem triggers_ignore_surrounding_text input before after :
  shouldUseTools input = true ->
  shouldUseTools (before +:+ input +:+ after) = true.
Proof.
  unfold shouldUseTools, test. apply existsb_impl. intros pattern.
  apply existsb_impl. intros alternative Hfound.
  apply matches_later, matches_more, Hfound.
Qed.

Lemma canonical_twice c : canonical (canonical c) = canonical c.
Proof. destruct c as [[] [] [] [] [] [] [] []]; reflexivity. Qed.

Lemma matches_here_capitals alternative input :
  matches_here alternative (capitals input) = matches_here alternative input.
Proof.
  revert input. induction alternative as [|a rest IH]; intros [|c more]; try reflexivity.
  simpl. rewrite canonical_twice, IH. reflexivity.
Qed.

Lemma matches_capitals alternative input :
  matches alternative (capitals input) = matches alternative input.
Proof.
  induction input as [|c more IH].
  - reflexivity.
  - change (capitals (String c more)) with (String (canonical c) (capitals more)).
    cbn [matches]. rewrite IH. f_equal.
    apply (matches_here_capitals alternative (String c more)).
Qed.

Lemma existsb_ext' {A} (f g : A -> bool) l :
  (forall x, f x = g x) -> existsb f l = existsb g l.
Proof. intros Hfg. induction l as [|x l IH]; simpl; [reflexivity|]. rewrite Hfg, IH. reflexivity. Qed.

(** X24. The triggers are read without regard to the case of the letters
    [a] to [z]: an input and the same input in capitals go the same way. *)
Theorem triggers_ignore_case input :
  shouldUseTools (capitals input) = shouldUseTools input.
Proof.
  unfold shouldUseTools, test. apply existsb_ext'. intros pattern.
  apply existsb_ext'. intros alternative. apply matches_capitals.
Qed.
End Triggers.

(** ** The assistant: sequencing *)

Section ActRuns.
Context `{Runtime}.
Import Jarvis.

Lemma next_run {A B} (m : Act A) (k : A -> Act B) j s p e j' s' a :
  m j s = Build_Ran p e j' s' (Return a) ->
  next m k j s =
  Build_Ran (p ++ passed (k a j' s')) (e ++ made (k a j' s')) (self (k a j' s'))
    (left (k a j' s')) (ended (k a j' s')).
Proof. intros Hm. unfold next. rewrite Hm. reflexivity. Qed.

Lemma next_run_throw {A B} (m : Act A) (k : A -> Act B) j s p e j' s' x :
  m j s = Build_Ran p e j' s' (Throw x) ->
  next m k j s = Build_Ran p e j' s' (Throw x).
Proof. intros Hm. unfold next. rewrite Hm. reflexivity. Qed.

(** After a step that passed nothing and made no call. *)
Lemma next_quiet {A B} (m : Act A) (k : A -> Act B) j s j' s' a :
  m j s = Build_Ran [] [] j' s' (Return a) -> next m k j s = k a j' s'.
Proof. intros Hm. unfold next. rewrite Hm. cbn. destruct (k a j' s'); reflexivity. Qed.

Lemma ran_eta {A} (r : Ran A) :
  Build_Ran (passed r) (made r) (self r) (left r) (ended r) = r.
Proof. destruct r; reflexivity. Qed.

Section Observing.
Context (R : Trace) `{!Composable R}.

Lemma observes_pure {A} (a : A) : observes R (pure a).
Proof. intros j s. apply trace_refl. Qed.

Lemma observes_raise {A} e : observes R (@raise _ A e).
Proof. intros j s. apply trace_refl. Qed.

Lemma observes_this : observes R this.
Proof. intros j s. apply trace_refl. Qed.

Lemma observes_reading {A} (f : World -> A) : observes R (reading f).
Proof. intros j s. apply trace_refl. Qed.

Lemma observes_calling {A} (f : World -> (Exn + A) * World) : observes R (calling f).
Proof. intros j s. unfold calling. destruct (f (world s)). apply trace_refl. Qed.

Lemma observes_emitting c what : observes R (emitting c what).
Proof. apply observes_calling. Qed.

Lemma observes_hand_over messages : observes R (hand_over messages).
Proof. intros j s. apply trace_refl. Qed.

Lemma observes_next {A B} (m : Act A) (k : A -> Act B) :
  observes R m -> (forall a, observes R (k a)) -> observes R (next m k).
Proof.
  intros Hm Hk j s. unfold next. specialize (Hm j s).
  destruct (ended (m j s)) as [a|e]; cbn [passed made self]; [|exact Hm].
  eapply trace_trans; [exact Hm|apply Hk].
Qed.

Lemma observes_catch {A} (m : Act A) (handler : Exn -> Act A) :
  observes R m -> (forall e, observes R (handler e)) -> observes R (catch m handler).
Proof.
  intros Hm Hh j s. unfold catch. specialize (Hm j s).
  destruct (ended (m j s)) as [a|e]; cbn [passed made self]; [exact Hm|].
  eapply trace_trans; [exact Hm|apply Hh].
Qed.

Lemma observes_update (f : Self -> Self) :
  (forall j, R j [] [] (f j)) -> observes R (update f).
Proof. intros Hf j s. apply Hf. Qed.

Lemma observes_forward (gen : Gen unit) :
  (forall j s, R j (map Forwarded (yielded (gen s))) (events (gen s)) j) ->
  observes R (forward gen).
Proof. intros Hgen j s. apply Hgen. Qed.
End Observing.

#[global] Instance forwarding_composable : Composable forwarding.
Proof.
  split; unfold forwarding.
  - intros _. exists []. reflexivity.
  - intros _ p1 _ _ p2 _ _ [f1 ->] [f2 ->]. exists (f1 ++ f2). rewrite map_app. reflexivity.
Qed.

#[global] Instance calling_only_composable P : Composable (calling_only P).
Proof.
  split; unfold calling_only; [constructor|]. intros. apply Forall_app. auto.
Qed.

#[global] Instance growing_composable : Composable growing.
Proof.
  split; unfold growing, objects_kept.
  - intros j. split; [auto|reflexivity].
  - intros j1 _ _ j2 _ _ j3 [Hk1 Hp1] [Hk2 Hp2]. split; [auto|etransitivity; eassumption].
Qed.

#[global] Instance settling_composable : Composable settling.
Proof.
  split; unfold settling, objects_kept.
  - intros j. auto.
  - intros j1 p1 _ j2 p2 _ j3 (-> & Hk1 & Hc1) (-> & Hk2 & Hc2).
    split; [reflexivity|]. split; [auto|congruence].
Qed.

Lemma set_status_settling text j : settling j [] [] (set_status text j).
Proof. unfold settling, objects_kept. auto. Qed.

Lemma fresh_object (j : Self) : objects j !! new_ref j = None.
Proof. unfold new_ref. apply not_elem_of_dom, is_fresh. Qed.

Lemma add_object_kept m j : objects_kept j (add_object m j).
Proof.
  intros l m' Hl. cbn. rewrite lookup_insert_ne; [exact Hl|].
  intros <-. rewrite fresh_object in Hl. discriminate.
Qed.

Lemma new_message_growing m : observes growing (new_message m).
Proof. intros j s. split; [apply add_object_kept|reflexivity]. Qed.

Lemma remember_growing role content : observes growing (remember role content).
Proof.
  unfold remember. apply observes_next; [typeclasses eauto|apply new_message_growing|].
  intros l. apply observes_update.
  intros j. split; [intros l' m Hl'; exact Hl'|]. apply prefix_app_r. reflexivity.
Qed.
End ActRuns.

(** Applies a rule of sequencing for the assistant. *)
Ltac observe rule := apply rule; [typeclasses eauto|..].

(** ** The assistant: the context it builds *)

Section ContextBuilt.
Context `{Runtime}.
Import Jarvis.

Lemma attach_text given l (o : gmap loc Message) l' m :
  o !! l' = Some m ->
  exists m', alter (attach given) l o !! l' = Some m'
             /\ role m' = role m /\ content m' = content m.
Proof.
  intros Hl'. destruct (decide (l = l')) as [->|Hne].
  - rewrite lookup_alter_eq, Hl'. eexists. split; [reflexivity|]. split; reflexivity.
  - rewrite lookup_alter_ne by exact Hne. eauto.
Qed.

Lemma last_slice_last {A} n (a : list A) : 0 < n -> last (slice_last n a) = last a.
Proof.
  intros Hn. unfold slice_last. destruct a as [|x a]; [reflexivity|].
  rewrite !last_lookup. rewrite lookup_drop, length_drop. f_equal. simpl length. lia.
Qed.

Lemma last_cons_app {A} (x : A) l1 l2 y :
  last l2 = Some y -> last (x :: l1 ++ l2) = Some y.
Proof.
  intros Hy. destruct l2 as [|z l2]; [discriminate|].
  change (x :: l1 ++ z :: l2) with ((x :: l1) ++ z :: l2).
  rewrite last_app, Hy. reflexivity.
Qed.

Lemma with_input_run input messages j s :
  with_input input messages j s =
  if decide (last_content j messages = Some input)
  then Build_Ran [] [] j s (Return messages)
  else Build_Ran [] [] (add_object (plain_message "user" input) j) s
         (Return (messages ++ [new_ref j])).
Proof.
  unfold with_input. erewrite next_run by reflexivity.
  destruct (decide (last_content j messages = Some input)); reflexivity.
Qed.

Lemma with_attachments_run context messages j s :
  with_attachments context messages j s =
  Build_Ran [] []
    match given_attachments context, last messages with
    | Some given, Some l => write_attachments l given j
    | _, _ => j
    end s (Return tt).
Proof.
  unfold with_attachments.
  destruct (given_attachments context), (last messages); reflexivity.
Qed.

Lemma recalled_message_run memories j s :
  recalled_message memories j s =
  Build_Ran [] []
    match memories with
    | [] => j
    | _ :: _ => add_object (plain_message "system" (memory_message memories)) j
    end s
    (Return match memories with [] => [] | _ :: _ => [new_ref j] end).
Proof. destruct memories; reflexivity. Qed.

(** What [buildContext] comes to. *)
Lemma buildContext_run c input memories context j s :
  let system := new_ref j in
  let j1 := add_object (plain_message "system" (getSystemPrompt c (clock c (world s)))) j in
  let recalled := match memories with [] => [] | _ :: _ => [new_ref j1] end in
  let j2 :=
    match memories with
    | [] => j1
    | _ :: _ => add_object (plain_message "system" (memory_message memories)) j1
    end in
  let history := slice_last maxContextMessages (currentContext j) in
  let repeated := bool_decide (last_content j2 (system :: recalled ++ history) = Some input) in
  let pushed := if repeated then [] else [new_ref j2] in
  let j3 := if repeated then j2 else add_object (plain_message "user" input) j2 in
  let messages := system :: recalled ++ history ++ pushed in
  let j4 :=
    match given_attachments context, last messages with
    | Some given, Some l => write_attachments l given j3
    | _, _ => j3
    end in
  buildContext c input memories context j s =
  Build_Ran [] [] j4 s
    (Return {| fc_messages := messages;
               fc_tools := Registry.getToolDefinitions (plugins c);
               fc_context := context |}).
Proof.
  intros system j1 recalled j2 history repeated pushed j3 messages j4.
  unfold buildContext.
  erewrite next_quiet by reflexivity. erewrite next_quiet by reflexivity.
  erewrite next_quiet by apply recalled_message_run.
  erewrite next_quiet by reflexivity.
  change (add_object _ j) with j1.
  change (match memories with [] => j1 | _ :: _ => _ end) with j2.
  change (match memories with [] => [] | _ :: _ => _ end) with recalled.
  change (new_ref j) with system.
  replace (currentContext j2) with (currentContext j)
    by (subst j2 j1; destruct memories; reflexivity).
  fold history. rewrite (next_quiet _ _ _ _ j3 s (system :: recalled ++ history ++ pushed)).
  - erewrite next_quiet by apply with_attachments_run. reflexivity.
  - rewrite with_input_run. subst j3 pushed repeated.
    destruct (decide (last_content j2 (system :: recalled ++ history) = Some input))
      as [Heq|Hne].
    + rewrite bool_decide_eq_true_2 by exact Heq. rewrite app_nil_r. reflexivity.
    + rewrite bool_decide_eq_false_2 by exact Hne.
      change ((system :: recalled ++ history) ++ [new_ref j2])
        with (system :: (recalled ++ history) ++ [new_ref j2]).
      rewrite <- app_assoc. reflexivity.
Qed.
End ContextBuilt.

Section ContextFacts.
Context `{Runtime}.
Import Jarvis.

Lemma length_slice_last {A} n (a : list A) : length (slice_last n a) <= n.
Proof. unfold slice_last. rewrite length_drop. lia. Qed.

Lemma add_object_new m j : objects (add_object m j) !! new_ref j = Some m.
Proof. apply lookup_insert_eq. Qed.

(** X25. The context built for an input: a new system message with the
    prompt comes first, then at most one message of memories, then the last
    twenty messages of the history, the very objects the history holds, then
    the input as a new user message unless the last message has its content
    already; at most 23 messages.  The last message always has the input as
    its content, whatever its role.  The history itself gets no message,
    nothing is yielded and nothing is called. *)
Theorem buildContext_ends_with_the_input c input memories context j s :
  let r := buildContext c input memories context j s in
  exists full system recalled pushed,
    ended r = Return full
    /\ passed r = [] /\ made r = [] /\ left r = s
    /\ currentContext (self r) = currentContext j
    /\ fc_messages full
       = system :: recalled ++ slice_last maxContextMessages (currentContext j) ++ pushed
    /\ length recalled <= 1 /\ length pushed <= 1 /\ length (fc_messages full) <= 23
    /\ objects j !! system = None
    /\ (exists m, objects (self r) !! system = Some m /\ role m = "system"
                  /\ content m = getSystemPrompt c (clock c (world s)))
    /\ (exists l m, last (fc_messages full) = Some l /\ objects (self r) !! l = Some m
                    /\ content m = input).
Proof.
  intros r. subst r. rewrite buildContext_run. cbv zeta.
  set (j1 := add_object (plain_message "system" _) j).
  set (recalled := match memories with [] => [] | _ :: _ => [new_ref j1] end).
  set (j2 := match memories with [] => j1 | _ :: _ => add_object _ j1 end).
  set (history := slice_last maxContextMessages (currentContext j)).
  set (repeated := bool_decide _).
  set (pushed := if repeated then [] else [new_ref j2]).
  set (j3 := if repeated then j2 else add_object (plain_message "user" input) j2).
  set (messages := new_ref j :: recalled ++ history ++ pushed).
  set (j4 := match given_attachments context with Some _ => _ | None => _ end).
  assert (H12 : objects_kept j1 j2)
    by (subst j2; destruct memories; [intros l m Hl; exact Hl|apply add_object_kept]).
  assert (H23 : objects_kept j2 j3)
    by (subst j3; destruct repeated; [intros l m Hl; exact Hl|apply add_object_kept]).
  assert (H34 : forall l m, objects j3 !! l = Some m ->
                  exists m', objects j4 !! l = Some m'
                             /\ role m' = role m /\ content m' = content m).
  { intros l m Hl. subst j4. destruct (given_attachments context) as [given|]; [|eauto].
    destruct (last messages) as [l'|]; [|eauto]. apply attach_text, Hl. }
  assert (Hrecalled : length recalled <= 1) by (subst recalled; destruct memories; simpl; lia).
  assert (Hpushed : length pushed <= 1) by (subst pushed; destruct repeated; simpl; lia).
  cbn [ended passed made left self fc_messages].
  exists {| fc_messages := messages;
            fc_tools := Registry.getToolDefinitions (plugins c);
            fc_context := context |}, (new_ref j), recalled, pushed.
  cbn [fc_messages].
  split; [reflexivity|]. split; [reflexivity|]. split; [reflexivity|]. split; [reflexivity|].
  split.
  { subst j4 j3 j2 j1. destruct (given_attachments context), (last messages), repeated,
      memories; reflexivity. }
  split; [reflexivity|]. split; [exact Hrecalled|]. split; [exact Hpushed|]. split.
  { subst messages. cbn [length fc_messages]. rewrite !length_app.
    pose proof (length_slice_last maxContextMessages (currentContext j)) as Hhistory.
    fold history in Hhistory. unfold maxContextMessages in Hhistory. lia. }
  split; [apply fresh_object|]. split.
  - destruct (H34 (new_ref j) (plain_message "system" (getSystemPrompt c (clock c (world s)))))
      as (m & Hm & Hrole & Hcontent); [|eauto].
    apply H23, H12. apply add_object_new.
  - subst messages pushed j3. unfold repeated in *. clear repeated.
    destruct (decide (last_content j2 (new_ref j :: recalled ++ history) = Some input))
      as [Heq|Hne].
    + rewrite bool_decide_eq_true_2 in * by exact Heq. rewrite app_nil_r in *.
      unfold last_content in Heq.
      destruct (last (new_ref j :: recalled ++ history)) as [l|] eqn:Hlast; [|discriminate].
      cbn in Heq. destruct (objects j2 !! l) as [m|] eqn:Hl; [|discriminate].
      cbn in Heq. injection Heq as Hcontent.
      destruct (H34 l m Hl) as (m' & Hm' & _ & Hcontent').
      exists l, m'. split; [reflexivity|]. split; [exact Hm'|congruence].
    + rewrite bool_decide_eq_false_2 in * by exact Hne.
      assert (Hlast : last (new_ref j :: recalled ++ history ++ [new_ref j2])
                      = Some (new_ref j2)).
      { change (new_ref j :: recalled ++ history ++ [new_ref j2])
          with ((new_ref j :: recalled) ++ history ++ [new_ref j2]).
        rewrite !app_assoc. apply last_snoc. }
      destruct (H34 (new_ref j2) (plain_message "user" input) (add_object_new _ _))
        as (m' & Hm' & _ & Hcontent').
      exists (new_ref j2), m'. split; [exact Hlast|]. split; [exact Hm'|exact Hcontent'].
Qed.
End ContextFacts.

(** ** The assistant: a run of [process] *)

Section ProcessRuns.
Context `{Runtime}.
Import Jarvis.

Lemma remember_run role content j s :
  remember role content j s =
  Build_Ran [] [] (push_context (new_ref j) (add_object (plain_message role content) j)) s
    (Return tt).
Proof. reflexivity. Qed.

Lemma calling_run {A} (f : World -> (Exn + A) * World) j s a w :
  f (world s) = (inr a, w) ->
  calling f j s = Build_Ran [] [] j {| world := w; heap := heap s |} (Return a).
Proof. intros Hf. unfold calling. rewrite Hf. reflexivity. Qed.

Lemma calling_run_throw {A} (f : World -> (Exn + A) * World) j s e w :
  f (world s) = (inl e, w) ->
  calling f j s = Build_Ran [] [] j {| world := w; heap := heap s |} (Throw e).
Proof. intros Hf. unfold calling. rewrite Hf. reflexivity. Qed.

Lemma calling_self {A} (f : World -> (Exn + A) * World) j s :
  self (calling f j s) = j /\ passed (calling f j s) = [] /\ made (calling f j s) = [].
Proof. unfold calling. destruct (f (world s)). auto. Qed.


Lemma next_returned {A B} (m : Act A) (k : A -> Act B) j s b :
  ended (next m k j s) = Return b ->
  exists a,
    ended (m j s) = Return a
    /\ ended (k a (self (m j s)) (left (m j s))) = Return b
    /\ passed (next m k j s) = passed (m j s) ++ passed (k a (self (m j s)) (left (m j s)))
    /\ self (next m k j s) = self (k a (self (m j s)) (left (m j s))).
Proof.
  unfold next. destruct (ended (m j s)) as [a|e]; [|discriminate].
  cbn. intros Hb. exists a. auto.
Qed.

Lemma settling_quiet {A} (m : Act A) :
  (forall j s, passed (m j s) = [] /\ self (m j s) = j) -> observes settling m.
Proof.
  intros Hm j s. destruct (Hm j s) as [-> ->]. split; [reflexivity|].
  split; [intros l x Hl; exact Hl|reflexivity].
Qed.

Lemma calling_settling {A} (f : World -> (Exn + A) * World) : observes settling (calling f).
Proof. apply observes_calling; typeclasses eauto. Qed.

Lemma storing_settling c input response context :
  observes settling (storing c input response context).
Proof.
  unfold storing. observe observes_next; [observe observes_this|].
  intros j. apply calling_settling.
Qed.

Lemma speaking_settling c context response :
  observes settling (speaking c context response).
Proof.
  unfold speaking. destruct (_ && _); [|observe observes_pure].
  observe observes_next; [apply observes_update, set_status_settling|].
  intros _. apply calling_settling.
Qed.

(** The steps after the response is in the history. *)
Lemma conclude_returned c input context response j s :
  let r := conclude c input context response j s in
  ended r = Return tt ->
  passed r = []
  /\ last (currentContext (self r)) = Some (new_ref j)
  /\ objects (self r) !! new_ref j = Some (plain_message "assistant" response)
  /\ status (self r) = "ready".
Proof.
  intros r Hreturn. subst r. unfold conclude in *.
  rewrite (next_quiet _ _ _ _ _ _ _ (remember_run _ _ _ _)) in *.
  set (j1 := push_context (new_ref j) (add_object (plain_message "assistant" response) j)) in *.
  assert (Hlast : last (currentContext j1) = Some (new_ref j)) by apply last_snoc.
  assert (Hobject : objects j1 !! new_ref j = Some (plain_message "assistant" response))
    by apply add_object_new.
  apply next_returned in Hreturn as ([] & _ & Hreturn & -> & ->).
  pose proof (storing_settling c input response context j1 s) as (-> & Hkept1 & Hsame1).
  set (r1 := storing c input response context j1 s) in *.
  apply next_returned in Hreturn as ([] & _ & Hreturn & -> & ->).
  pose proof (speaking_settling c context response (self r1) (left r1))
    as (-> & Hkept2 & Hsame2).
  set (r2 := speaking c context response (self r1) (left r1)) in *.
  rewrite (next_quiet _ _ _ _ (set_status "ready" (self r2)) (left r2) tt eq_refl) in *.
  destruct (calling_self
              (fun w => let '(thrown, w') := emit c (Complete response) w in
                        (match thrown with Some e => inl e | None => inr tt end, w'))
              (set_status "ready" (self r2)) (left r2)) as (Hself & Hpassed & _).
  unfold emitting. rewrite Hself, Hpassed. cbn [app status currentContext objects set_status].
  split; [reflexivity|]. split; [congruence|]. split; [auto|reflexivity].
Qed.

(** The response is what the chunks passed on say. *)
Lemma generate_run c input fullContext messages j s :
  let r := generate c input fullContext messages j s in
  exists chunks,
    passed r = map Forwarded chunks
    /\ forall response,
         ended r = Return response ->
         response = foldr String.append "" (map chunk_content chunks)
         /\ objects (self r) = objects j
         /\ currentContext (self r) = currentContext j.
Proof.
  intros r. subst r. unfold generate. cbv zeta. destruct (shouldUseTools input).
  - erewrite next_quiet by reflexivity.
    set (gen := TaskPlanner.execute _ _).
    unfold next.
    destruct (calling_self
                (fun w => let '(thrown, w') := emit c Executing w in
                          (match thrown with Some e => inl e | None => inr tt end, w'))
                (set_status "executing" j) s) as (Hself & Hpassed & _).
    unfold emitting.
    set (r0 := calling _ (set_status "executing" j) s) in *.
    destruct (ended r0) as [[]|e].
    + exists (yielded (gen (left r0))). cbn [passed ended self forward].
      rewrite Hpassed. split; [reflexivity|]. intros response.
      destruct (completion (gen (left r0))); [|discriminate].
      intros [= <-]. rewrite Hself. auto.
    + exists []. cbn [passed ended]. split; [exact Hpassed|]. discriminate.
  - set (gen := AIGateway.stream _ _).
    exists (yielded (gen s)). cbn [forward passed ended self]. split; [reflexivity|].
    intros response. destruct (completion (gen s)); [|discriminate].
    intros [= <-]. auto.
Qed.

Lemma buildContext_quiet c input memories context j s :
  exists full j',
    buildContext c input memories context j s = Build_Ran [] [] j' s (Return full).
Proof. eexists _, _. apply buildContext_run. Qed.

(** A run of the [try] block that completes. *)
Lemma answer_returned c input context j s :
  let r := answer c input context j s in
  ended r = Return tt ->
  exists chunks l,
    passed r = map Forwarded chunks
    /\ last (currentContext (self r)) = Some l
    /\ objects (self r) !! l
       = Some (plain_message "assistant" (foldr String.append "" (map chunk_content chunks)))
    /\ status (self r) = "ready".
Proof.
  intros r Hreturn. subst r. unfold answer in *.
  rewrite (next_quiet _ _ _ _ _ _ _ (remember_run _ _ _ _)) in *.
  set (j1 := push_context _ _) in *.
  destruct (recall c input (world s)) as [[e|memories] w] eqn:Hrecall.
  { rewrite (next_run_throw _ _ _ _ _ _ _ _ _ (calling_run_throw _ _ _ _ _ Hrecall))
      in Hreturn. discriminate. }
  rewrite (next_quiet _ _ _ _ _ _ _ (calling_run _ _ _ _ _ Hrecall)) in *.
  set (s1 := {| world := w; heap := heap s |}) in *.
  destruct (buildContext_quiet c input memories context j1 s1) as (full & j2 & Hbuilt).
  rewrite (next_quiet _ _ _ _ _ _ _ Hbuilt) in *.
  rewrite (next_quiet _ _ _ _ j2 _ _ eq_refl) in *.
  set (messages := fresh (dom (heap s1))) in *.
  set (s2 := {| world := world s1; heap := _ |}) in *.
  apply next_returned in Hreturn as (response & Hresponse & Hreturn & -> & ->).
  destruct (generate_run c input full messages j2 s2) as (chunks & Hchunks & Hgenerated).
  destruct (Hgenerated response Hresponse) as (-> & _ & _).
  set (r1 := generate c input full messages j2 s2) in *.
  destruct (conclude_returned c input context _ (self r1) (left r1) Hreturn)
    as (Hpassed & Hlast & Hobject & Hstatus).
  exists chunks, (new_ref (self r1)).
  rewrite Hpassed, app_nil_r. auto.
Qed.
End ProcessRuns.

Section ProcessFacts.
Context `{Runtime}.
Import Jarvis.

Lemma generate_growing c input fullContext messages :
  observes growing (generate c input fullContext messages).
Proof.
  unfold generate. cbv zeta. destruct (shouldUseTools input).
  - observe observes_next.
    { apply observes_update. intros j. split; [intros l m Hl; exact Hl|reflexivity]. }
    intros _. observe observes_next; [observe observes_emitting|].
    intros _. apply observes_forward. intros j s.
    split; [intros l m Hl; exact Hl|reflexivity].
  - apply observes_forward. intros j s. split; [intros l m Hl; exact Hl|reflexivity].
Qed.

Lemma settling_growing {A} (m : Act A) : observes settling m -> observes growing m.
Proof.
  intros Hm j s. destruct (Hm j s) as (_ & Hkept & Hsame).
  split; [exact Hkept|]. rewrite Hsame. reflexivity.
Qed.

Lemma conclude_growing c input context response :
  observes growing (conclude c input context response).
Proof.
  unfold conclude. observe observes_next; [apply remember_growing|]. intros _.
  observe observes_next; [apply settling_growing, storing_settling|]. intros _.
  observe observes_next; [apply settling_growing, speaking_settling|]. intros _.
  observe observes_next.
  { apply settling_growing, observes_update, set_status_settling. }
  intros _. observe observes_emitting.
Qed.

(** X26. The attachments given with an input are written to the user
    message that the history holds, not to a copy made for the request:
    once the memories are recalled, and however the run goes on, the
    history has a message with the role [user], the input and these
    attachments, so that every later request that reaches back to this
    message sends the attachments again. *)
Theorem attachments_stay_in_history c input context j s memories w given :
  recall c input (world s) = (inr memories, w) ->
  given_attachments context = Some given ->
  let r := answer c input context j s in
  exists l,
    l ∈ currentContext (self r)
    /\ objects (self r) !! l = Some (attach given (plain_message "user" input))
    /\ objects j !! l = None.
Proof.
  intros Hrecall Hgiven r. subst r. unfold answer.
  rewrite (next_quiet _ _ _ _ _ _ _ (remember_run _ _ _ _)).
  set (user := plain_message "user" input).
  set (j1 := push_context (new_ref j) (add_object user j)).
  rewrite (next_quiet _ _ _ _ _ _ _ (calling_run _ _ _ _ _ Hrecall)).
  set (s1 := {| world := w; heap := heap s |}).
  rewrite (next_quiet _ _ _ _ _ _ _ (buildContext_run c input memories context j1 s1)).
  cbv zeta.
  set (j2 := add_object (plain_message "system" (getSystemPrompt c _)) j1).
  set (recalled := match memories with [] => [] | _ :: _ => [new_ref j2] end).
  set (j3 := match memories with [] => j2 | _ :: _ => add_object _ j2 end).
  set (history := slice_last maxContextMessages (currentContext j1)).
  assert (Hlast : last (new_ref j1 :: recalled ++ history) = Some (new_ref j)).
  { apply last_cons_app. subst history.
    rewrite last_slice_last by (unfold maxContextMessages; lia). apply last_snoc. }
  assert (Huser : objects j3 !! new_ref j = Some user).
  { assert (H1 : objects j1 !! new_ref j = Some user) by apply add_object_new.
    assert (H2 : objects j2 !! new_ref j = Some user) by (apply add_object_kept, H1).
    subst j3. destruct memories; [exact H2|apply add_object_kept, H2]. }
  assert (Hrepeated : last_content j3 (new_ref j1 :: recalled ++ history) = Some input).
  { unfold last_content. rewrite Hlast. cbn. rewrite Huser. reflexivity. }
  rewrite (bool_decide_eq_true_2 _ Hrepeated). rewrite app_nil_r, Hlast, Hgiven.
  set (j4 := write_attachments (new_ref j) given j3).
  assert (Hattached : objects j4 !! new_ref j = Some (attach given user)).
  { subst j4. cbn. rewrite lookup_alter_eq, Huser. reflexivity. }
  assert (Hhistory : new_ref j ∈ currentContext j4).
  { assert (Heq : currentContext j4 = currentContext j ++ [new_ref j])
      by (subst j4 j3 j2; destruct memories; reflexivity).
    rewrite Heq. apply elem_of_app. right. apply list_elem_of_here. }
  set (rest := next (hand_over _) _).
  assert (Hrest : observes growing rest).
  { subst rest. observe observes_next; [observe observes_hand_over|]. intros messages.
    observe observes_next; [apply generate_growing|]. intros response.
    apply conclude_growing. }
  destruct (Hrest j4 s1) as [Hkept Hprefix].
  exists (new_ref j). split; [|split].
  - destruct Hprefix as [more ->]. apply elem_of_app. left. exact Hhistory.
  - apply Hkept, Hattached.
  - apply fresh_object.
Qed.

Lemma calling_only_quiet {A} P (m : Act A) :
  (forall j s, made (m j s) = []) -> observes (calling_only P) m.
Proof. intros Hquiet j s. unfold calling_only. rewrite Hquiet. constructor. Qed.

Lemma stream_direct_calls request s :
  rq_taskType request = None ->
  Forall direct_call (events (AIGateway.stream request None s)).
Proof.
  intros Hgeneral.
  destruct (heap s !! rq_messages request) as [msgs|] eqn:Hmsgs.
  2:{ rewrite stream_nothing by exact Hmsgs. constructor. }
  rewrite (stream_run _ _ _ msgs) by exact Hmsgs. cbv zeta.
  assert (Hone : forall model s',
            model = AIGateway.selectModel None \/ model = config.fastModel ->
            Forall direct_call
              (events (AIGateway.attempt model (params_for request msgs model) s'))).
  { intros model s' Hmodel. rewrite attempt_events. apply Forall_cons_2; [|constructor].
    split; [reflexivity|]. unfold general_call, params_for.
    destruct (build_params_sent model (AIGateway.formatMessages msgs) (rq_tools request))
      as (-> & _). exact Hmodel. }
  assert (Hmodel : AIGateway.model_in_use request None = AIGateway.selectModel None)
    by (unfold AIGateway.model_in_use; rewrite Hgeneral; reflexivity).
  rewrite Hmodel.
  destruct (completion (AIGateway.attempt _ _ s)); [apply Hone; auto|].
  destruct (decide (_ = config.fastModel)); [apply Hone; auto|].
  unfold and_then. cbn [events]. apply Forall_app. split; apply Hone; auto.
Qed.

Lemma direct_calls_invoke_nothing evs :
  Forall direct_call evs -> tools_invoked evs = [] /\ gateway_inputs evs = [].
Proof.
  induction 1 as [|ev evs [Hev _] _ [IHtools IHinputs]]; [split; reflexivity|].
  destruct ev; try discriminate. split; assumption.
Qed.

Lemma process_direct c input context :
  shouldUseTools input = false ->
  observes (calling_only direct_call) (process c input context).
Proof.
  intros Hdirect. unfold process.
  observe observes_next; [apply calling_only_quiet; reflexivity|]. intros _.
  observe observes_next; [apply calling_only_quiet; reflexivity|]. intros _.
  observe observes_next; [observe observes_emitting|]. intros _.
  observe observes_catch.
  - unfold answer.
    observe observes_next; [apply calling_only_quiet; reflexivity|]. intros _.
    observe observes_next; [observe observes_calling|]. intros memories.
    observe observes_next.
    { apply calling_only_quiet. intros j s. rewrite buildContext_run. reflexivity. }
    intros fullContext.
    observe observes_next; [observe observes_hand_over|]. intros messages.
    observe observes_next.
    { unfold generate. rewrite Hdirect. apply observes_forward.
      intros j s. apply stream_direct_calls. reflexivity. }
    intros response. unfold conclude, storing, speaking.
    observe observes_next; [apply calling_only_quiet; reflexivity|]. intros _.
    observe observes_next.
    { observe observes_next; [observe observes_this|]. intros j. observe observes_calling. }
    intros _. observe observes_next.
    { destruct (_ && _); [|observe observes_pure].
      observe observes_next; [apply calling_only_quiet; reflexivity|]. intros _.
      observe observes_emitting. }
    intros _. observe observes_next; [apply calling_only_quiet; reflexivity|]. intros _.
    observe observes_emitting.
  - intros error.
    observe observes_next; [apply calling_only_quiet; reflexivity|]. intros _.
    observe observes_next; [observe observes_emitting|]. intros _.
    apply calling_only_quiet. reflexivity.
Qed.

(** X27. An input without a trigger is answered by the gateway alone:
    whatever tool calls the model requests, they are passed on and no tool
    is invoked, the planner is not entered, and every call of the client is
    for the model of requests without a task type or for the fallback
    model, whatever task type the context of the input names. *)
Theorem direct_answer_invokes_no_tool c input context j s :
  shouldUseTools input = false ->
  let r := process c input context j s in
  tools_invoked (made r) = []
  /\ gateway_inputs (made r) = []
  /\ Forall general_call (made r).
Proof.
  intros Hdirect r. pose proof (process_direct c input context Hdirect j s) as Hcalls.
  fold r in Hcalls. unfold calling_only in Hcalls.
  destruct (direct_calls_invoke_nothing _ Hcalls) as [Htools Hinputs].
  split; [exact Htools|]. split; [exact Hinputs|].
  eapply Forall_impl; [exact Hcalls|]. intros ev [_ Hev]. exact Hev.
Qed.

(** X28. When the [try] block of [process] completes, the history ends
    with an assistant message whose content is the content of every chunk
    that was passed on, put together in order: after a run of the planner
    this is the text of the model together with the status lines and the
    reports of the tools, not the text of the model alone.  Only chunks of
    the planner or the gateway were passed, and the status is [ready]. *)
Theorem reply_collects_every_chunk_content c input context j s :
  let r := answer c input context j s in
  ended r = Return tt ->
  exists chunks l,
    passed r = map Forwarded chunks
    /\ last (currentContext (self r)) = Some l
    /\ objects (self r) !! l
       = Some (plain_message "assistant" (foldr String.append "" (map chunk_content chunks)))
    /\ status (self r) = "ready".
Proof. apply answer_returned. Qed.







End ProcessFacts.

(** ** A turn whose argument text does not parse *)

Section MalformedTurns.
Context `{Runtime}.
Import AIGateway TaskPlanner.

Lemma bind_returned {A B} (m : Gen A) (k : A -> Gen B) s a :
  completion (m s) = Return a -> bind m k s = and_then (m s) (k a (final (m s))).
Proof. intros Hm. unfold bind. rewrite Hm. reflexivity. Qed.

Lemma bind_thrown {A B} (m : Gen A) (k : A -> Gen B) s e :
  completion (m s) = Throw e ->
  bind m k s = Build_Out (yielded (m s)) (events (m s)) (final (m s)) (Throw e).
Proof. intros Hm. unfold bind. rewrite Hm. reflexivity. Qed.

Lemma for_of_acc_app {A S} (l1 l2 : list A) (acc : S) (body : S -> A -> Gen S) s :
  for_of_acc (l1 ++ l2) acc body s
  = bind (for_of_acc l1 acc body) (fun acc' => for_of_acc l2 acc' body) s.
Proof.
  revert acc s. induction l1 as [|x l1 IH]; intros acc s; cbn [app for_of_acc].
  - rewrite bind_ret_l. reflexivity.
  - rewrite bind_assoc. apply bind_ext. intros acc' s'. apply IH.
Qed.

Lemma no_done (chunks : list StreamChunk) :
  Forall (fun c => is_done c = false) chunks -> List.filter is_done chunks = [].
Proof.
  induction 1 as [|c chunks Hc _ IH]; [reflexivity|]. cbn [List.filter]. rewrite Hc. exact IH.
Qed.

(** *** The gateway *)

Lemma accumulated_app toolCalls chunks1 chunks2 :
  accumulated toolCalls (chunks1 ++ chunks2) = accumulated (accumulated toolCalls chunks1) chunks2.
Proof. apply foldl_app. Qed.

(** What a wire chunk does: its text, then, when it ends a round of tool
    calls, the loop over the accumulators. *)
Lemma on_chunk_run model toolCalls chunk s :
  on_chunk model toolCalls chunk s =
  and_then
    (Build_Out (map (fun c => Content c model) (texts [chunk])) [] s (Return tt))
    (bind (if decide (ends_tool_calls chunk)
           then for_of (accumulated toolCalls [chunk]) (emit_tool_call model)
           else ret tt)
       (fun _ => ret (accumulated toolCalls [chunk])) s).
Proof.
  unfold on_chunk. cbv zeta. unfold ends_tool_calls.
  unfold texts, accumulated, deltas_of. simpl.
  destruct ((wc_choice chunk ≫= ch_delta) ≫= d_content) as [c|]; simpl;
    [destruct (truthy c)|];
    destruct ((wc_choice chunk ≫= ch_delta) ≫= d_tool_calls); simpl;
    unfold bind at 1; cbn [yield ret completion final yielded events];
    reflexivity.
Qed.

(** The loop over accumulators that are all there and give their chunks. *)
Lemma emit_all model toolCalls s :
  Forall (from_option parses False) toolCalls ->
  exists ys, for_of toolCalls (emit_tool_call model) s = Build_Out ys [] s (Return tt).
Proof.
  induction 1 as [|[b|] toolCalls Hb _ IH]; cbn [for_of]; [eexists; reflexivity| |destruct Hb].
  destruct IH as (ys & IH). cbn [from_option] in Hb.
  assert (Hemit : exists ys', emit_tool_call model (Some b) s = Build_Out ys' [] s (Return tt)).
  { unfold emit_tool_call. destruct (truthy (acc_name b)) eqn:Hnamed.
    - destruct (Hb Hnamed) as (arguments & Harguments).
      unfold bind, parse. rewrite Harguments. cbn. eexists. reflexivity.
    - eexists. reflexivity. }
  destruct Hemit as (ys' & Hemit).
  erewrite bind_run by exact Hemit. rewrite IH. eexists. reflexivity.
Qed.

Lemma on_chunks_pass model chunks toolCalls s :
  passes toolCalls chunks ->
  exists ys,
    for_of_acc chunks toolCalls (on_chunk model) s =
    Build_Out ys [] s (Return (accumulated toolCalls chunks)).
Proof.
  revert toolCalls. induction chunks as [|chunk chunks IH]; intros toolCalls Hpass.
  - eexists. reflexivity.
  - destruct Hpass as [Hchunk Hpass]. destruct (IH _ Hpass) as (ys & Hrest).
    assert (Hrun : exists ys',
               on_chunk model toolCalls chunk s
               = Build_Out ys' [] s (Return (accumulated toolCalls [chunk]))).
    { rewrite on_chunk_run. destruct (decide (ends_tool_calls chunk)) as [Hends|_].
      - destruct (emit_all model _ s (Hchunk Hends)) as (ys' & Hemit).
        erewrite bind_run by exact Hemit. eexists. reflexivity.
      - eexists. reflexivity. }
    destruct Hrun as (ys' & Hrun).
    cbn [for_of_acc]. erewrite bind_run by exact Hrun. rewrite Hrest.
    change (chunk :: chunks) with ([chunk] ++ chunks). rewrite accumulated_app.
    eexists. reflexivity.
Qed.

(** The loop over the accumulators stops at the first whose argument text
    does not parse, after the tool-call chunks of those before it. *)
Lemma emit_until_malformed model well a rest msg s :
  Forall parses well -> malformed a msg ->
  exists ys,
    for_of (map Some well ++ Some a :: rest) (emit_tool_call model) s
    = Build_Out ys [] s (Throw (SyntaxError msg))
    /\ Forall (fun y => is_tool_call y = true) ys.
Proof.
  intros Hwell [Hname Hparse].
  induction Hwell as [|b well Hb _ IH]; cbn [map app for_of].
  - exists []. split; [|constructor].
    erewrite bind_run_throw; [reflexivity|].
    apply malformed_arguments_throw; assumption.
  - destruct IH as (ys & IH & Hys).
    assert (Hemit : exists ys',
               emit_tool_call model (Some b) s = Build_Out ys' [] s (Return tt)
               /\ Forall (fun y => is_tool_call y = true) ys').
    { unfold emit_tool_call. destruct (truthy (acc_name b)) eqn:Hnamed.
      - destruct (Hb Hnamed) as (arguments & Harguments).
        unfold bind, parse. rewrite Harguments. cbn. eexists. split; [reflexivity|].
        repeat constructor.
      - exists []. split; [reflexivity|constructor]. }
    destruct Hemit as (ys' & Hemit & Hys').
    exists (ys' ++ ys). split; [|apply Forall_app; auto].
    erewrite bind_run by exact Hemit. rewrite IH. reflexivity.
Qed.

(** The loop over the wire chunks of a response with a malformed turn. *)
Lemma on_chunks_malformed model response msg s :
  malformed_turn response msg ->
  exists ys,
    for_of_acc (rs_chunks response) [] (on_chunk model) s
    = Build_Out ys [] s (Throw (SyntaxError msg)).
Proof.
  intros (before & chunk & after & well & a & rest & -> & Hbefore & Hends & Hacc & Hwell & Ha).
  rewrite for_of_acc_app.
  destruct (on_chunks_pass model before [] s Hbefore) as (ys0 & Hpassed).
  erewrite bind_run by exact Hpassed.
  cbn [for_of_acc].
  rewrite accumulated_app in Hacc.
  destruct (emit_until_malformed model well a rest msg s Hwell Ha) as (ys & Hemit & _).
  assert (Hchunk : on_chunk model (accumulated [] before) chunk s
                   = Build_Out (map (fun c => Content c model) (texts [chunk]) ++ ys) [] s
                       (Throw (SyntaxError msg))).
  { rewrite on_chunk_run, decide_True by exact Hends. rewrite Hacc.
    erewrite bind_run_throw by exact Hemit. reflexivity. }
  erewrite bind_run_throw by exact Hchunk.
  cbn [yielded events final completion]. eexists. reflexivity.
Qed.

(** The attempt on such a response fails with the error of [JSON.parse]. *)
Lemma attempt_malformed model params s msg :
  malformed_turn (client_create params (world s)).1 msg ->
  completion (attempt model params s) = Throw (SyntaxError msg).
Proof.
  intros Hturn.
  destruct (attempt_run model params s) as (ys & c & Hloop & _ & Hattempt).
  cbv zeta in Hloop, Hattempt.
  destruct (on_chunks_malformed model _ msg s Hturn) as (ys' & Hthrown).
  rewrite Hloop in Hthrown. injection Hthrown as _ Hc. subst c.
  rewrite Hattempt. reflexivity.
Qed.

(** *** The planner *)

Lemma run_tools_no_done plugins messages responseText toolCalls :
  produces (fun c => is_done c = false) any_error
    (run_tools plugins messages responseText toolCalls).
Proof.
  unfold run_tools. apply produces_bind; [apply produces_yield; reflexivity|]. intros _.
  apply produces_bind; [apply produces_silent, array_push_silent|]. intros _.
  apply produces_bind; [|intros _; apply produces_yield; reflexivity].
  apply produces_for_of. intros tc.
  unfold run_tool. apply produces_try_catch with (E' := any_error).
  - apply produces_bind; [apply produces_yield; reflexivity|]. intros _.
    apply produces_bind.
    { apply produces_silent. intros s. rewrite plugins_execute_run. reflexivity. }
    intros result. apply produces_bind; [apply produces_silent, formatResult_silent|].
    intros shown. apply produces_bind; [apply produces_yield; reflexivity|]. intros _.
    apply produces_silent, array_push_silent.
  - intros error _. apply produces_bind; [apply produces_yield; reflexivity|]. intros _.
    apply produces_silent, array_push_silent.
Qed.

(** The run up to a turn it reaches: the array of messages is still there,
    no [done] chunk was yielded, and the loop ends as it ends from that
    turn. *)
Lemma reaches_run plugins context messages iterations s iterations' s' :
  reaches plugins context messages iterations s iterations' s' ->
  is_Some (heap s !! messages) ->
  is_Some (heap s' !! messages)
  /\ exists chunks,
       List.filter is_done chunks = []
       /\ yielded (loop plugins context messages iterations s)
          = chunks ++ yielded (loop plugins context messages iterations' s')
       /\ completion (loop plugins context messages iterations s)
          = completion (loop plugins context messages iterations' s').
Proof.
  induction 1 as [iterations s|iterations s responseText tc toolCalls iterations' s'
                                 Hlt Hturn _ IH]; intros Hthere.
  - split; [exact Hthere|]. exists []. auto.
  - destruct Hthere as [ms Hms].
    set (s1 := final (model_turn context messages s)) in *.
    assert (Hms1 : heap s1 !! messages = Some ms).
    { pose proof (model_turn_heap_kept context messages s) as Hkept.
      unfold heap_kept in Hkept. subst s1. rewrite Hkept. exact Hms. }
    pose proof (run_tools_run plugins messages responseText (tc :: toolCalls) s1 ms Hms1)
      as Htools. cbv zeta in Htools.
    set (tools := run_tools plugins messages responseText (tc :: toolCalls) s1) in *.
    destruct IH as (Hthere' & chunks & Hdone & Hyielded & Hcompletion).
    { rewrite Htools. cbn [final heap]. rewrite lookup_insert_eq. eauto. }
    split; [exact Hthere'|].
    exists (yielded (model_turn context messages s) ++ yielded tools ++ chunks).
    rewrite loop_step by exact Hlt.
    rewrite (bind_returned _ _ _ _ Hturn). cbn [snd fst]. fold s1.
    assert (Hreturned : completion tools = Return tt) by (rewrite Htools; reflexivity).
    rewrite (bind_returned _ _ _ _ Hreturned). fold tools.
    unfold and_then; cbn [yielded completion].
    rewrite Hyielded, Hcompletion, <- !app_assoc.
    split; [|split; reflexivity].
    rewrite !List.filter_app, Hdone, app_nil_r.
    rewrite model_turn_run. cbn [yielded]. rewrite done_in_content. cbn [app].
    apply no_done. apply (run_tools_no_done plugins messages responseText (tc :: toolCalls) s1).
Qed.

(** A turn in which [stream] throws ends the run. *)
Lemma turn_aborts plugins context s0 ms0 iterations s e :
  heap s0 !! cx_messages context = Some ms0 ->
  reaches plugins context (private_copy s0) 0 (entered s0 ms0) iterations s ->
  iterations < maxIterations ->
  let streamed := stream (request_of context (private_copy s0)) None s in
  completion streamed = Throw e ->
  aborts plugins context s0 iterations s (yielded streamed) e.
Proof.
  intros Hms0 Hreaches Hlt streamed Hthrown.
  assert (Hturn : loop plugins context (private_copy s0) iterations s
                  = Build_Out (List.filter is_content (yielded streamed))
                      (GatewayCall (default [] (heap s !! private_copy s0))
                       :: events streamed)
                      (final streamed) (Throw e)).
  { rewrite loop_step by exact Hlt.
    pose proof (model_turn_run context (private_copy s0) s) as Hturn.
    cbv zeta in Hturn. fold streamed in Hturn. rewrite Hthrown in Hturn.
    erewrite bind_run_throw by exact Hturn. reflexivity. }
  destruct (reaches_run _ _ _ _ _ _ _ Hreaches) as (_ & chunks & Hdone & Hyielded & Hcompletion).
  { rewrite entered_copy. eauto. }
  unfold aborts. cbv zeta. rewrite (execute_run _ _ _ ms0) by exact Hms0.
  rewrite Hyielded, Hcompletion, Hturn. cbn [yielded events completion].
  split; [reflexivity|]. split; [reflexivity|]. split.
  - cbn [tools_invoked omap]. apply stream_events.
  - split; [reflexivity|]. rewrite List.filter_app, Hdone, done_in_content. reflexivity.
Qed.

(** C3, as the code has it.  In any turn of a run of [execute], when the
    response of the client has a turn of tool calls whose accumulated
    argument text [JSON.parse] refuses, the parse error fails the attempt of
    the model: the attempt throws the [SyntaxError], and the gateway yields
    no [tool_error] chunk and no [done] chunk.  When the model in use is
    the fallback model, the error is the outcome of [stream] and of the
    run: [execute] throws it after the content chunks of the turn, without
    a [done] chunk and without invoking a tool.  When it is not, the whole
    request is tried once more, against the fallback model, and when the
    response to that attempt fails to parse as well, its error ends the run
    in the same way. *)
Theorem malformed_arguments_fail_the_attempt
    plugins context s0 ms0 iterations s ms msg :
  heap s0 !! cx_messages context = Some ms0 ->
  reaches plugins context (private_copy s0) 0 (entered s0 ms0) iterations s ->
  iterations < maxIterations ->
  heap s !! private_copy s0 = Some ms ->
  let request := request_of context (private_copy s0) in
  let model := model_in_use request None in
  let first := attempt model (params_for request ms model) s in
  let second :=
    attempt config.fastModel (params_for request ms config.fastModel) (final first) in
  let streamed := stream request None s in
  malformed_turn (client_create (params_for request ms model) (world s)).1 msg ->
  completion first = Throw (SyntaxError msg)
  /\ List.filter is_tool_error (yielded streamed) = []
  /\ List.filter is_done (yielded first) = []
  /\ if decide (model = config.fastModel)
     then streamed = first
          /\ aborts plugins context s0 iterations s (yielded first) (SyntaxError msg)
     else streamed = and_then first second
          /\ events streamed
             = [ClientCall (params_for request ms model);
                ClientCall (params_for request ms config.fastModel)]
          /\ forall msg',
               malformed_turn
                 (client_create (params_for request ms config.fastModel)
                    (world (final first))).1 msg' ->
               completion second = Throw (SyntaxError msg')
               /\ aborts plugins context s0 iterations s
                    (yielded first ++ yielded second) (SyntaxError msg').
Proof.
  intros Hms0 Hreaches Hlt Hms request model first second streamed Hturn.
  assert (Hfirst : completion first = Throw (SyntaxError msg))
    by (apply attempt_malformed, Hturn).
  split; [exact Hfirst|]. split.
  { apply no_tool_error_in_gateway_chunks. apply (stream_produces request None). }
  split.
  { pose proof (attempt_done model (params_for request ms model) s) as Hdone.
    fold first in Hdone. rewrite Hfirst in Hdone. exact Hdone. }
  pose proof (stream_run request None s ms Hms) as Hstream.
  cbv zeta in Hstream. fold model first second streamed in Hstream.
  rewrite Hfirst in Hstream.
  destruct (decide (model = config.fastModel)) as [Hfast|Hother].
  - split; [exact Hstream|]. rewrite <- Hstream.
    apply (turn_aborts plugins context s0 ms0 iterations s _ Hms0 Hreaches Hlt).
    fold request streamed. rewrite Hstream. exact Hfirst.
  - split; [exact Hstream|]. split.
    { rewrite Hstream. unfold and_then; cbn [events]. unfold first, second.
      rewrite !attempt_events. reflexivity. }
    intros msg' Hturn'.
    assert (Hsecond : completion second = Throw (SyntaxError msg'))
      by (apply attempt_malformed, Hturn').
    split; [exact Hsecond|].
    replace (yielded first ++ yielded second) with (yielded streamed)
      by (rewrite Hstream; reflexivity).
    apply (turn_aborts plugins context s0 ms0 iterations s _ Hms0 Hreaches Hlt).
    fold request streamed. rewrite Hstream. exact Hsecond.
Qed.
End MalformedTurns.

(** * The scenarios of the specification, run *)

Section Scenarios.
Import Scenario Wire AIGateway TaskPlanner.

(** "What is 2+2?": one turn, the content and the [done] chunk, no tool. *)
Example two_plus_two :
  let o := execute tools context (start [text_turn "4"]) in
  yielded o = [Content "4" "llama-3.3-70b-versatile"; Done None]
  /\ completion o = Return tt
  /\ gateway_inputs (events o) = [[user_message]]
  /\ tools_invoked (events o) = [].
Proof. vm_compute. auto. Qed.

(** The fragments [{"a":] and [1}] of one index parse as [{"a":1}]. *)
Example fragments_of_a_is_1 :
  let pieces :=
    {| rs_chunks :=
         [fragment_chunk (fragment 0 (Some "call_1") (Some "X") ("{" +:+ dq +:+ "a" +:+ dq +:+ ":"));
          fragment_chunk (fragment 0 None None "1}");
          finish_chunk "tool_calls"];
       rs_failure := None |} in
  let whole :=
    {| rs_chunks :=
         [fragment_chunk (fragment 0 (Some "call_1") (Some "X") a_is_1);
          finish_chunk "tool_calls"];
       rs_failure := None |} in
  yielded (stream request None (start [pieces])) =
    [ToolCall {| tc_tool := "X"; tc_arguments := JObject [("a", JNumber 1)];
                 tc_id := Some "call_1"; tc_model := "llama-3.3-70b-versatile" |};
     Done (Some "llama-3.3-70b-versatile")]
  /\ yielded (stream request None (start [pieces])) =
     yielded (stream request None (start [whole])).
Proof. vm_compute. auto. Qed.

(** A tool that always fails, then a normal completion: the run ends by
    the [done] chunk. *)
Example failing_tool_then_done :
  let o := execute tools context (start [tool_turn "call_1" "X" ""; text_turn "Sorry."]) in
  last (yielded o) = Some (Done None)
  /\ completion o = Return tt
  /\ List.filter is_tool_error (yielded o) =
     [ToolErrorChunk "X" ("> Error: X is out of order" +:+ nl)].
Proof. vm_compute. auto. Qed.

(** Ten turns that request a tool: ten calls of the gateway, then the
    warning. *)
Example ten_turns_then_warning :
  let o := execute tools context (start (replicate 12 (tool_turn "call_1" "X" ""))) in
  length (gateway_inputs (events o)) = 10
  /\ last (yielded o) = Some (Warning warning_max_iterations)
  /\ completion o = Return tt.
Proof. vm_compute. auto. Qed.

(** Both models fail: the error of the fallback model goes to the caller,
    and no third call is made. *)
Example both_models_fail :
  let o := stream request None (start [failed_turn; failed_turn; text_turn "4"]) in
  completion o = Throw (APIError "Connection error.")
  /\ map (fun ev => match ev with ClientCall p => p_model p | _ => "" end) (events o) =
     ["llama-3.3-70b-versatile"; "llama-3.1-8b-instant"].
Proof. vm_compute. auto. Qed.
End Scenarios.

(** * The claims that fail as stated *)

Section Counterexamples.
Import Scenario Wire AIGateway TaskPlanner.

(** C3 as stated fails: with argument text that does not parse in the turn
    of either model, the gateway is made to try the fallback model, no
    [tool_error] chunk is yielded, no tool message is appended, and the
    run ends in the error. *)
Lemma malformed_arguments_abort_the_run :
  let malformed := tool_turn "call_1" "X" "{" in
  let o := execute tools context (start [malformed; malformed]) in
  completion o = Throw (SyntaxError "Unexpected end of JSON input")
  /\ List.filter is_tool_error (yielded o) = []
  /\ length (List.filter is_ClientCall (events o)) = 2
  /\ heap (final o) !! private_copy (start [malformed; malformed]) = Some [user_message].
Proof. vm_compute. auto. Qed.

(** C8 as stated fails: the content of the [tool_result] chunk for a
    result of 500 characters has 214 characters, not 203 or fewer. *)
Lemma long_result_chunk_exceeds_203 :
  let o := execute tools context
             (start [tool_turn "call_1" "verbose" ""; text_turn "Done."]) in
  exists text,
    yielded o !! 2 = Some (ToolResult "verbose" text)
    /\ String.length text = 214
    /\ ~ String.length text <= 203.
Proof.
  eexists. split; [vm_compute; reflexivity|].
  split; [vm_compute; reflexivity|]. vm_compute. lia.
Qed.
End Counterexamples.

(** * The theorems at concrete inputs *)

Section Witnesses.
Import Scenario Wire AIGateway TaskPlanner.

Lemma gateway_calls_bounded_witness :
  let s := start (replicate 12 (tool_turn "call_1" "X" "")) in
  length (gateway_inputs (events (execute tools context s))) <= maxIterations.
Proof.
  intros s.
  exact (proj1 (proj2 (gateway_calls_bounded tools context s))).
Defined.

Lemma stream_falls_back_once_witness :
  let s := start [failed_turn; text_turn "4"] in
  heap s !! rq_messages request = Some [user_message]
  /\ length (events (stream request None s)) <= 2.
Proof.
  intros s. split; [reflexivity|].
  exact (proj2 (proj2 (proj2
    (stream_falls_back_once request None s [user_message] eq_refl)))).
Defined.

Lemma malformed_tool_turn :
  malformed_turn (tool_turn "call_2" "X" "{") "Unexpected end of JSON input".
Proof.
  exists [fragment_chunk (fragment 0 (Some "call_2") (Some "X") "{")],
         (finish_chunk "tool_calls"), [], [].
  eexists. exists [].
  split; [reflexivity|]. split.
  { split; [|exact I]. intros Hends. vm_compute in Hends. discriminate Hends. }
  split; [reflexivity|]. split.
  { vm_compute. reflexivity. }
  split; [constructor|]. split.
  - reflexivity.
  - reflexivity.
Qed.

Lemma malformed_arguments_fail_the_attempt_witness :
  let malformed := tool_turn "call_2" "X" "{" in
  let s0 := start [tool_turn "call_1" "X" ""; malformed; malformed] in
  completion (execute tools context s0) = Throw (SyntaxError "Unexpected end of JSON input")
  /\ List.filter is_done (yielded (execute tools context s0)) = [].
Proof.
  intros malformed s0.
  set (messages := private_copy s0).
  set (called := {| tc_tool := "X"; tc_arguments := JObject []; tc_id := Some "call_1";
                    tc_model := "llama-3.3-70b-versatile" |}).
  set (s1 := final (run_tools tools messages "" [called]
                      (final (model_turn context messages (entered s0 [user_message]))))).
  assert (Hreaches : reaches tools context messages 0 (entered s0 [user_message]) 1 s1).
  { apply (reaches_next tools context messages 0 (entered s0 [user_message]) "" called [] 1 s1);
      [unfold maxIterations; lia|vm_compute; reflexivity|apply reaches_here]. }
  assert (Hms : { ms | heap s1 !! messages = Some ms }).
  { eexists. vm_compute. reflexivity. }
  destruct Hms as [ms Hms].
  destruct (malformed_arguments_fail_the_attempt tools context s0 [user_message] 1 s1 ms
              "Unexpected end of JSON input" eq_refl Hreaches
              ltac:(unfold maxIterations; lia) Hms malformed_tool_turn)
    as (_ & _ & _ & Hcases).
  destruct (decide _) as [Hfast|_]; [discriminate Hfast|].
  destruct Hcases as (_ & _ & Hsecond).
  destruct (Hsecond "Unexpected end of JSON input" malformed_tool_turn)
    as (_ & _ & _ & _ & Hthrown & Hdone).
  split; [exact Hthrown|exact Hdone].
Defined.
Lemma no_tool_call_one_done_witness :
  let s := start [text_turn "4"] in
  heap s !! cx_messages context = Some [user_message]
  /\ length (List.filter is_done (yielded (execute tools context s))) = 1.
Proof.
  intros s. split; [reflexivity|].
  exact (proj1 (proj2 (proj2
    (no_tool_call_one_done tools context s [user_message] eq_refl eq_refl eq_refl)))).
Defined.


Lemma long_result_rendered_short_kept_whole_witness :
  let s := entered (start []) [user_message] in
  let tc := {| tc_tool := "verbose"; tc_arguments := JObject []; tc_id := Some "call_1";
               tc_model := "llama-3.3-70b-versatile" |} in
  String.length long_text = 500
  /\ heap (final (run_tool tools (private_copy (start [])) tc s)) !! private_copy (start [])
     = Some ([user_message] ++ [tool_message tc long_text]).
Proof.
  intros s tc. split; [reflexivity|].
  exact (proj1 (proj2 (proj2 (proj2
    (long_result_rendered_short_kept_whole tools (private_copy (start [])) tc s
       [user_message] verbose long_text [] eq_refl eq_refl eq_refl eq_refl))))).
Defined.

Lemma caller_messages_unchanged_witness :
  let s := start [tool_turn "call_1" "X" ""; text_turn "Sorry."] in
  heap (final (execute tools context s)) !! cx_messages context = Some [user_message].
Proof.
  intros s.
  exact (proj1 (caller_messages_unchanged tools context s)).
Defined.
End Witnesses.

(** * The further properties, at the scenarios *)

Section FurtherWitnesses.
Import Scenario Wire AIGateway TaskPlanner.

Lemma announced_tool_is_executed_witness :
  let d := Registry.to_definition Setting.browse_webpage_tool in
  d ∈ Registry.getToolDefinitions (after Setting.host [Initialize true Setting.imported])
  /\ exists tool,
       PluginManager.definition tool = d
       /\ completion
            (Registry.execute (after Setting.host [Initialize true Setting.imported])
               (name d) (JObject []) (start []))
          = completion_of (PluginManager.tool_execute tool (JObject []) []).1.
Proof.
  intros d.
  assert (Hd : d ∈ Registry.getToolDefinitions (after Setting.host [Initialize true Setting.imported]))
    by (apply list_elem_of_further, list_elem_of_here).
  split; [exact Hd|].
  destruct (announced_tool_is_executed Setting.host [Initialize true Setting.imported]
              d (JObject []) (start []) Hd) as (tool & Hdefinition & Hrun).
  exists tool. split; [exact Hdefinition|]. cbv zeta in Hrun. rewrite Hrun. reflexivity.
Defined.

Lemma unannounced_tool_is_unknown_witness :
  completion
    (Registry.execute (after Setting.host [Initialize true Setting.imported])
       "fly" (JObject []) (start []))
  = Throw (Error "Unknown tool: fly").
Proof.
  rewrite (unannounced_tool_is_unknown Setting.host [Initialize true Setting.imported]
             "fly" (JObject []) (start [])).
  - reflexivity.
  - intros Hin. apply list_elem_of_In in Hin. vm_compute in Hin.
    repeat (destruct Hin as [Hin|Hin]; [discriminate Hin|]). exact Hin.
Defined.

Lemma calculate_evaluates_arithmetic_only_witness :
  Calculator.calculate (Registry.evaluate Setting.host) "2 + 2 apples"
  = Calculator.calculate Setting.wary "2 + 2 apples".
Proof.
  apply calculate_evaluates_arithmetic_only.
  intros text Hkept. unfold Setting.wary.
  rewrite (proj2 (forallb_forall _ _)); [reflexivity|].
  intros c Hc. rewrite Forall_forall in Hkept. apply Hkept, list_elem_of_In, Hc.
Defined.

Lemma calculate_answers_in_text_witness :
  Registry.calculate_execute Setting.host
    (JObject [("expression", JObject [("toString", JNumber 1)])]) []
  = (inl (TypeError "Cannot convert object to primitive value"), []).
Proof.
  apply (calculate_answers_in_text Setting.host
           (JObject [("expression", JObject [("toString", JNumber 1)])]) []).
  discriminate.
Defined.

Lemma selectModel_names_a_model_witness :
  truthy (@selectModel (Setting.preferring "") (Some "translation")) = true
  /\ @selectModel (Setting.preferring "") (Some "translation") = "llama-3.3-70b-versatile".
Proof.
  assert (Hown : default "general" (Some "translation") ∉ config.inherited).
  { intros Hin. apply list_elem_of_In in Hin. vm_compute in Hin.
    repeat (destruct Hin as [Hin|Hin]; [discriminate Hin|]). exact Hin. }
  destruct (@selectModel_names_a_model (Setting.preferring "") (Some "translation") Hown)
    as [Hmodel _].
  split; [exact Hmodel|vm_compute; reflexivity].
Defined.

Lemma routed_model_ignores_environment_witness :
  @selectModel Scenario.runtime (Some "coding")
  = @selectModel (Setting.preferring "mixtral-8x7b-32768") (Some "coding").
Proof.
  apply routed_model_ignores_environment. eexists. vm_compute. reflexivity.
Defined.

Lemma text_turn_yields_its_texts_witness :
  let s := start [{| rs_chunks := [text_chunk "2 + 2"; text_chunk ""; text_chunk " = 4";
                                   finish_chunk "stop"];
                     rs_failure := None |}] in
  yielded (attempt "m" (params_for request [user_message] "m") s)
  = [Content "2 + 2" "m"; Content " = 4" "m"; Done (Some "m")].
Proof.
  intros s. rewrite text_turn_yields_its_texts.
  - reflexivity.
  - repeat constructor; intros Hends; discriminate Hends.
Defined.

Lemma skipped_index_fails_the_turn_witness :
  exists e,
    completion
      (for_of (accumulate [] (fragment 1 (Some "call_1") (Some "X") "{}"))
         (emit_tool_call "m") (start []))
    = Throw e.
Proof.
  apply (skipped_index_fails_the_turn "m" [] (fragment 1 (Some "call_1") (Some "X") "{}") 1
           (start []) eq_refl).
  simpl. lia.
Defined.

Lemma entry_keeps_first_id_and_last_name_witness :
  let deltas := [fragment 0 (Some "call_1") (Some "X") "{";
                 fragment 0 (Some "call_2") (Some "verbose") "}"] in
  acc_id <$> array_get (foldl accumulate [] deltas) 0 = Some (Some "call_1")
  /\ from_option acc_name "" (array_get (foldl accumulate [] deltas) 0) = "verbose".
Proof.
  intros deltas.
  exact (entry_keeps_first_id_and_last_name deltas [] 0 eq_refl).
Defined.

Lemma tool_bookkeeping_is_not_sent_witness :
  let s := {| world := [text_turn "Noon."];
              heap := {[ 1%positive := [user_message; Setting.tool_answer] ]} |} in
  let s' := {| world := [text_turn "Noon."];
               heap := {[ 1%positive := map bare [user_message; Setting.tool_answer] ]} |} in
  observed (stream request None s') = observed (stream request None s).
Proof.
  intros s s'.
  exact (tool_bookkeeping_is_not_sent request None s s' [user_message; Setting.tool_answer]
           eq_refl eq_refl eq_refl).
Defined.

Lemma requested_tools_run_once_in_order_witness :
  let s := entered (start [tool_turn "call_1" "X" ""; text_turn "Sorry."]) [user_message] in
  tools_invoked (events (loop tools context (private_copy (start [])) 0 s)) = ["X"].
Proof.
  intros s.
  rewrite (requested_tools_run_once_in_order tools context (private_copy (start [])) 0 s
             [user_message] ltac:(unfold maxIterations; lia) eq_refl eq_refl).
  vm_compute. reflexivity.
Defined.

Lemma undefined_result_is_reported_as_error_witness :
  let s := entered (start []) [user_message] in
  let tc := {| tc_tool := "silent"; tc_arguments := JObject []; tc_id := Some "call_1";
               tc_model := "llama-3.3-70b-versatile" |} in
  List.filter is_tool_error
    (yielded (run_tool Setting.lazy_tools (private_copy (start [])) tc s))
  = [ToolErrorChunk "silent"
       ("> Error: Cannot read properties of undefined (reading 'length')" +:+ nl)].
Proof.
  intros s tc.
  rewrite (undefined_result_is_reported_as_error Setting.lazy_tools
             (private_copy (start [])) tc s [user_message] Setting.silent []
             eq_refl eq_refl eq_refl).
  reflexivity.
Defined.

Lemma assistant_message_records_the_turn_witness :
  let s := entered (start [tool_turn "call_1" "X" ""; text_turn "Sorry."]) [user_message] in
  let tc := {| tc_tool := "X"; tc_arguments := JObject []; tc_id := Some "call_1";
               tc_model := "llama-3.3-70b-versatile" |} in
  let turn := model_turn context (private_copy (start [])) s in
  exists assistant reports,
    heap (final (run_tools tools (private_copy (start [])) "" [tc] (final turn)))
      !! private_copy (start [])
    = Some ([user_message] ++ assistant :: reports)
    /\ tool_calls assistant = Some [reference tc].
Proof.
  intros s tc turn.
  destruct (assistant_message_records_the_turn tools context (private_copy (start [])) s
              [user_message] "" tc [] eq_refl eq_refl)
    as (assistant & reports & Hheap & _ & _ & Hcalls & _).
  exists assistant, reports. split; [exact Hheap|exact Hcalls].
Defined.

Lemma triggers_ignore_surrounding_text_witness :
  Jarvis.shouldUseTools ("Let us have b" +:+ "run" +:+ "ch together") = true.
Proof.
  exact (triggers_ignore_surrounding_text "run" "Let us have b" "ch together" eq_refl).
Defined.

Lemma attachments_stay_in_history_witness :
  let r := Jarvis.answer Setting.surroundings "What is this?" Setting.with_picture
             Setting.assistant (start [text_turn "A cat."]) in
  exists l,
    l ∈ Jarvis.currentContext (Jarvis.self r)
    /\ (attachments <$> Jarvis.objects (Jarvis.self r) !! l) = Some (Some [Setting.picture]).
Proof.
  intros r.
  destruct (attachments_stay_in_history Setting.surroundings "What is this?"
              Setting.with_picture Setting.assistant (start [text_turn "A cat."])
              [] [text_turn "A cat."] [Setting.picture] eq_refl eq_refl)
    as (l & Hl & Hobject & _).
  exists l. split; [exact Hl|]. fold r in Hobject. rewrite Hobject. reflexivity.
Defined.

Lemma direct_answer_invokes_no_tool_witness :
  tools_invoked
    (Jarvis.made (Jarvis.process Setting.surroundings "Who wrote Hamlet?" Setting.typed
                    Setting.assistant (start [tool_turn "call_1" "web_search" ""])))
  = [].
Proof.
  exact (proj1 (direct_answer_invokes_no_tool Setting.surroundings "Who wrote Hamlet?"
                  Setting.typed Setting.assistant
                  (start [tool_turn "call_1" "web_search" ""]) eq_refl)).
Defined.

Lemma reply_collects_every_chunk_content_witness :
  let r := Jarvis.answer Setting.surroundings "Who wrote Hamlet?" Setting.typed
             Setting.assistant (start [text_turn "Shakespeare."]) in
  Jarvis.status (Jarvis.self r) = "ready".
Proof.
  intros r.
  destruct (reply_collects_every_chunk_content Setting.surroundings "Who wrote Hamlet?"
              Setting.typed Setting.assistant (start [text_turn "Shakespeare."]) eq_refl)
    as (chunks & l & _ & _ & _ & Hstatus).
  exact Hstatus.
Defined.


End FurtherWitnesses.
